(** * The release registry's resolution engine (api-server/apiserver.py)

    A shallow embedding of [validate_path_component] and of the methods of
    class [Registry], together with the parts of Python, of the filesystem
    and of the [semver] package that they rely on.

    - Python exceptions are values of [exn]; a method is a computation in the
      monad [M], which reads the filesystem tree below the registry root,
      returns a value or raises, and records every filesystem access it makes.
    - A method that falls off its end or executes a bare [return] returns
      Python's [None]; such methods have an [option] result. *)

From Stdlib Require Import String Ascii List ZArith NArith Bool Lia Sorted Permutation.
From stdpp Require Import base option list gmap sets strings pretty.

Open Scope string_scope.
Set Warnings "-register-all,-clear-no-such-hyp".

(** ** Python strings *)

Module Str.

(** [s.split(sep)] for a one-character separator: the pieces between the
    occurrences of [sep], always at least one piece. *)
Fixpoint split (sep : ascii) (s : string) : list string :=
  match s with
  | EmptyString => [EmptyString]
  | String a s' =>
      if Ascii.eqb a sep then EmptyString :: split sep s'
      else match split sep s' with
           | [] => [String a EmptyString]
           | piece :: pieces => String a piece :: pieces
           end
  end.

(** [c in s] for a one-character [c]. *)
Fixpoint contains (c : ascii) (s : string) : bool :=
  match s with
  | EmptyString => false
  | String a s' => Ascii.eqb a c || contains c s'
  end.

(** [s.split(sep, 1)] on a string that contains [sep]: what precedes the
    first occurrence and what follows it.  [None] when [sep] does not occur. *)
Fixpoint split_once (sep : ascii) (s : string) : option (string * string) :=
  match s with
  | EmptyString => None
  | String a s' =>
      if Ascii.eqb a sep then Some (EmptyString, s')
      else match split_once sep s' with
           | Some (before, after) => Some (String a before, after)
           | None => None
           end
  end.

(** [s.endswith(suffix)]. *)
Definition endswith (s suffix : string) : bool :=
  let n := String.length s in
  let k := String.length suffix in
  (k <=? n)%nat && String.eqb (String.substring (n - k) k s) suffix.

(** [sep.join(parts)]. *)
Definition join (sep : string) (parts : list string) : string :=
  String.concat sep parts.

(** [all(p(c) for c in s)]. *)
Fixpoint all (p : ascii -> bool) (s : string) : bool :=
  match s with
  | EmptyString => true
  | String a s' => p a && all p s'
  end.

End Str.

(** ** Exceptions and results *)

Inductive errno := ENOENT | ENOTDIR | EISDIR | EACCES.

(** The exceptions the module can raise.  [InvalidPathComponent] is the
    module's own subclass of [ValueError]; [JSONDecodeError] is what
    [json.load] raises on text that is not JSON and [UnicodeDecodeError]
    what reading the file raises on bytes that are not text; [ValueError]
    stands for the one raised by [VersionInfo.parse].  [OSError] covers
    [IOError] and all its subclasses (missing file, not a directory, is a
    directory, permission denied). *)
Inductive exn :=
| InvalidPathComponent
| OSError (e : errno)
| JSONDecodeError
| UnicodeDecodeError
| KeyError
| TypeError
| AttributeError
| ValueError.

Inductive result (A : Type) :=
| Ret (a : A)
| Raise (e : exn).
Arguments Ret {A} a.
Arguments Raise {A} e.

(** What [except (IOError, OSError)] catches. *)
Definition is_OSError (e : exn) : bool :=
  match e with
  | OSError _ => true
  | _ => false
  end.

#[global] Instance errno_eq_dec : EqDecision errno.
Proof. solve_decision. Defined.
#[global] Instance exn_eq_dec : EqDecision exn.
Proof. solve_decision. Defined.

(** ** JSON documents *)

(** The value [json.load] returns.  An object is the dictionary built by the
    loader, as an association list with one binding per key. *)
Inductive json :=
| JNull
| JBool (b : bool)
| JNum (n : Z)
| JStr (s : string)
| JArr (items : list json)
| JObj (fields : list (string * json)).

Fixpoint assoc (k : string) (fields : list (string * json)) : option json :=
  match fields with
  | [] => None
  | (k', v) :: rest => if String.eqb k k' then Some v else assoc k rest
  end.

(** [data[key]]: a [KeyError] when a dictionary lacks the key, a [TypeError]
    when [data] is not a dictionary (lists and strings take integer indices,
    the other values are not subscriptable). *)
Definition getitem (data : json) (key : string) : result json :=
  match data with
  | JObj fields =>
      match assoc key fields with
      | Some v => Ret v
      | None => Raise KeyError
      end
  | _ => Raise TypeError
  end.

(** [data.get(key)]: Python's [None] (JSON [null]) when the key is missing;
    only dictionaries have the method. *)
Definition dict_get (data : json) (key : string) : result json :=
  match data with
  | JObj fields =>
      match assoc key fields with
      | Some v => Ret v
      | None => Ret JNull
      end
  | _ => Raise AttributeError
  end.

(** Truth value of a loaded JSON value, as tested by [if x] and [not x]. *)
Definition truthy (j : json) : bool :=
  match j with
  | JNull => false
  | JBool b => b
  | JNum n => negb (n =? 0)%Z
  | JStr s => negb (String.eqb s EmptyString)
  | JArr items => match items with [] => false | _ => true end
  | JObj fields => match fields with [] => false | _ => true end
  end.

(** [j == s] for a string literal [s]. *)
Definition json_is_str (s : string) (j : json) : bool :=
  match j with
  | JStr s' => String.eqb s' s
  | _ => false
  end.

(** ** The filesystem below the registry root *)

(** What a file holds is modelled by what [json.load] makes of it: a
    document; text that is not JSON ([Garbage]); or bytes that are not text
    in the encoding [open] reads with ([Binary]). *)
Inductive content :=
| Json (doc : json)
| Garbage
| Binary.

(** A directory maps entry names to nodes.  [Denied] is an entry whose
    permissions refuse the process: it can be neither opened, listed nor
    traversed.  This is the one state of permissions of the trees here: a
    directory that can be traversed and not listed, or listed and not
    traversed, is not among them. *)
Inductive node :=
| File (c : content)
| Dir (entries : gmap string node)
| Denied.

(** The filesystem accesses the registry performs, with the path (relative to
    the registry root) they are made at. *)
Inductive access :=
| Open (path : string)
| Listdir (path : string)
| Stat (path : string).

(** Resolution of the components of a path, from the node [cur]. *)
Fixpoint walk (components : list string) (cur : node) : result node :=
  match components with
  | [] => Ret cur
  | name :: rest =>
      match cur with
      | Dir entries =>
          match entries !! name with
          | Some child => walk rest child
          | None => Raise (OSError ENOENT)
          end
      | File _ => Raise (OSError ENOTDIR)
      | Denied => Raise (OSError EACCES)
      end
  end.

(** The node at [path].  Every path the registry hands to the filesystem
    comes out of [_path], whose components are proper entry names (see
    [_path_components_proper]); they are looked up one by one. *)
Definition lookup_path (root : node) (path : string) : result node :=
  walk (Str.split "/" path) root.

(** ** The monad of registry methods *)

(** A method reads the tree at the registry root; it returns a value or
    raises, and in both cases leaves the list of the filesystem accesses it
    made, in the order it made them. *)
Definition M (A : Type) : Type := node -> result A * list access.

#[global] Instance M_ret : MRet M :=
  fun A (a : A) _ => (Ret a, []).

#[global] Instance M_bind : MBind M :=
  fun A B (k : A -> M B) (m : M A) root =>
    match m root with
    | (Ret a, log) => let (r, log') := k a root in (r, (log ++ log')%list)
    | (Raise e, log) => (Raise e, log)
    end.

Definition raise {A} (e : exn) : M A :=
  fun _ => (Raise e, []).

(** A pure computation that may raise. *)
Definition lift {A} (r : result A) : M A :=
  fun _ => (r, []).

(** [try: body / except (IOError, OSError): handler]. *)
Definition try_except_OSError {A} (body handler : M A) : M A :=
  fun root =>
    match body root with
    | (Raise e, log) =>
        if is_OSError e
        then let (r, log') := handler root in (r, (log ++ log')%list)
        else (Raise e, log)
    | returned => returned
    end.

(** What a method returns or raises, and the filesystem accesses it makes. *)
Definition run {A} (m : M A) (root : node) : result A := fst (m root).
Definition accesses {A} (m : M A) (root : node) : list access := snd (m root).

(** [for x in xs: acc = step(acc, x)], stopping at the first exception. *)
Fixpoint foldM {A B} (step : B -> A -> M B) (acc : B) (xs : list A) : M B :=
  match xs with
  | [] => mret acc
  | x :: xs' => acc' ← step acc x; foldM step acc' xs'
  end.

(** ** Filesystem primitives *)

(** [os.listdir(path)]: the names of the entries, in an order the caller
    cannot choose (here the order in which the map enumerates them). *)
Definition os_listdir (path : string) : M (list string) :=
  fun root =>
    (match lookup_path root path with
     | Ret (Dir entries) => Ret (map fst (map_to_list entries))
     | Ret (File _) => Raise (OSError ENOTDIR)
     | Ret Denied => Raise (OSError EACCES)
     | Raise e => Raise e
     end, [Listdir path]).

(** [os.path.exists(path)]: false when the path cannot be resolved, for
    whatever reason. *)
Definition os_path_exists (path : string) : M bool :=
  fun root =>
    (match lookup_path root path with
     | Ret _ => Ret true
     | Raise _ => Ret false
     end, [Stat path]).

(** [with open(path) as f: json.load(f)].  The paths are taken without a
    NUL byte, on which [open] raises [ValueError] before it looks at the
    filesystem. *)
Definition open_json_load (path : string) : M json :=
  fun root =>
    (match lookup_path root path with
     | Ret (File (Json doc)) => Ret doc
     | Ret (File Garbage) => Raise JSONDecodeError
     | Ret (File Binary) => Raise UnicodeDecodeError
     | Ret (Dir _) => Raise (OSError EISDIR)
     | Ret Denied => Raise (OSError EACCES)
     | Raise e => Raise e
     end, [Open path]).

(** ** The semver package *)

(** [VersionInfo.parse] and the comparison of [VersionInfo] values, as the
    package's releases 2.8 and 2.9 have them: [parse] matches the version
    against the package's regular expression, which differs from the grammar
    of Semantic Versioning 2.0.0 in two places (a pre-release identifier
    that starts with [0] must be [0] itself, and the match may end before a
    final line feed); the comparison is the precedence of Semantic
    Versioning 2.0.0 (build metadata is ignored). *)
Module Semver.

Inductive identifier :=
| Numeric (n : N)
| Alphanumeric (s : string).

(** A parsed version; [prerelease = []] when the version has none. *)
Record VersionInfo := {
  major : N;
  minor : N;
  patch : N;
  prerelease : list identifier;
  build : option string
}.

Definition is_digit (a : ascii) : bool :=
  (48 <=? N_of_ascii a)%N && (N_of_ascii a <=? 57)%N.

Definition is_letter (a : ascii) : bool :=
  ((65 <=? N_of_ascii a)%N && (N_of_ascii a <=? 90)%N)
  || ((97 <=? N_of_ascii a)%N && (N_of_ascii a <=? 122)%N).

(** The characters of an identifier: [0-9A-Za-z-]. *)
Definition is_identifier_char (a : ascii) : bool :=
  is_digit a || is_letter a || Ascii.eqb a "-".

Fixpoint int_of_digits (acc : N) (s : string) : N :=
  match s with
  | EmptyString => acc
  | String a s' => int_of_digits (10 * acc + (N_of_ascii a - 48))%N s'
  end.

(** [0|[1-9][0-9]*]: digits without a leading zero. *)
Definition numeric_identifier (s : string) : option N :=
  match s with
  | EmptyString => None
  | String a s' =>
      if Str.all is_digit s && (negb (Ascii.eqb a "0") || String.eqb s' EmptyString)
      then Some (int_of_digits 0 s)
      else None
  end.

(** A pre-release identifier of the regular expression,
    [0|[1-9A-Za-z-][0-9A-Za-z-]*]: the digit [0], or identifier characters
    the first of which is not [0].  One that is all digits is compared as a
    number. *)
Definition prerelease_identifier (s : string) : option identifier :=
  match s with
  | EmptyString => None
  | String a _ =>
      if String.eqb s "0" then Some (Numeric 0)
      else if negb (Ascii.eqb a "0") && Str.all is_identifier_char s
      then Some (if Str.all is_digit s then Numeric (int_of_digits 0 s) else Alphanumeric s)
      else None
  end.

(** [[0-9A-Za-z-]+]. *)
Definition build_identifier (s : string) : bool :=
  negb (String.eqb s EmptyString) && Str.all is_identifier_char s.

Definition parse_core (core : string) : option (N * N * N) :=
  match Str.split "." core with
  | [a; b; c] =>
      x ← numeric_identifier a;
      y ← numeric_identifier b;
      z ← numeric_identifier c;
      Some (x, y, z)
  | _ => None
  end.

(** The groups of a version that is matched to its end: three numbers, then
    the pre-release after the first [-] of what precedes the first [+], then
    the build metadata after that [+].  [identifier] says what a pre-release
    identifier is. *)
Definition match_line (identifier : string -> option Semver.identifier) (line : string)
  : option VersionInfo :=
  let (main, meta) :=
    match Str.split_once "+" line with
    | Some (main, meta) => (main, Some meta)
    | None => (line, None)
    end in
  let (core, pre) :=
    match Str.split_once "-" main with
    | Some (core, pre) => (core, Some pre)
    | None => (main, None)
    end in
  '(x, y, z) ← parse_core core;
  ids ← match pre with
        | Some pre => mapM identifier (Str.split "." pre)
        | None => Some []
        end;
  if match meta with
     | Some meta => forallb build_identifier (Str.split "." meta)
     | None => true
     end
  then Some {| major := x; minor := y; patch := z; prerelease := ids; build := meta |}
  else None.

(** What the regular expression matches of a string: its final [$] matches
    at the end of the string and also before a line feed that ends it. *)
Fixpoint chomp (s : string) : string :=
  match s with
  | EmptyString => EmptyString
  | String a s' =>
      if Ascii.eqb a "010" && String.eqb s' EmptyString then EmptyString
      else String a (chomp s')
  end.

(** [VersionInfo.parse(version)]; [None] stands for the [ValueError] raised
    on a string the regular expression does not match. *)
Definition parse (version : string) : option VersionInfo :=
  match_line prerelease_identifier (chomp version).

(** Strings compare by code point. *)
Definition compare_str (s t : string) : comparison :=
  list_compare Ascii.compare (list_ascii_of_string s) (list_ascii_of_string t).

(** Numeric identifiers compare as numbers and are lower than alphanumeric
    ones, which compare as strings. *)
Definition compare_identifier (a b : identifier) : comparison :=
  match a, b with
  | Numeric x, Numeric y => (x ?= y)%N
  | Numeric _, Alphanumeric _ => Lt
  | Alphanumeric _, Numeric _ => Gt
  | Alphanumeric s, Alphanumeric t => compare_str s t
  end.

(** A version without pre-release is higher than one with; two pre-releases
    compare identifier by identifier, a proper prefix being lower. *)
Definition compare_prerelease (p q : list identifier) : comparison :=
  match p, q with
  | [], [] => Eq
  | [], _ :: _ => Gt
  | _ :: _, [] => Lt
  | _ :: _, _ :: _ => list_compare compare_identifier p q
  end.

Definition lexico (c : comparison) (rest : comparison) : comparison :=
  match c with
  | Eq => rest
  | _ => c
  end.

(** Precedence: major, minor, patch, then pre-release. *)
Definition compare (v w : VersionInfo) : comparison :=
  lexico (major v ?= major w)%N
    (lexico (minor v ?= minor w)%N
       (lexico (patch v ?= patch w)%N
          (compare_prerelease (prerelease v) (prerelease w)))).

(** [v < w]. *)
Definition lt (v w : VersionInfo) : bool :=
  match compare v w with
  | Lt => true
  | _ => false
  end.

(** [v <= w], the order the sorted list is ascending in. *)
Definition le (v w : VersionInfo) : bool := negb (lt w v).

(** The precedence of a version as one list, compared item by item: the
    three numbers, then the pre-release identifiers, or [Release] when there
    are none. *)
Inductive atom :=
| Id (i : identifier)
| Release.

Definition compare_atom (a b : atom) : comparison :=
  match a, b with
  | Id i, Id j => compare_identifier i j
  | Id _, Release => Lt
  | Release, Id _ => Gt
  | Release, Release => Eq
  end.

Definition key (v : VersionInfo) : list atom :=
  Id (Numeric (major v)) :: Id (Numeric (minor v)) :: Id (Numeric (patch v)) ::
  match prerelease v with
  | [] => [Release]
  | ids => map Id ids
  end.

End Semver.

(** ** Semantic versions *)

(** The semantic-version strings of the specification: the grammar of
    Semantic Versioning 2.0.0, in which a pre-release identifier is a number
    without leading zero or a string of identifier characters with at least
    one that is not a digit, and in which a version holds no line feed. *)
Module SemverSpec.

Definition prerelease_identifier (s : string) : option Semver.identifier :=
  if String.eqb s EmptyString then None
  else if Str.all Semver.is_digit s then Semver.Numeric <$> Semver.numeric_identifier s
  else if Str.all Semver.is_identifier_char s then Some (Semver.Alphanumeric s)
  else None.

Definition parse (version : string) : option Semver.VersionInfo :=
  Semver.match_line prerelease_identifier version.

Definition valid (version : string) : bool :=
  match parse version with
  | Some _ => true
  | None => false
  end.

End SemverSpec.

(** ** sorted *)

(** [sorted(xs, key=key)] once the keys are computed: Python's sort is
    stable and only asks whether one key is lower than another.  Any stable
    sort gives the same list; this one inserts each item before the first
    item of the sorted rest that is not lower. *)
Section StableSort.
Context {K A : Type} (lower : K -> K -> bool).

Fixpoint insert_keyed (x : K * A) (l : list (K * A)) : list (K * A) :=
  match l with
  | [] => [x]
  | y :: l' => if lower (fst y) (fst x) then y :: insert_keyed x l' else x :: l
  end.

Fixpoint stable_sort (l : list (K * A)) : list (K * A) :=
  match l with
  | [] => []
  | x :: l' => insert_keyed x (stable_sort l')
  end.
End StableSort.

(** ** Pure computations that may raise *)

#[global] Instance result_ret : MRet result := @Ret.

#[global] Instance result_bind : MBind result :=
  fun A B (k : A -> result B) (r : result A) =>
    match r with
    | Ret a => k a
    | Raise e => Raise e
    end.

(** ** validate_path_component and Registry._path *)

(** The loop over [path.split('/')]. *)
Fixpoint validate_items (items : list string) : result unit :=
  match items with
  | [] => Ret tt
  | item :: rest =>
      if String.eqb item "." || String.eqb item ".." || String.eqb item EmptyString
      then Raise InvalidPathComponent
      else validate_items rest
  end.

Definition validate_path_component (path : string) : result unit :=
  if String.eqb path EmptyString then Raise InvalidPathComponent
  else validate_items (Str.split "/" path).

(** [os.path.join(self.path, *args)], as a path relative to the registry
    root [self.path].  It is only applied to validated arguments, none of
    which starts or ends with a slash, so the arguments are joined by
    single slashes. *)
Definition os_path_join (args : list string) : string := Str.join "/" args.

(** The loop [for arg in args: validate_path_component(arg)]. *)
Fixpoint validate_args (args : list string) : result unit :=
  match args with
  | [] => Ret tt
  | arg :: rest => _ ← validate_path_component arg; validate_args rest
  end.

Definition _path (args : list string) : result string :=
  _ ← validate_args args; Ret (os_path_join args).

(** ** PackageInfo *)

Record PackageInfo := { _data : json }.

(** The properties [canonical] and [version]. *)
Definition canonical (pkg : PackageInfo) : result json := getitem (_data pkg) "canonical".
Definition version (pkg : PackageInfo) : result json := getitem (_data pkg) "version".

(** ** Registry.get_package *)

(** ['%s.json' % version]. *)
Definition json_filename (version : string) : string := version ++ ".json".

Definition get_package (canonical version : string) : M (option PackageInfo) :=
  match Str.split_once ":" canonical with
  | None => mret None
  | Some (registry, package) =>
      try_except_OSError
        (path ← lift (_path ["packages"; registry; package; json_filename version]);
         doc ← open_json_load path;
         mret (Some {| _data := doc |}))
        (mret None)
  end.

(** [get_package] applied to a value read from a JSON document, which need
    not be a string: [':' not in canonical] is a membership test on lists and
    dictionaries and a [TypeError] on the other values; lists and
    dictionaries have no [split]. *)
Definition get_package_of_json (canonical : json) (version : string) : M (option PackageInfo) :=
  match canonical with
  | JStr s => get_package s version
  | JArr items => if existsb (json_is_str ":") items then raise AttributeError else mret None
  | JObj fields => if existsb (fun kv => String.eqb (fst kv) ":") fields
                   then raise AttributeError else mret None
  | _ => raise TypeError
  end.

(** ** Registry.get_package_versions *)

(** The members of the set [rv]: the values of the [version] fields.  Only
    strings can be parsed as versions; the other hashable values (numbers,
    booleans, [null]) are not told apart. *)
Inductive member :=
| Text (s : string)
| NotText.

#[global] Instance member_eq_dec : EqDecision member.
Proof. solve_decision. Defined.

#[global] Instance member_countable : Countable member :=
  inj_countable'
    (fun x => match x with Text s => Some s | NotText => None end)
    (fun o => match o with Some s => Text s | None => NotText end)
    (fun x => match x with Text _ => eq_refl | NotText => eq_refl end).

(** [rv.add(value)]: lists and dictionaries are unhashable. *)
Definition set_add (value : json) (rv : gset member) : result (gset member) :=
  match value with
  | JStr s => Ret ({[Text s]} ∪ rv)
  | JArr _ | JObj _ => Raise TypeError
  | _ => Ret ({[NotText]} ∪ rv)
  end.

(** The body of the loop over the directory listing. *)
Definition add_version_of (registry package : string) (rv : gset member) (filename : string)
  : M (gset member) :=
  if Str.endswith filename ".json" then
    path ← lift (_path ["packages"; registry; package; filename]);
    doc ← open_json_load path;
    value ← lift (getitem doc "version");
    lift (set_add value rv)
  else mret rv.

Definition collect_versions (registry package : string) : M (gset member) :=
  path ← lift (_path ["packages"; registry; package]);
  filenames ← os_listdir path;
  foldM (add_version_of registry package) ∅ filenames.

(** The key function [VersionInfo.parse], which raises on what is not a
    version; the key is paired with the item it belongs to. *)
Definition version_key (x : member) : result (Semver.VersionInfo * string) :=
  match x with
  | Text s =>
      match Semver.parse s with
      | Some v => Ret (v, s)
      | None => Raise ValueError
      end
  | NotText => Raise TypeError
  end.

(** [sorted(rv, key=VersionInfo.parse)]: the keys of all members are
    computed first, in the iteration order of the set. *)
Definition sorted_by_version (rv : gset member) : result (list string) :=
  keyed ← mapM version_key (elements rv);
  Ret (map snd (stable_sort Semver.lt keyed)).

Definition get_package_versions (canonical : string) : M (option (list string)) :=
  match Str.split_once ":" canonical with
  | None => mret None
  | Some (registry, package) =>
      rv ← collect_versions registry package;
      versions ← lift (sorted_by_version rv);
      mret (Some versions)
  end.

(** ** Registry.iter_packages *)

(** A [for] loop in a generator: what the iterations yield, in order. *)
Fixpoint for_yield {A B} (xs : list A) (body : A -> M (list B)) : M (list B) :=
  match xs with
  | [] => mret []
  | x :: xs' => ys ← body x; zs ← for_yield xs' body; mret (ys ++ zs)%list
  end.

(** ['%s:%s' % (package_registry, item)] and
    ['%s:%s/%s' % (package_registry, item, subitem)]. *)
Definition package_id (package_registry item : string) : string :=
  package_registry ++ ":" ++ item.
Definition subpackage_id (package_registry item subitem : string) : string :=
  package_registry ++ ":" ++ item ++ "/" ++ subitem.

(** What the walk yields for one entry of a registry directory. *)
Definition iter_item (package_registry item : string) : M (list string) :=
  marker ← lift (_path ["packages"; package_registry; item; "__NAMESPACE__"]);
  is_namespace ← os_path_exists marker;
  match is_namespace with
  | true =>
      path ← lift (_path ["packages"; package_registry; item]);
      subitems ← os_listdir path;
      for_yield subitems (fun subitem => mret [subpackage_id package_registry item subitem])
  | false => mret [package_id package_registry item]
  end.

Definition iter_registry (package_registry : string) : M (list string) :=
  path ← lift (_path ["packages"; package_registry]);
  items ← os_listdir path;
  for_yield items (iter_item package_registry).

(** The generator, run to its end. *)
Definition iter_packages : M (list string) :=
  path ← lift (_path ["packages"]);
  registries ← os_listdir path;
  for_yield registries iter_registry.

(** ** Registry.get_sdk and Registry.get_sdks *)

Definition get_sdk (sdk_id version : string) : M (option PackageInfo) :=
  try_except_OSError
    (path ← lift (_path ["sdks"; sdk_id; "latest.json"]);
     doc ← open_json_load path;
     canonical ← lift (getitem doc "canonical");
     get_package_of_json canonical version)
    (mret None).

(** [get_sdk] applied to a value read from a JSON document.  On a value
    that is not a string, [validate_path_component] raises
    [InvalidPathComponent] when the value is false and fails on the missing
    [split] method otherwise. *)
Definition get_sdk_of_json (sdk_id : json) (version : string) : M (option PackageInfo) :=
  match sdk_id with
  | JStr s => get_sdk s version
  | _ => if truthy sdk_id then raise AttributeError else raise InvalidPathComponent
  end.

(** The body of the loop of [get_sdks]: [rv[link] = pkg] when the link
    resolves, [continue] on a filesystem error. *)
Definition add_sdk (rv : gmap string PackageInfo) (link : string) : M (gmap string PackageInfo) :=
  try_except_OSError
    (path ← lift (_path ["sdks"; link; "latest.json"]);
     doc ← open_json_load path;
     canonical ← lift (getitem doc "canonical");
     pkg ← get_package_of_json canonical "latest";
     match pkg with
     | Some pkg => mret (<[link := pkg]> rv)
     | None => mret rv
     end)
    (mret rv).

Definition get_sdks : M (gmap string PackageInfo) :=
  path ← lift (_path ["sdks"]);
  links ← os_listdir path;
  foldM add_sdk ∅ links.

(** ** Registry.get_app *)

(** The document of the app, or [None]; a document that is [null] loads as
    [None] too. *)
Definition get_app (app_id version : string) : M (option json) :=
  try_except_OSError
    (path ← lift (_path ["apps"; app_id; json_filename version]);
     doc ← open_json_load path;
     mret (match doc with JNull => None | _ => Some doc end))
    (mret None).

(** ** Registry.get_marketing_slugs and Registry.resolve_marketing_slug *)

Definition get_marketing_slugs : M json :=
  path ← lift (_path ["misc"; "marketing-slugs.json"]);
  open_json_load path.

(** The [target] of a resolved slug: a package, or the dictionary
    [{'package': package, 'integration': data['integration']}]. *)
Inductive slug_target :=
| TargetPackage (package : PackageInfo)
| TargetIntegration (package : PackageInfo) (integration : json).

(** The dictionary [{'definition': data, 'target': target}]. *)
Record slug_resolution := {
  definition : json;
  target : option slug_target
}.

(** The package an [integration] definition points at. *)
Definition integration_package (data : json) : M (option PackageInfo) :=
  sdk ← lift (dict_get data "sdk");
  if truthy sdk then
    sdk ← lift (getitem data "sdk");
    get_sdk_of_json sdk "latest"
  else
    package ← lift (dict_get data "package");
    if truthy package then
      package ← lift (getitem data "package");
      get_package_of_json package "latest"
    else mret None.

(** The branches on [data['type']]. *)
Definition resolve_target (data : json) : M (option slug_target) :=
  type ← lift (getitem data "type");
  if json_is_str "sdk" type then
    sdk_id ← lift (getitem data "target");
    pkg ← get_sdk_of_json sdk_id "latest";
    mret (TargetPackage <$> pkg)
  else
    type ← lift (getitem data "type");
    if json_is_str "package" type then
      canonical ← lift (getitem data "target");
      pkg ← get_package_of_json canonical "latest";
      mret (TargetPackage <$> pkg)
    else
      type ← lift (getitem data "type");
      if json_is_str "integration" type then
        package ← integration_package data;
        match package with
        | Some package =>
            integration ← lift (getitem data "integration");
            mret (Some (TargetIntegration package integration))
        | None => mret None
        end
      else mret None.

Definition resolve_marketing_slug (slug : string) : M (option slug_resolution) :=
  slugs ← get_marketing_slugs;
  data ← lift (dict_get slugs slug);
  match data with
  | JNull => mret None
  | _ =>
      target ← resolve_target data;
      mret (Some {| definition := data; target := target |})
  end.

(** ** Registry.get_package_versions on a value read from a document *)

(** [get_package_versions] applied to the [canonical] of a package record,
    which need not be a string (see [get_package_of_json]). *)
Definition get_package_versions_of_json (canonical : json) : M (option (list string)) :=
  match canonical with
  | JStr s => get_package_versions s
  | JArr items => if existsb (json_is_str ":") items then raise AttributeError else mret None
  | JObj fields => if existsb (fun kv => String.eqb (fst kv) ":") fields
                   then raise AttributeError else mret None
  | _ => raise TypeError
  end.

(** ** Registry.get_packages *)

(** The keys of the dictionary [rv]: the [canonical] values of the records.
    Python hashes [True] and [False] as [1] and [0]; lists and dictionaries
    are unhashable. *)
Inductive dict_key :=
| KStr (s : string)
| KNum (n : Z)
| KNull.

#[global] Instance dict_key_eq_dec : EqDecision dict_key.
Proof. solve_decision. Defined.

#[global] Instance dict_key_countable : Countable dict_key :=
  inj_countable'
    (fun k => match k with
              | KStr s => inl (inl s)
              | KNum n => inl (inr n)
              | KNull => inr tt
              end)
    (fun x => match x with
              | inl (inl s) => KStr s
              | inl (inr n) => KNum n
              | inr _ => KNull
              end)
    (fun k => match k with KStr _ | KNum _ | KNull => eq_refl end).

Definition as_key (value : json) : result dict_key :=
  match value with
  | JStr s => Ret (KStr s)
  | JNum n => Ret (KNum n)
  | JBool b => Ret (KNum (if b then 1 else 0))
  | JNull => Ret KNull
  | JArr _ | JObj _ => Raise TypeError
  end.

(** The body of the loop of [get_packages]. *)
Definition add_package (rv : gmap dict_key PackageInfo) (package_name : string)
  : M (gmap dict_key PackageInfo) :=
  pkg ← get_package package_name "latest";
  match pkg with
  | Some pkg =>
      c ← lift (canonical pkg);
      k ← lift (as_key c);
      mret (<[k := pkg]> rv)
  | None => mret rv
  end.

(** [for package_name in self.iter_packages(): acc = body(acc, package_name)].
    The generator runs in step with the loop that consumes it: the body runs
    at every [yield], before the walk goes on. *)
Definition for_item {B} (body : B -> string -> M B) (package_registry : string)
    (acc : B) (item : string) : M B :=
  marker ← lift (_path ["packages"; package_registry; item; "__NAMESPACE__"]);
  is_namespace ← os_path_exists marker;
  match is_namespace with
  | true =>
      path ← lift (_path ["packages"; package_registry; item]);
      subitems ← os_listdir path;
      foldM (fun acc subitem => body acc (subpackage_id package_registry item subitem))
        acc subitems
  | false => body acc (package_id package_registry item)
  end.

Definition for_registry {B} (body : B -> string -> M B) (acc : B)
    (package_registry : string) : M B :=
  path ← lift (_path ["packages"; package_registry]);
  items ← os_listdir path;
  foldM (for_item body package_registry) acc items.

Definition for_iter_packages {B} (body : B -> string -> M B) (acc : B) : M B :=
  path ← lift (_path ["packages"]);
  registries ← os_listdir path;
  foldM (for_registry body) acc registries.

Definition get_packages : M (gmap dict_key PackageInfo) :=
  for_iter_packages add_package ∅.

(** ** Registry.get_apps *)

(** The body of the loop of [get_apps]. *)
Definition add_app (rv : gmap string json) (link : string) : M (gmap string json) :=
  try_except_OSError
    (app ← get_app link "latest";
     match app with
     | Some app => mret (<[link := app]> rv)
     | None => mret rv
     end)
    (mret rv).

Definition get_apps : M (gmap string json) :=
  path ← lift (_path ["apps"]);
  links ← os_listdir path;
  foldM add_app ∅ links.

(** ** RegistryJsonEncoder and RegistryFlask.make_response *)

(** The objects a view hands to [ApiResponse]: what [json.load] returned
    (with strings, lists of strings and [None]), a [PackageInfo], a
    dictionary of such objects with strings for keys ([PDict]) or with the
    keys of [get_packages] ([PKeyed]), or an object of some other class. *)
Inductive pyobj :=
| PJson (j : json)
| PPackageInfo (pkg : PackageInfo)
| PDict (fields : list (string * pyobj))
| PKeyed (fields : list (dict_key * pyobj))
| PObject.

(** [PackageInfo.to_json]. *)
Definition to_json (pkg : PackageInfo) : json := _data pkg.

Module RegistryJsonEncoder.

(** Called on the objects the encoder does not know: only [PackageInfo] has
    [to_json]; for the others [JSONEncoder.default] raises. *)
Definition default (o : pyobj) : result json :=
  match o with
  | PPackageInfo pkg => Ret (to_json pkg)
  | _ => Raise TypeError
  end.

End RegistryJsonEncoder.

(** [jsonify] sorts the items of every dictionary by key before it writes
    them (Flask's [JSON_SORT_KEYS], which the application leaves at its
    default).  Strings compare with strings and numbers with numbers; any
    other comparison of two keys raises [TypeError].  So a dictionary can be
    sorted when it has at most one key, or only strings, or only numbers. *)
Definition sortable (keys : list dict_key) : bool :=
  match keys with
  | [] | [_] => true
  | _ =>
      forallb (fun k => match k with KStr _ => true | _ => false end) keys
      || forallb (fun k => match k with KNum _ => true | _ => false end) keys
  end.

(** The name a key is written as: a string as it is, an integer in
    decimal, [None] as [null].  The dictionary of [get_packages] keeps a key
    that was [true] or [false] as the number 1 or 0 (see [as_key]), so the
    name is exact for the keys that are strings, integers or [None]; which
    keys can be sorted does not depend on it. *)
Definition key_name (k : dict_key) : string :=
  match k with
  | KStr s => s
  | KNum n => pretty n
  | KNull => "null"
  end.

(** The document [jsonify] serialises for an object, with the members of a
    dictionary in the order the dictionary has them (as a JSON object the
    sorted document is the same). *)
Fixpoint encode (o : pyobj) : result json :=
  match o with
  | PJson j => Ret j
  | PDict fields =>
      js ← (fix encode_fields (fs : list (string * pyobj)) : result (list (string * json)) :=
              match fs with
              | [] => Ret []
              | (k, v) :: rest =>
                  j ← encode v; js ← encode_fields rest; Ret ((k, j) :: js)
              end) fields;
      Ret (JObj js)
  | PKeyed fields =>
      if sortable (map fst fields) then
        js ← (fix encode_items (fs : list (dict_key * pyobj)) : result (list (string * json)) :=
                match fs with
                | [] => Ret []
                | (k, v) :: rest =>
                    j ← encode v; js ← encode_items rest; Ret ((key_name k, j) :: js)
                end) fields;
        Ret (JObj js)
      else Raise TypeError
  | _ => RegistryJsonEncoder.default o
  end.

(** What a view returns, and the response made of it. *)
Inductive view_result :=
| ApiResponse (data : pyobj)
| Plain (body : string) (status : nat).

Inductive http_response :=
| JsonResponse (body : json)
| PlainResponse (body : string) (status : nat).

Definition make_response (view : view_result) : result http_response :=
  match view with
  | ApiResponse data => body ← encode data; Ret (JsonResponse body)
  | Plain body status => Ret (PlainResponse body status)
  end.

(** ** sorted without a key *)

(** [s < t] on strings. *)
Definition str_lt (s t : string) : bool :=
  match Semver.compare_str s t with
  | Lt => true
  | _ => false
  end.

(** [sorted(xs)] for a list of strings. *)
Definition sorted_str (xs : list string) : list string :=
  map snd (stable_sort str_lt (map (fun s => (s, s)) xs)).

(** ** The views *)

Module Routes.

(** How a view ends when it does not raise: with a result, or with
    [abort(404)]. *)
Inductive outcome :=
| Response (view : view_result)
| NotFound.

(** [{'latest': latest_pkg_info, 'versions': versions}]. *)
Definition versions_data (latest : PackageInfo) (versions : option (list string)) : pyobj :=
  PDict [("latest", PPackageInfo latest);
         ("versions", PJson match versions with
                            | Some versions => JArr (map JStr versions)
                            | None => JNull
                            end)].

(** [{'definition': data, 'target': target}]. *)
Definition resolution_data (rv : slug_resolution) : pyobj :=
  PDict [("definition", PJson (definition rv));
         ("target", match target rv with
                    | None => PJson JNull
                    | Some (TargetPackage package) => PPackageInfo package
                    | Some (TargetIntegration package integration) =>
                        PDict [("package", PPackageInfo package);
                               ("integration", PJson integration)]
                    end)].

Definition get_package_version (package version : string) : M outcome :=
  pkg_info ← get_package package version;
  match pkg_info with
  | None => mret NotFound
  | Some pkg_info => mret (Response (ApiResponse (PPackageInfo pkg_info)))
  end.

Definition get_package_versions (package : string) : M outcome :=
  latest_pkg_info ← get_package package "latest";
  match latest_pkg_info with
  | None => mret NotFound
  | Some latest_pkg_info =>
      versions ← get_package_versions package;
      mret (Response (ApiResponse (versions_data latest_pkg_info versions)))
  end.

Definition get_marketing_slugs : M outcome :=
  slugs ← get_marketing_slugs;
  match slugs with
  | JObj fields =>
      mret (Response (ApiResponse
                        (PDict [("slugs", PJson (JArr (map JStr (sorted_str (map fst fields)))))])))
  | _ => raise AttributeError
  end.

Definition resolve_marketing_slugs (slug : string) : M outcome :=
  rv ← resolve_marketing_slug slug;
  match rv with
  | None => mret NotFound
  | Some rv => mret (Response (ApiResponse (resolution_data rv)))
  end.

Definition get_sdk_summary : M outcome :=
  sdks ← get_sdks;
  mret (Response (ApiResponse
                    (PDict (map (fun kv => (fst kv, PPackageInfo (snd kv))) (map_to_list sdks))))).

Definition get_sdk_version (sdk_id version : string) : M outcome :=
  pkg_info ← get_sdk sdk_id version;
  match pkg_info with
  | None => mret NotFound
  | Some pkg_info => mret (Response (ApiResponse (PPackageInfo pkg_info)))
  end.

Definition get_sdk_versions (sdk_id : string) : M outcome :=
  latest_pkg_info ← get_sdk sdk_id "latest";
  match latest_pkg_info with
  | None => mret NotFound
  | Some latest_pkg_info =>
      c ← lift (canonical latest_pkg_info);
      versions ← get_package_versions_of_json c;
      mret (Response (ApiResponse (versions_data latest_pkg_info versions)))
  end.

Definition get_package_summary : M outcome :=
  packages ← get_packages;
  mret (Response (ApiResponse
                    (PKeyed (map (fun kv => (fst kv, PPackageInfo (snd kv)))
                                 (map_to_list packages))))).

Definition get_app_summary : M outcome :=
  apps ← get_apps;
  mret (Response (ApiResponse
                    (PDict (map (fun kv => (fst kv, PJson (snd kv))) (map_to_list apps))))).

Definition get_app_version (app_id version : string) : M outcome :=
  app_info ← get_app app_id version;
  match app_info with
  | None => mret NotFound
  | Some app_info => mret (Response (ApiResponse (PJson app_info)))
  end.

(** The body ["ok\n"] with status 200. *)
Definition healthcheck : view_result :=
  Plain (String "o" (String "k" (String "010"%char EmptyString))) 200.

End Routes.

(** ** is_caching_enabled *)

(** The white space [str.strip] removes.  A string here is the UTF-8
    encoding of the Python string, so a white-space character is one byte
    (the ASCII ones: tab to carriage return, the four separators and the
    space), two bytes (U+0085, U+00A0) or three (U+1680, U+2000 to U+200A,
    U+2028, U+2029, U+202F, U+205F, U+3000). *)
Definition is_space (a : ascii) : bool :=
  let n := N_of_ascii a in
  ((9 <=? n)%N && (n <=? 13)%N) || ((28 <=? n)%N && (n <=? 32)%N).

Definition is_space2 (a b : ascii) : bool :=
  (N_of_ascii a =? 194)%N && ((N_of_ascii b =? 133)%N || (N_of_ascii b =? 160)%N).

Definition is_space3 (a b c : ascii) : bool :=
  ((N_of_ascii a =? 225)%N && (N_of_ascii b =? 154)%N && (N_of_ascii c =? 128)%N)
  || ((N_of_ascii a =? 226)%N && (N_of_ascii b =? 128)%N
      && (((128 <=? N_of_ascii c)%N && (N_of_ascii c <=? 138)%N)
          || (N_of_ascii c =? 168)%N || (N_of_ascii c =? 169)%N || (N_of_ascii c =? 175)%N))
  || ((N_of_ascii a =? 226)%N && (N_of_ascii b =? 129)%N && (N_of_ascii c =? 159)%N)
  || ((N_of_ascii a =? 227)%N && (N_of_ascii b =? 128)%N && (N_of_ascii c =? 128)%N).

(** [s.lstrip()]: the string from its first character that is not white
    space. *)
Fixpoint lstrip (s : string) : string :=
  match s with
  | EmptyString => EmptyString
  | String a s1 =>
      if is_space a then lstrip s1
      else match s1 with
           | EmptyString => s
           | String b s2 =>
               if is_space2 a b then lstrip s2
               else match s2 with
                    | EmptyString => s
                    | String c s3 => if is_space3 a b c then lstrip s3 else s
                    end
           end
  end.

(** [s.rstrip()]: the string up to where only white space follows. *)
Fixpoint rstrip (s : string) : string :=
  match s with
  | EmptyString => EmptyString
  | String a s' =>
      match lstrip s with
      | EmptyString => EmptyString
      | _ => String a (rstrip s')
      end
  end.

(** [s.strip()]. *)
Definition strip (s : string) : string := rstrip (lstrip s).

(** [os.getenv(name, default)] in the environment [environ]. *)
Definition getenv (environ : gmap string string) (name : string) (fallback : option string)
  : option string :=
  match environ !! name with
  | Some value => Some value
  | None => fallback
  end.

Definition is_caching_enabled (environ : gmap string string) : bool :=
  let cache_env :=
    strip (match getenv environ "REGISTRY_ENABLE_CACHE" (Some EmptyString) with
           | Some value => value
           | None => EmptyString
           end) in
  if String.eqb cache_env "1" then true
  else if String.eqb cache_env "0" then false
  else match getenv environ "FLASK_ENV" None with
       | Some value => String.eqb value "production"
       | None => false
       end.

(** ** set_cache_enabled *)

(** The functions registered to run before and after a request. *)
Inductive hook :=
| return_cached
| cache_response
| other_hook (name : string).

#[global] Instance hook_eq_dec : EqDecision hook.
Proof. solve_decision. Defined.

(** The part of the Flask application that [set_cache_enabled] touches: the
    configuration key [CACHE_ENABLED] and the two dictionaries of hooks,
    keyed by blueprint ([None] for the whole application). *)
Record flask_app := {
  CACHE_ENABLED : option bool;
  before_request_funcs : gmap (option string) (list hook);
  after_request_funcs : gmap (option string) (list hook)
}.

(** [funcs.setdefault(None, []).append(f)]. *)
Definition register (f : hook) (funcs : gmap (option string) (list hook))
  : gmap (option string) (list hook) :=
  <[None := (match funcs !! None with Some fs => fs | None => [] end ++ [f])%list]> funcs.

(** [app.before_request(f)] and [app.after_request(f)]. *)
Definition before_request (f : hook) (app : flask_app) : flask_app :=
  {| CACHE_ENABLED := CACHE_ENABLED app;
     before_request_funcs := register f (before_request_funcs app);
     after_request_funcs := after_request_funcs app |}.

Definition after_request (f : hook) (app : flask_app) : flask_app :=
  {| CACHE_ENABLED := CACHE_ENABLED app;
     before_request_funcs := before_request_funcs app;
     after_request_funcs := register f (after_request_funcs app) |}.

Definition set_cache_enabled (app : flask_app) (enable : bool) : flask_app :=
  let app := {| CACHE_ENABLED := Some enable;
                before_request_funcs := before_request_funcs app;
                after_request_funcs := after_request_funcs app |} in
  if enable then after_request cache_response (before_request return_cached app)
  else {| CACHE_ENABLED := CACHE_ENABLED app;
          before_request_funcs := ∅;
          after_request_funcs := ∅ |}.

(** * Vocabulary of the statements *)

(** A name a directory entry can have: one proper path component. *)
Definition is_entry_name (name : string) : bool :=
  negb (String.eqb name EmptyString) && negb (String.eqb name ".")
  && negb (String.eqb name "..") && negb (Str.contains "/" name).

Definition proper_component (component : string) : Prop :=
  component <> "." /\ component <> ".." /\ component <> EmptyString.

(** The validation rule in the words of the specification: a segment is
    invalid if it is empty, equals [.], equals [..], or, after splitting on
    the slash, contains any component that is empty, [.] or [..]. *)
Definition invalid_segment (segment : string) : Prop :=
  segment = EmptyString \/ segment = "." \/ segment = ".." \/
  exists component, component ∈ Str.split "/" segment /\
    (component = EmptyString \/ component = "." \/ component = "..").

(** The path an access is made at. *)
Definition access_path (a : access) : string :=
  match a with
  | Open path | Listdir path | Stat path => path
  end.

(** An access whose path has proper components only. *)
Definition safe_access (a : access) : Prop :=
  Forall proper_component (Str.split "/" (access_path a)).

(** A method all of whose filesystem accesses are safe, on every tree. *)
Definition safe {A} (m : M A) : Prop :=
  forall root, Forall safe_access (snd (m root)).

(** What opening and loading the file at [path] gives inside
    [try ... except (IOError, OSError): return]. *)
Definition load_or_None (root : node) (path : string) : result (option json) :=
  match lookup_path root path with
  | Ret (File (Json doc)) => Ret (Some doc)
  | Ret (File Garbage) => Raise JSONDecodeError
  | Ret (File Binary) => Raise UnicodeDecodeError
  | _ => Ret None
  end.

(** The tree in which the entry [name] of the directory reached by [dir] is
    created, replaced or removed as [change] says; everything else is kept. *)
Fixpoint change_entry (dir : list string) (name : string)
    (change : option node -> option node) (cur : node) : node :=
  match cur with
  | Dir entries =>
      match dir with
      | [] => Dir (partial_alter change name entries)
      | d :: dir' => Dir (alter (change_entry dir' name change) d entries)
      end
  | _ => cur
  end.

(** The versions stored in the [*.json] files among [names]. *)
Definition stored_in (entries : gmap string node) (names : list string) (v : string) : Prop :=
  exists filename doc,
    filename ∈ names /\ Str.endswith filename ".json" = true /\
    entries !! filename = Some (File (Json doc)) /\
    getitem doc "version" = Ret (JStr v).

(** The versions stored in the [*.json] files of a package directory. *)
Definition stored_version (entries : gmap string node) (v : string) : Prop :=
  exists filename doc,
    entries !! filename = Some (File (Json doc)) /\
    Str.endswith filename ".json" = true /\
    getitem doc "version" = Ret (JStr v).

(** Precedence on version strings. *)
Definition version_lt (a b : string) : bool :=
  match Semver.parse a, Semver.parse b with
  | Some v, Some w => Semver.lt v w
  | _, _ => false
  end.

(** Two versions with the same numbers and the same pre-release: neither
    precedes the other, they differ in build metadata or in a final line
    feed only. *)
Definition same_precedence (a b : string) : Prop :=
  exists v w, Semver.parse a = Some v /\ Semver.parse b = Some w /\
    Semver.major v = Semver.major w /\ Semver.minor v = Semver.minor w /\
    Semver.patch v = Semver.patch w /\ Semver.prerelease v = Semver.prerelease w.

(** The names [os.listdir] gives for a directory. *)
Definition names (entries : gmap string node) : list string :=
  map fst (map_to_list entries).

(** Whether the entry is a directory that holds the marker file. *)
Definition has_marker (n : node) : bool :=
  match n with
  | Dir children =>
      match children !! "__NAMESPACE__" with
      | Some _ => true
      | None => false
      end
  | _ => false
  end.

(** The children of an entry that is a directory. *)
Definition children_of (n : node) : list string :=
  match n with
  | Dir children => names children
  | _ => []
  end.

(** The identifiers of one entry [item] of the registry [package_registry]:
    one per child when the entry holds the marker, the entry's own
    identifier otherwise. *)
Definition item_ids (package_registry item : string) (n : node) : list string :=
  if has_marker n then map (subpackage_id package_registry item) (children_of n)
  else [package_id package_registry item].

Definition registry_ids (package_registry : string) (n : node) : list string :=
  match n with
  | Dir items =>
      names items ≫= fun item =>
        match items !! item with
        | Some n' => item_ids package_registry item n'
        | None => []
        end
  | _ => []
  end.

Definition packages_ids (registries : gmap string node) : list string :=
  names registries ≫= fun package_registry =>
    match registries !! package_registry with
    | Some n => registry_ids package_registry n
    | None => []
    end.

(** The packages tree the walk expects: registries are directories, no
    registry name has a colon, and names are single path components. *)
Definition well_formed_packages (registries : gmap string node) : Prop :=
  forall package_registry n,
    registries !! package_registry = Some n ->
    is_entry_name package_registry = true /\
    Str.contains ":" package_registry = false /\
    exists items, n = Dir items /\
      forall item, is_Some (items !! item) -> is_entry_name item = true.

(** The string a definition stores under [key], if any. *)
Definition field_str (data : json) (key : string) : option string :=
  match data with
  | JObj fields =>
      match assoc key fields with
      | Some (JStr s) => Some s
      | _ => None
      end
  | _ => None
  end.

(** What a slug definition refers to. *)
Inductive reference :=
| RefSdk (sdk_id : string)
| RefPackage (canonical : string)
| RefNone.

(** The reference of a definition in the words of the specification: type
    [sdk] refers to the SDK named by [target]; type [package] to the package
    whose canonical identifier is [target]; type [integration] to the SDK
    [sdk] if present, else to the package [package] if present, else to
    nothing. *)
Definition referenced (data : json) : reference :=
  match field_str data "type" with
  | Some ty =>
      if String.eqb ty "sdk" then
        match field_str data "target" with Some t => RefSdk t | None => RefNone end
      else if String.eqb ty "package" then
        match field_str data "target" with Some t => RefPackage t | None => RefNone end
      else if String.eqb ty "integration" then
        match field_str data "sdk" with
        | Some s => RefSdk s
        | None =>
            match field_str data "package" with
            | Some c => RefPackage c
            | None => RefNone
            end
        end
      else RefNone
  | None => RefNone
  end.

(** Resolution of the reference at the latest version. *)
Definition resolve_reference (ref : reference) : M (option PackageInfo) :=
  match ref with
  | RefSdk sdk_id => get_sdk sdk_id "latest"
  | RefPackage canonical => get_package canonical "latest"
  | RefNone => mret None
  end.

(** The target built from a resolved package: the package itself, or for
    an integration the package with the integration label. *)
Definition wrap_target (data : json) (pkg : PackageInfo) : slug_target :=
  match field_str data "type", getitem data "integration" with
  | Some ty, Ret label =>
      if String.eqb ty "integration" then TargetIntegration pkg label else TargetPackage pkg
  | _, _ => TargetPackage pkg
  end.

(** An optional name in a definition: missing, [null], or a non-empty
    string. *)
Definition optional_name (o : option json) : bool :=
  match o with
  | None | Some JNull => true
  | Some (JStr s) => negb (String.eqb s EmptyString)
  | Some _ => false
  end.

(** The definitions of the data model: an object with a string [type]; a
    string [target] for the types [sdk] and [package]; for the type
    [integration] an [integration] label and optional [sdk] and [package]
    names. *)
Definition well_formed_definition (data : json) : bool :=
  match data with
  | JObj fields =>
      match assoc "type" fields with
      | Some (JStr ty) =>
          if String.eqb ty "sdk" || String.eqb ty "package" then
            match assoc "target" fields with
            | Some (JStr _) => true
            | _ => false
            end
          else if String.eqb ty "integration" then
            match assoc "integration" fields with
            | Some _ => true
            | None => false
            end
            && optional_name (assoc "sdk" fields)
            && optional_name (assoc "package" fields)
          else true
      | _ => false
      end
  | _ => false
  end.

(** The key [get_packages] files a record under: its [canonical] value. *)
Definition record_key (pkg : PackageInfo) : result dict_key :=
  c ← canonical pkg; as_key c.

(** The member of the set of versions a [version] value becomes. *)
Definition member_of (value : json) : member :=
  match value with
  | JStr s => Text s
  | _ => NotText
  end.

(** A view's outcome that the application can answer: [abort(404)], or a
    result of which [make_response] makes a response. *)
Definition responds (o : Routes.outcome) : Prop :=
  match o with
  | Routes.Response view => exists response, make_response view = Ret response
  | Routes.NotFound => True
  end.

(** ** Example trees *)

(** A version record as the publisher writes it. *)
Definition package_record (canonical version : string) : node :=
  File (Json (JObj [("canonical", JStr canonical); ("version", JStr version)])).

(** A tree with the single package [npm:left-pad] and the given files. *)
Definition left_pad_tree (files : list (string * node)) : node :=
  Dir {["packages" := Dir {["npm" := Dir {["left-pad" := Dir (list_to_map files)]}]}]}.

Definition left_pad_files : list (string * node) :=
  [("1.0.0.json", package_record "npm:left-pad" "1.0.0");
   ("1.2.0.json", package_record "npm:left-pad" "1.2.0");
   ("1.1.0.json", package_record "npm:left-pad" "1.1.0")].

(** The tree of the specification's example: [packages/python/sentry-sdk]
    holds the marker file and the child [flask]. *)
Definition sentry_sdk_tree : node :=
  Dir {["packages" :=
    Dir {["python" :=
      Dir {["sentry-sdk" :=
        Dir (list_to_map
               [("__NAMESPACE__", File Garbage);
                ("flask", Dir {["1.0.0.json" := package_record "python:sentry-sdk/flask" "1.0.0"]})])]}]}]}.

(** A tree with the SDK links [react], which points at the package
    [npm:react], and [orphan], which has no link file; and the same tree with
    a third link whose file is not JSON. *)
Definition react_link : node :=
  Dir {["latest.json" := File (Json (JObj [("canonical", JStr "npm:react")]))]}.

Definition react_packages : node :=
  Dir {["npm" := Dir {["react" := Dir {["latest.json" := package_record "npm:react" "16.0.0"]}]}]}.

Definition sdk_tree : node :=
  Dir (list_to_map
         [("packages", react_packages);
          ("sdks", Dir (list_to_map [("react", react_link); ("orphan", Dir ∅)]))]).

Definition broken_sdk_tree : node :=
  Dir (list_to_map
         [("packages", react_packages);
          ("sdks", Dir (list_to_map
                          [("react", react_link); ("orphan", Dir ∅);
                           ("broken", Dir {["latest.json" := File Garbage]})]))]).

(** A tree with the slugs [react] (an SDK that resolves), [gone] (an SDK
    without link) and [bad] (a package whose identifier has an empty
    package part). *)
Definition slugs_document : json :=
  JObj [("react", JObj [("type", JStr "sdk"); ("target", JStr "react")]);
        ("gone", JObj [("type", JStr "sdk"); ("target", JStr "missing-sdk")]);
        ("bad", JObj [("type", JStr "package"); ("target", JStr "npm:")])].

Definition slug_tree : node :=
  Dir (list_to_map
         [("packages", react_packages);
          ("sdks", Dir {["react" := react_link]});
          ("misc", Dir {["marketing-slugs.json" := File (Json slugs_document)]})]).

(** A tree with the apps [sentry-cli], whose latest document is a record,
    [empty], whose latest document is [null], and [bare], which has no
    file; and the same tree with a fourth app whose file is not JSON. *)
Definition app_record : json := JObj [("name", JStr "sentry-cli"); ("version", JStr "1.0.0")].

Definition app_links : list (string * node) :=
  [("sentry-cli", Dir {["latest.json" := File (Json app_record)]});
   ("empty", Dir {["latest.json" := File (Json JNull)]});
   ("bare", Dir ∅)].

Definition app_tree : node := Dir {["apps" := Dir (list_to_map app_links)]}.

Definition broken_app_tree : node :=
  Dir {["apps" := Dir (list_to_map (("broken", Dir {["latest.json" := File Garbage]}) :: app_links))]}.

(** A packages tree in which two directories hold a record with the same
    canonical identifier. *)
Definition aliased_packages_tree : node :=
  Dir {["packages" :=
    Dir {["npm" :=
      Dir (list_to_map
             [("react", Dir {["latest.json" := package_record "npm:react" "16.0.0"]});
              ("react-old", Dir {["latest.json" := package_record "npm:react" "15.0.0"]});
              ("bare", Dir ∅)])]}]}.

(** A tree in which the SDK link [react] points at the package [npm:react],
    whose latest record names itself [react], without a registry. *)
Definition renamed_record : json := JObj [("canonical", JStr "react"); ("version", JStr "16.0.0")].

Definition renamed_sdk_tree : node :=
  Dir (list_to_map
         [("packages",
           Dir {["npm" := Dir {["react" := Dir {["latest.json" := File (Json renamed_record)]}]}]});
          ("sdks", Dir {["react" := react_link]})]).

(** A packages tree in which one latest record has a string for
    [canonical] and another a number. *)
Definition numbered_record : json := JObj [("canonical", JNum 7); ("version", JStr "1.0.0")].

Definition mixed_keys_tree : node :=
  Dir {["packages" :=
    Dir {["npm" :=
      Dir (list_to_map
             [("react", Dir {["latest.json" := package_record "npm:react" "16.0.0"]});
              ("seven", Dir {["latest.json" := File (Json numbered_record)]})])]}]}.

(** * Properties *)

(** ** Strings *)

Lemma split_not_nil sep s : Str.split sep s <> [].
Proof.
  destruct s as [|a s]; simpl; [discriminate|].
  destruct (Ascii.eqb a sep); [discriminate|].
  destruct (Str.split sep s); discriminate.
Qed.

(** Splitting distributes over a separator in the middle. *)
Lemma split_app sep s t :
  Str.split sep (s ++ String sep t) = (Str.split sep s ++ Str.split sep t)%list.
Proof.
  induction s as [|a s IH]; simpl.
  - by rewrite Ascii.eqb_refl.
  - destruct (Ascii.eqb a sep); [by rewrite IH|].
    rewrite IH. pose proof (split_not_nil sep s) as Hne.
    destruct (Str.split sep s); [done|reflexivity].
Qed.

Lemma split_no_sep sep s : Str.contains sep s = false -> Str.split sep s = [s].
Proof.
  induction s as [|a s IH]; simpl; [done|].
  intros [Ha Hs]%orb_false_iff. rewrite Ha, (IH Hs). reflexivity.
Qed.

(** The pieces of a piece-wise joined path are the pieces of its parts. *)
Lemma split_join (args : list string) :
  args <> [] ->
  Str.split "/" (Str.join "/" args) = concat (map (Str.split "/") args).
Proof.
  induction args as [|a args IH]; [done|]. intros _.
  destruct args as [|b args].
  - simpl. by rewrite app_nil_r.
  - change (Str.join "/" (a :: b :: args)) with (a ++ String "/" (Str.join "/" (b :: args))).
    rewrite split_app, IH by done. reflexivity.
Qed.

Lemma split_once_None sep s :
  Str.split_once sep s = None <-> Str.contains sep s = false.
Proof.
  induction s as [|a s IH]; simpl; [done|].
  destruct (Ascii.eqb a sep); simpl; [split; discriminate|].
  destruct (Str.split_once sep s) as [[before after]|]; [|tauto].
  split; [discriminate|]. intros H. apply IH in H. discriminate.
Qed.

(** [split_once] cuts at the first separator. *)
Lemma split_once_Some sep s before after :
  Str.split_once sep s = Some (before, after) <->
  s = before ++ String sep after /\ Str.contains sep before = false.
Proof.
  revert before. induction s as [|a s IH]; intros before; simpl.
  - split; [discriminate|]. intros [H _]. by destruct before.
  - destruct (Ascii.eqb_spec a sep) as [->|Hne].
    + split.
      * intros [= <- <-]. done.
      * intros [H Hc]. destruct before as [|b before]; simpl in *.
        -- by injection H as ->.
        -- injection H as <- _. by rewrite Ascii.eqb_refl in Hc.
    + split.
      * remember (Str.split_once sep s) as o eqn:E in |- *.
        destruct o as [[b' a']|]; [|discriminate].
        intros [= <- <-]. symmetry in E. apply IH in E as [-> Hc]. simpl.
        split; [done|]. apply orb_false_iff. split; [|done].
        by apply Ascii.eqb_neq.
      * intros [H Hc]. destruct before as [|b before]; simpl in *.
        -- injection H as -> _. done.
        -- injection H as <- ->. apply orb_false_iff in Hc as [_ Hc].
           assert (Str.split_once sep (before ++ String sep after) = Some (before, after)) as ->
             by (by apply IH).
           done.
Qed.

(** ** The monad *)

Lemma bind_run {A B} (m : M A) (k : A -> M B) root :
  (m ≫= k) root =
  match m root with
  | (Ret a, log) => (fst (k a root), (log ++ snd (k a root))%list)
  | (Raise e, log) => (Raise e, log)
  end.
Proof.
  unfold mbind, M_bind. destruct (m root) as [[a|e] log]; [|done].
  by destruct (k a root).
Qed.

Lemma bind_lift_Ret {A B} (a : A) (k : A -> M B) root :
  (lift (Ret a) ≫= k) root = k a root.
Proof. rewrite bind_run. simpl. by destruct (k a root). Qed.

Lemma bind_lift_Raise {A B} e (k : A -> M B) root :
  (lift (Raise e) ≫= k) root = (Raise e, []).
Proof. by rewrite bind_run. Qed.


(** ** Path validation *)

Lemma validate_items_Ret items :
  validate_items items = Ret tt <-> Forall proper_component items.
Proof.
  induction items as [|c items IH]; simpl; [by split; [constructor|]|].
  destruct (String.eqb_spec c ".") as [->|H1]; simpl.
  { split; [discriminate|]. intros [[? _] _]%Forall_cons. done. }
  destruct (String.eqb_spec c "..") as [->|H2]; simpl.
  { split; [discriminate|]. intros [[_ [? _]] _]%Forall_cons. done. }
  destruct (String.eqb_spec c EmptyString) as [->|H3]; simpl.
  { split; [discriminate|]. intros [[_ [_ ?]] _]%Forall_cons. done. }
  rewrite IH, Forall_cons. unfold proper_component. tauto.
Qed.

Lemma validate_items_cases items :
  validate_items items = Ret tt \/ validate_items items = Raise InvalidPathComponent.
Proof.
  induction items as [|c items IH]; simpl; [by left|].
  destruct (_ || _); [by right|done].
Qed.

Lemma validate_path_component_cases path :
  validate_path_component path = Ret tt \/
  validate_path_component path = Raise InvalidPathComponent.
Proof.
  unfold validate_path_component. destruct (String.eqb path EmptyString); [by right|].
  apply validate_items_cases.
Qed.

Lemma validate_path_component_Ret path :
  validate_path_component path = Ret tt <->
  Forall proper_component (Str.split "/" path).
Proof.
  unfold validate_path_component. destruct (String.eqb_spec path EmptyString) as [->|Hne].
  - split; [discriminate|]. simpl. intros [[_ [_ ?]] _]%Forall_cons. done.
  - apply validate_items_Ret.
Qed.

(** The code rejects exactly the segments the specification calls invalid. *)
Lemma validate_path_component_Raise path :
  validate_path_component path = Raise InvalidPathComponent <-> invalid_segment path.
Proof.
  split.
  - intros Hraise.
    assert (~ Forall proper_component (Str.split "/" path)) as Hnot.
    { rewrite <- validate_path_component_Ret. by rewrite Hraise. }
    apply not_Forall_Exists in Hnot; [|intros c; unfold proper_component; solve_decision].
    apply Exists_exists in Hnot as (c & Hin & Hc).
    right; right; right. exists c. split; [done|].
    unfold proper_component in Hc.
    destruct (decide (c = EmptyString)); [by left|].
    destruct (decide (c = ".")); [by right; left|].
    destruct (decide (c = "..")); [by right; right|]. by destruct Hc.
  - intros Hinv.
    destruct (validate_path_component_cases path) as [Hok|]; [|done].
    apply validate_path_component_Ret in Hok.
    destruct Hinv as [->|[->|[->|(c & Hin & Hc)]]].
    + simpl in Hok. apply Forall_cons in Hok as [[_ [_ ?]] _]. done.
    + simpl in Hok. apply Forall_cons in Hok as [[? _] _]. done.
    + simpl in Hok. apply Forall_cons in Hok as [[_ [? _]] _]. done.
    + rewrite Forall_forall in Hok. specialize (Hok c Hin).
      unfold proper_component in Hok. intuition.
Qed.

Lemma validate_path_component_entry_name name :
  is_entry_name name = true -> validate_path_component name = Ret tt.
Proof.
  unfold is_entry_name. rewrite !andb_true_iff, !negb_true_iff.
  intros [[[H0 H1] H2] Hs].
  apply validate_path_component_Ret. rewrite (split_no_sep _ _ Hs).
  apply Forall_singleton. unfold proper_component.
  apply String.eqb_neq in H0, H1, H2. done.
Qed.

Lemma validate_args_cases args :
  validate_args args = Ret tt \/ validate_args args = Raise InvalidPathComponent.
Proof.
  induction args as [|a args IH]; simpl; [by left|].
  destruct (validate_path_component_cases a) as [-> | ->]; simpl; [done|by right].
Qed.

Lemma validate_args_Ret args :
  validate_args args = Ret tt <->
  Forall (fun arg => validate_path_component arg = Ret tt) args.
Proof.
  induction args as [|a args IH]; simpl; [by split; [constructor|]|].
  rewrite Forall_cons, <- IH.
  destruct (validate_path_component_cases a) as [-> | ->]; simpl.
  - tauto.
  - split; [discriminate|]. intros [? _]. discriminate.
Qed.

Lemma _path_Ret args :
  Forall (fun arg => validate_path_component arg = Ret tt) args ->
  _path args = Ret (os_path_join args).
Proof. intros H. unfold _path. apply validate_args_Ret in H. by rewrite H. Qed.

Lemma _path_Raise args segment :
  segment ∈ args -> invalid_segment segment ->
  _path args = Raise InvalidPathComponent.
Proof.
  intros Hin Hinv. unfold _path.
  destruct (validate_args_cases args) as [Hok | ->]; [|done].
  apply validate_args_Ret in Hok. rewrite Forall_forall in Hok.
  specialize (Hok _ Hin). apply validate_path_component_Raise in Hinv. congruence.
Qed.

Lemma _path_cases args :
  _path args = Ret (os_path_join args) \/ _path args = Raise InvalidPathComponent.
Proof.
  unfold _path. destruct (validate_args_cases args) as [-> | ->]; [by left|by right].
Qed.

(** The components of a validated path are proper names: the filesystem
    is never asked for an empty, [.] or [..] component. *)
Lemma _path_components_proper args path :
  args <> [] -> _path args = Ret path ->
  Forall proper_component (Str.split "/" path).
Proof.
  intros Hne H. unfold _path in H.
  destruct (validate_args_cases args) as [Hok | Hr]; rewrite ?Hok, ?Hr in H; [|done].
  injection H as <-. unfold os_path_join. rewrite split_join by done.
  apply validate_args_Ret in Hok. clear Hne.
  induction Hok as [|a args Ha _ IH]; simpl; [constructor|].
  apply Forall_app. split; [|done]. by apply validate_path_component_Ret.
Qed.

(** ** Filesystem primitives *)

(** Resolving a path fails with a filesystem error only. *)
Lemma walk_Raise components cur e :
  walk components cur = Raise e -> is_OSError e = true.
Proof.
  revert cur. induction components as [|name rest IH]; intros cur; simpl; [discriminate|].
  destruct cur as [c|entries|]; [by intros [= <-]| |by intros [= <-]].
  destruct (entries !! name) as [child|]; [apply IH|by intros [= <-]].
Qed.

Lemma try_open_json_load {A} path (k : json -> M (option A)) root :
  try_except_OSError (open_json_load path ≫= k) (mret None) root =
  match load_or_None root path with
  | Ret (Some doc) =>
      match k doc root with
      | (Raise e, log) => if is_OSError e then (Ret None, Open path :: log) else (Raise e, Open path :: log)
      | (r, log) => (r, Open path :: log)
      end
  | Ret None => (Ret None, [Open path])
  | Raise e => (Raise e, [Open path])
  end.
Proof.
  unfold try_except_OSError, load_or_None. rewrite bind_run. unfold open_json_load.
  destruct (lookup_path root path) as [[[doc| |]|entries|]|e] eqn:E; simpl; try done.
  - destruct (k doc root) as [[a|e] log]; simpl; [done|].
    destruct (is_OSError e); simpl; [|done]. by rewrite app_nil_r.
  - unfold lookup_path in E. apply walk_Raise in E. by rewrite E.
Qed.

(** ** get_package *)

(** The whole behaviour of [get_package] on an identifier with a colon. *)
Lemma get_package_split canonical registry package version root :
  Str.split_once ":" canonical = Some (registry, package) ->
  get_package canonical version root =
  match _path ["packages"; registry; package; json_filename version] with
  | Ret path =>
      (match load_or_None root path with
       | Ret (Some doc) => Ret (Some {| _data := doc |})
       | Ret None => Ret None
       | Raise e => Raise e
       end, [Open path])
  | Raise e => (Raise e, [])
  end.
Proof.
  intros Hsplit. unfold get_package. rewrite Hsplit.
  destruct (_path_cases ["packages"; registry; package; json_filename version]) as [-> | ->].
  - unfold try_except_OSError at 1. rewrite bind_lift_Ret.
    pose proof (try_open_json_load (os_path_join ["packages"; registry; package; json_filename version])
                  (fun doc => mret (Some {| _data := doc |})) root) as H.
    unfold try_except_OSError in H at 1. rewrite H.
    by destruct (load_or_None root _) as [[doc|]|e].
  - unfold try_except_OSError. by rewrite bind_lift_Raise.
Qed.

Lemma get_package_no_colon canonical version root :
  Str.contains ":" canonical = false ->
  get_package canonical version root = (Ret None, []).
Proof. intros H. apply split_once_None in H. unfold get_package. by rewrite H. Qed.

(** [get_package] never lets a filesystem error out. *)
Lemma get_package_no_OSError canonical version root e :
  run (get_package canonical version) root = Raise e -> is_OSError e = false.
Proof.
  unfold run. destruct (Str.split_once ":" canonical) as [[registry package]|] eqn:Hsplit.
  - rewrite (get_package_split _ _ _ _ _ Hsplit).
    destruct (_path_cases ["packages"; registry; package; json_filename version]) as [-> | ->];
      simpl; [|by intros [= <-]].
    unfold load_or_None.
    destruct (lookup_path root _) as [[[doc| |]|entries|]|e']; simpl; try done;
      by intros [= <-].
  - apply split_once_None in Hsplit. by rewrite get_package_no_colon.
Qed.

(** ** get_package_versions *)

Lemma get_package_versions_no_colon canonical root :
  Str.contains ":" canonical = false ->
  get_package_versions canonical root = (Ret None, []).
Proof. intros H. apply split_once_None in H. unfold get_package_versions. by rewrite H. Qed.

Lemma get_package_versions_split canonical registry package root :
  Str.split_once ":" canonical = Some (registry, package) ->
  get_package_versions canonical root =
  (rv ← collect_versions registry package;
   versions ← lift (sorted_by_version rv);
   mret (Some versions)) root.
Proof. intros H. unfold get_package_versions. by rewrite H. Qed.

(** An invalid registry or package name is rejected before the directory
    is listed. *)
Lemma collect_versions_invalid registry package segment root :
  segment ∈ [registry; package] -> invalid_segment segment ->
  collect_versions registry package root = (Raise InvalidPathComponent, []).
Proof.
  intros Hin Hinv. unfold collect_versions.
  rewrite (_path_Raise ["packages"; registry; package] segment); [|by apply list_elem_of_further|done].
  by rewrite bind_lift_Raise.
Qed.

(** A failure to list the package directory goes to the caller. *)
Lemma collect_versions_listdir_fails registry package path root e :
  _path ["packages"; registry; package] = Ret path ->
  run (os_listdir path) root = Raise e ->
  collect_versions registry package root = (Raise e, [Listdir path]).
Proof.
  intros Hpath Hlist. unfold collect_versions. rewrite Hpath, bind_lift_Ret, bind_run.
  unfold run in Hlist. destruct (os_listdir path root) as [r log] eqn:E.
  simpl in Hlist. subst r. unfold os_listdir in E. by injection E as _ <-.
Qed.

(** ** get_sdk and get_app *)



(** ** Every access is at a validated path *)

Lemma safe_mret {A} (a : A) : safe (mret a).
Proof. intros root. constructor. Qed.

Lemma safe_raise {A} e : safe (raise (A := A) e).
Proof. intros root. constructor. Qed.

Lemma safe_lift {A} (r : result A) : safe (lift r).
Proof. intros root. constructor. Qed.

Lemma safe_bind {A B} (m : M A) (k : A -> M B) :
  safe m -> (forall a, safe (k a)) -> safe (m ≫= k).
Proof.
  intros Hm Hk root. rewrite bind_run. specialize (Hm root).
  destruct (m root) as [[a|e] log]; simpl in *; [|done].
  apply Forall_app. split; [done|apply Hk].
Qed.

Lemma safe_try_except {A} (body handler : M A) :
  safe body -> safe handler -> safe (try_except_OSError body handler).
Proof.
  intros Hbody Hhandler root. unfold try_except_OSError. specialize (Hbody root).
  destruct (body root) as [[a|e] log]; simpl in *; [done|].
  destruct (is_OSError e); [|done]. specialize (Hhandler root).
  destruct (handler root) as [r log']. simpl in *. apply Forall_app. by split.
Qed.

Lemma safe_foldM {A B} (step : B -> A -> M B) acc xs :
  (forall acc x, safe (step acc x)) -> safe (foldM step acc xs).
Proof.
  intros Hstep. revert acc. induction xs as [|x xs IH]; intros acc; simpl.
  - apply safe_mret.
  - apply safe_bind; [apply Hstep|apply IH].
Qed.

Lemma safe_for_yield {A B} (xs : list A) (body : A -> M (list B)) :
  (forall x, safe (body x)) -> safe (for_yield xs body).
Proof.
  intros Hbody. induction xs as [|x xs IH]; simpl.
  - apply safe_mret.
  - apply safe_bind; [apply Hbody|]. intros ys.
    apply safe_bind; [apply IH|]. intros zs. apply safe_mret.
Qed.

(** What follows a call of [_path] works on a path with proper components. *)
Lemma safe_validated {B} args (k : string -> M B) :
  args <> [] ->
  (forall path, Forall proper_component (Str.split "/" path) -> safe (k path)) ->
  safe (lift (_path args) ≫= k).
Proof.
  intros Hne Hk root. destruct (_path args) as [path|e] eqn:Hpath.
  - rewrite bind_lift_Ret. apply Hk. by apply _path_components_proper with args.
  - rewrite bind_lift_Raise. constructor.
Qed.

Lemma safe_os_listdir path :
  Forall proper_component (Str.split "/" path) -> safe (os_listdir path).
Proof. intros H root. by repeat constructor. Qed.

Lemma safe_os_path_exists path :
  Forall proper_component (Str.split "/" path) -> safe (os_path_exists path).
Proof. intros H root. by repeat constructor. Qed.

Lemma safe_open_json_load path :
  Forall proper_component (Str.split "/" path) -> safe (open_json_load path).
Proof. intros H root. by repeat constructor. Qed.

Ltac safe_step :=
  first
    [ apply safe_mret
    | apply safe_raise
    | apply safe_lift
    | apply safe_try_except
    | apply safe_validated; [discriminate|intros ? ?]
    | by apply safe_os_listdir
    | by apply safe_os_path_exists
    | by apply safe_open_json_load
    | apply safe_foldM; intros ? ?
    | apply safe_for_yield; intros ?
    | apply safe_bind; [|intros ?]
    | match goal with
      | |- safe (match ?x with _ => _ end) => destruct x
      end ].

Lemma safe_get_package canonical version : safe (get_package canonical version).
Proof. unfold get_package. repeat safe_step. Qed.

Lemma safe_get_package_of_json canonical version :
  safe (get_package_of_json canonical version).
Proof.
  destruct canonical; simpl; try apply safe_raise; try apply safe_get_package;
    repeat safe_step.
Qed.

Lemma safe_get_package_versions canonical : safe (get_package_versions canonical).
Proof.
  unfold get_package_versions, collect_versions, add_version_of. repeat safe_step.
Qed.


Lemma safe_get_sdk sdk_id version : safe (get_sdk sdk_id version).
Proof.
  unfold get_sdk. repeat (first [apply safe_get_package_of_json|safe_step]).
Qed.

Lemma safe_get_sdk_of_json sdk_id version : safe (get_sdk_of_json sdk_id version).
Proof.
  destruct sdk_id; simpl; try apply safe_get_sdk; repeat safe_step.
Qed.

Lemma safe_get_sdks : safe get_sdks.
Proof.
  unfold get_sdks, add_sdk. repeat (first [apply safe_get_package_of_json|safe_step]).
Qed.

Lemma safe_get_app app_id version : safe (get_app app_id version).
Proof. unfold get_app. repeat safe_step. Qed.

Lemma safe_get_marketing_slugs : safe get_marketing_slugs.
Proof. unfold get_marketing_slugs. repeat safe_step. Qed.

Lemma safe_resolve_marketing_slug slug : safe (resolve_marketing_slug slug).
Proof.
  unfold resolve_marketing_slug, resolve_target, integration_package.
  repeat (first [apply safe_get_marketing_slugs|apply safe_get_package_of_json
                |apply safe_get_sdk_of_json|safe_step]).
Qed.

(** ** Malformed and unparsable identifiers *)




(** C3: on a canonical identifier without a colon, [get_package] (with any
    version) and [get_package_versions] return [None], raise nothing and
    make no filesystem access. *)
Theorem no_colon_not_found (canonical : string) :
  Str.contains ":" canonical = false ->
  (forall version root, get_package canonical version root = (Ret None, [])) /\
  (forall root, get_package_versions canonical root = (Ret None, [])).
Proof.
  intros H. split; intros.
  - by apply get_package_no_colon.
  - by apply get_package_versions_no_colon.
Qed.

Lemma no_colon_not_found_witness :
  get_package "left-pad" "1.2.0" (Dir ∅) = (Ret None, []) /\
  get_package_versions "left-pad" (Dir ∅) = (Ret None, []).
Proof.
  pose proof (no_colon_not_found "left-pad" eq_refl) as [Hp Hv].
  split; [apply Hp|apply Hv].
Defined.

(** C9: when the identifier has a colon but nothing before the first colon
    or nothing after it, [get_package] and [get_package_versions] raise
    [InvalidPathComponent]; they do not return [None]. *)
Theorem empty_registry_or_package_raises (canonical registry package : string) :
  Str.split_once ":" canonical = Some (registry, package) ->
  registry = EmptyString \/ package = EmptyString ->
  (forall version root,
      get_package canonical version root = (Raise InvalidPathComponent, [])) /\
  (forall root,
      get_package_versions canonical root = (Raise InvalidPathComponent, [])).
Proof.
  intros Hsplit Hempty.
  assert (exists segment, segment ∈ [registry; package] /\ invalid_segment segment)
    as (segment & Hin & Hinv).
  { destruct Hempty as [-> | ->].
    - exists EmptyString. split; [apply list_elem_of_here|by left].
    - exists EmptyString. split; [apply list_elem_of_further, list_elem_of_here|by left]. }
  split; intros.
  - rewrite (get_package_split _ _ _ _ _ Hsplit).
    rewrite (_path_Raise _ segment); [done| |done].
    apply list_elem_of_further. apply elem_of_cons in Hin as [->|Hin]; [apply list_elem_of_here|].
    apply list_elem_of_further. apply list_elem_of_singleton in Hin as ->. apply list_elem_of_here.
  - rewrite (get_package_versions_split _ _ _ _ Hsplit), bind_run.
    by rewrite (collect_versions_invalid _ _ segment).
Qed.

Lemma empty_registry_or_package_raises_witness :
  get_package ":pkg" "latest" (Dir ∅) = (Raise InvalidPathComponent, []) /\
  get_package_versions "pkg:" (Dir ∅) = (Raise InvalidPathComponent, []).
Proof.
  split.
  - apply (proj1 (empty_registry_or_package_raises ":pkg" EmptyString "pkg" eq_refl (or_introl eq_refl))).
  - apply (proj2 (empty_registry_or_package_raises "pkg:" "pkg" EmptyString eq_refl (or_intror eq_refl))).
Defined.

(** ** Changing the stored versions *)

Lemma walk_change_entry_other dir name change other cur :
  other <> name ->
  walk (dir ++ [other]) (change_entry dir name change cur) = walk (dir ++ [other]) cur.
Proof.
  intros Hne. revert cur. induction dir as [|d dir IH]; intros cur.
  - destruct cur as [c|entries|]; simpl; [done| |done].
    by rewrite lookup_partial_alter_ne.
  - destruct cur as [c|entries|]; simpl; [done| |done].
    rewrite lookup_alter_eq. destruct (entries !! d) as [child|]; simpl; [apply IH|done].
Qed.

Lemma split_join_snoc (args : list string) (name : string) :
  args <> [] -> Str.contains "/" name = false ->
  Str.split "/" (os_path_join (args ++ [name])) =
  (Str.split "/" (os_path_join args) ++ [name])%list.
Proof.
  intros Hne Hname. unfold os_path_join.
  rewrite !split_join by (by destruct args).
  rewrite map_app, concat_app. cbn [map concat].
  by rewrite (split_no_sep _ _ Hname).
Qed.

(** C8: [get_package] with version ["latest"] opens the file [latest.json]
    of the package directory and nothing else; what it returns is decided by
    that file alone, so two trees that agree on it give the same answer, and
    creating, replacing or removing any other entry of the package directory
    changes nothing. *)
Theorem latest_is_a_literal_file (canonical : string) :
  (forall registry package path root,
      Str.split_once ":" canonical = Some (registry, package) ->
      _path ["packages"; registry; package; "latest.json"] = Ret path ->
      path = os_path_join ["packages"; registry; package; "latest.json"] /\
      accesses (get_package canonical "latest") root = [Open path] /\
      run (get_package canonical "latest") root =
        match load_or_None root path with
        | Ret (Some doc) => Ret (Some {| _data := doc |})
        | Ret None => Ret None
        | Raise e => Raise e
        end) /\
  (forall root root',
      (forall registry package,
          Str.split_once ":" canonical = Some (registry, package) ->
          lookup_path root (os_path_join ["packages"; registry; package; "latest.json"]) =
          lookup_path root' (os_path_join ["packages"; registry; package; "latest.json"])) ->
      get_package canonical "latest" root = get_package canonical "latest" root') /\
  (forall registry package other change root,
      Str.split_once ":" canonical = Some (registry, package) ->
      other <> "latest.json" ->
      get_package canonical "latest"
        (change_entry (Str.split "/" (os_path_join ["packages"; registry; package]))
           other change root) =
      get_package canonical "latest" root).
Proof.
  assert (forall root root',
      (forall registry package,
          Str.split_once ":" canonical = Some (registry, package) ->
          lookup_path root (os_path_join ["packages"; registry; package; "latest.json"]) =
          lookup_path root' (os_path_join ["packages"; registry; package; "latest.json"])) ->
      get_package canonical "latest" root = get_package canonical "latest" root') as Hagree.
  { intros root root' Hsame.
    destruct (Str.split_once ":" canonical) as [[registry package]|] eqn:Hsplit.
    - rewrite !(get_package_split _ _ _ _ _ Hsplit).
      change (json_filename "latest") with "latest.json".
      destruct (_path_cases ["packages"; registry; package; "latest.json"]) as [-> | ->]; [|done].
      unfold load_or_None. by rewrite (Hsame _ _ eq_refl).
    - apply split_once_None in Hsplit. by rewrite !get_package_no_colon. }
  split; [|split; [exact Hagree|]].
  - intros registry package path root Hsplit Hpath.
    unfold run, accesses. rewrite (get_package_split _ _ _ _ _ Hsplit).
    change (json_filename "latest") with "latest.json". rewrite Hpath. simpl.
    split; [|done].
    destruct (_path_cases ["packages"; registry; package; "latest.json"]) as [H|H];
      rewrite H in Hpath; [by injection Hpath|done].
  - intros registry package other change root Hsplit Hother.
    apply Hagree. intros registry' package' Hsplit'.
    rewrite Hsplit in Hsplit'. injection Hsplit' as <- <-.
    unfold lookup_path.
    change ["packages"; registry; package; "latest.json"]
      with (["packages"; registry; package] ++ ["latest.json"])%list.
    rewrite (split_join_snoc ["packages"; registry; package] "latest.json") by done.
    by apply walk_change_entry_other.
Qed.

Lemma latest_is_a_literal_file_witness :
  accesses (get_package "npm:left-pad" "latest") (Dir ∅) =
    [Open "packages/npm/left-pad/latest.json"] /\
  get_package "npm:left-pad" "latest"
    (change_entry ["packages"; "npm"; "left-pad"] "9.9.9.json" (fun _ => Some (File Garbage))
       (Dir {["packages" := Dir {["npm" := Dir {["left-pad" := Dir ∅]}]}]})) =
  get_package "npm:left-pad" "latest"
    (Dir {["packages" := Dir {["npm" := Dir {["left-pad" := Dir ∅]}]}]}).
Proof.
  pose proof (latest_is_a_literal_file "npm:left-pad") as (Hreads & _ & Hother).
  split.
  - exact (proj1 (proj2 (Hreads "npm" "left-pad" _ (Dir ∅) eq_refl eq_refl))).
  - apply (Hother "npm" "left-pad" "9.9.9.json"); [reflexivity|discriminate].
Defined.

(** ** Filesystem failures *)

(** C1 (counterexample): with no directory [packages/npm/left-pad],
    [get_package_versions] raises the error of [os.listdir]; it does not
    return [None]. *)
Lemma missing_package_directory_raises :
  lookup_path (Dir {["packages" := Dir {["npm" := Dir ∅]}]}) "packages/npm/left-pad"
    = Raise (OSError ENOENT) /\
  run (get_package_versions "npm:left-pad") (Dir {["packages" := Dir {["npm" := Dir ∅]}]})
    = Raise (OSError ENOENT) /\
  run (get_package_versions "npm:left-pad") (Dir {["packages" := Dir {["npm" := Dir ∅]}]})
    <> Ret None.
Proof. split; [|split]; [vm_compute; reflexivity..|discriminate]. Qed.

(** C1 (amended): [get_package] turns every filesystem failure into [None]:
    it returns [None] whenever the file cannot be opened and never raises a
    filesystem error.  [get_package_versions] returns [None] only for an
    identifier without a colon; when the package directory cannot be listed
    (it is missing, is not a directory, or access is denied) the error of
    [os.listdir] goes to the caller. *)
Theorem filesystem_failures (canonical registry package : string) :
  Str.split_once ":" canonical = Some (registry, package) ->
  (forall version path root e,
      _path ["packages"; registry; package; json_filename version] = Ret path ->
      run (open_json_load path) root = Raise (OSError e) ->
      get_package canonical version root = (Ret None, [Open path])) /\
  (forall version root e,
      run (get_package canonical version) root <> Raise (OSError e)) /\
  (forall path root e,
      _path ["packages"; registry; package] = Ret path ->
      run (os_listdir path) root = Raise (OSError e) ->
      get_package_versions canonical root = (Raise (OSError e), [Listdir path])) /\
  (forall identifier root,
      run (get_package_versions identifier) root = Ret None <->
      Str.contains ":" identifier = false).
Proof.
  intros Hsplit. split; [|split; [|split]].
  4:{ intros identifier root. split.
      - destruct (Str.split_once ":" identifier) as [[r p]|] eqn:Hid;
          [|intros _; by apply split_once_None].
        unfold run. rewrite (get_package_versions_split _ _ _ _ Hid), bind_run.
        destruct (collect_versions r p root) as [[rv|e] log]; [|done].
        cbn [fst snd]. rewrite bind_run. unfold lift.
        by destruct (sorted_by_version rv).
      - intros Hcolon. unfold run. by rewrite (get_package_versions_no_colon _ _ Hcolon). }
  - intros version path root e Hpath Hopen.
    rewrite (get_package_split _ _ _ _ _ Hsplit), Hpath.
    unfold run, open_json_load in Hopen. simpl in Hopen. unfold load_or_None.
    destruct (lookup_path root path) as [[[doc| |]|entries|]|e']; try done.
  - intros version root e H. by apply get_package_no_OSError in H.
  - intros path root e Hpath Hlist.
    rewrite (get_package_versions_split _ _ _ _ Hsplit), bind_run.
    by rewrite (collect_versions_listdir_fails _ _ _ _ _ Hpath Hlist).
Qed.

Lemma filesystem_failures_witness :
  get_package "npm:left-pad" "9.9.9" (Dir {["packages" := Denied]})
    = (Ret None, [Open "packages/npm/left-pad/9.9.9.json"]) /\
  get_package_versions "npm:left-pad" (Dir {["packages" := Denied]})
    = (Raise (OSError EACCES), [Listdir "packages/npm/left-pad"]).
Proof.
  pose proof (filesystem_failures "npm:left-pad" "npm" "left-pad" eq_refl)
    as (Hopen & _ & Hlist & _).
  split.
  - apply (Hopen "9.9.9" _ (Dir {["packages" := Denied]}) EACCES); [reflexivity|].
    vm_compute. reflexivity.
  - apply (Hlist _ (Dir {["packages" := Denied]}) EACCES); [reflexivity|].
    vm_compute. reflexivity.
Defined.

(** ** Precedence is a total preorder *)

Module SemverOrder.
Import Semver.

Lemma N_compare_trans (x y z : N) c :
  (x ?= y)%N = c -> (y ?= z)%N = c -> (x ?= z)%N = c.
Proof.
  destruct c; rewrite ?N.compare_eq_iff, ?N.compare_lt_iff, ?N.compare_gt_iff; lia.
Qed.

Lemma ascii_compare_eq (a b : ascii) : Ascii.compare a b = Eq <-> a = b.
Proof.
  split; [apply Ascii.compare_eq_iff|]. intros ->. apply N.compare_refl.
Qed.

Lemma compare_str_eq s t : compare_str s t = Eq <-> s = t.
Proof.
  unfold compare_str. rewrite (list_compare_refl _ ascii_compare_eq). split.
  - intros H. by rewrite <- (string_of_list_ascii_of_string s), H, string_of_list_ascii_of_string.
  - by intros ->.
Qed.

Lemma compare_str_antisym s t : compare_str t s = CompOpp (compare_str s t).
Proof.
  unfold compare_str. apply (list_compare_antisym _ ascii_compare_eq).
  intros x y. apply Ascii.compare_antisym.
Qed.

Lemma compare_str_trans s t u c :
  compare_str s t = c -> compare_str t u = c -> compare_str s u = c.
Proof.
  unfold compare_str. apply (list_compare_trans _ ascii_compare_eq).
  - intros x y z c'. apply N_compare_trans.
  - intros x y. apply Ascii.compare_antisym.
Qed.

Lemma compare_identifier_eq i j : compare_identifier i j = Eq <-> i = j.
Proof.
  destruct i as [x|s], j as [y|t]; simpl; try (split; discriminate).
  - rewrite N.compare_eq_iff. split; [by intros ->|by intros [= ->]].
  - rewrite compare_str_eq. split; [by intros ->|by intros [= ->]].
Qed.

Lemma compare_identifier_antisym i j :
  compare_identifier j i = CompOpp (compare_identifier i j).
Proof.
  destruct i as [x|s], j as [y|t]; simpl; try done.
  - apply N.compare_antisym.
  - apply compare_str_antisym.
Qed.

Lemma compare_identifier_trans i j k c :
  compare_identifier i j = c -> compare_identifier j k = c -> compare_identifier i k = c.
Proof.
  destruct i as [x|s], j as [y|t], k as [z|u]; simpl; try congruence.
  - apply N_compare_trans.
  - apply compare_str_trans.
Qed.

Lemma compare_atom_eq a b : compare_atom a b = Eq <-> a = b.
Proof.
  destruct a as [i|], b as [j|]; simpl; try (split; discriminate); [|done].
  rewrite compare_identifier_eq. split; [by intros ->|by intros [= ->]].
Qed.

Lemma compare_atom_antisym a b : compare_atom b a = CompOpp (compare_atom a b).
Proof.
  destruct a as [i|], b as [j|]; simpl; try done. apply compare_identifier_antisym.
Qed.

Lemma compare_atom_trans a b d c :
  compare_atom a b = c -> compare_atom b d = c -> compare_atom a d = c.
Proof.
  destruct a as [i|], b as [j|], d as [k|]; simpl; try congruence.
  apply compare_identifier_trans.
Qed.

Lemma list_compare_Id p q :
  list_compare compare_atom (map Id p) (map Id q) = list_compare compare_identifier p q.
Proof.
  revert q. induction p as [|i p IH]; intros [|j q]; simpl; try done.
  by rewrite IH.
Qed.

Lemma map_Id_inj p q : map Id p = map Id q -> p = q.
Proof.
  revert q. induction p as [|i p IH]; intros [|j q]; simpl; try done.
  intros [= -> H]. by rewrite (IH _ H).
Qed.

(** The comparison of versions is the comparison of their keys. *)
Lemma compare_key v w : compare v w = list_compare compare_atom (key v) (key w).
Proof.
  unfold compare, key, lexico. simpl.
  destruct (major v ?= major w)%N; [|done..].
  destruct (minor v ?= minor w)%N; [|done..].
  destruct (patch v ?= patch w)%N; [|done..].
  destruct (prerelease v) as [|i p], (prerelease w) as [|j q]; try done.
  exact (eq_sym (list_compare_Id (i :: p) (j :: q))).
Qed.

Lemma compare_antisym v w : compare w v = CompOpp (compare v w).
Proof.
  rewrite !compare_key. apply (list_compare_antisym _ compare_atom_eq).
  intros x y. apply compare_atom_antisym.
Qed.

Lemma compare_trans u v w c :
  compare u v = c -> compare v w = c -> compare u w = c.
Proof.
  rewrite !compare_key. apply (list_compare_trans _ compare_atom_eq).
  - intros x y z c'. apply compare_atom_trans.
  - intros x y. apply compare_atom_antisym.
Qed.

Lemma compare_Eq_key v w : compare v w = Eq <-> key v = key w.
Proof. rewrite compare_key. apply (list_compare_refl _ compare_atom_eq). Qed.

(** Versions of equal precedence have the same numbers and the same
    pre-release: they can differ in build metadata only. *)
Lemma compare_Eq v w :
  compare v w = Eq <->
  major v = major w /\ minor v = minor w /\ patch v = patch w /\
  prerelease v = prerelease w.
Proof.
  rewrite compare_Eq_key. unfold key. split.
  - intros [= -> -> -> H]. repeat split.
    destruct (prerelease v) as [|i p], (prerelease w) as [|j q]; try done.
    by apply (map_Id_inj (i :: p) (j :: q)).
  - by intros (-> & -> & -> & ->).
Qed.

Lemma lt_asym v w : lt v w = true -> lt w v = false.
Proof.
  unfold lt. rewrite (compare_antisym v w). by destruct (compare v w).
Qed.

Lemma lt_irrefl v : lt v v = false.
Proof.
  unfold lt. by assert (compare v v = Eq) as -> by (by apply compare_Eq_key).
Qed.

Lemma le_total v w : le v w = true \/ le w v = true.
Proof.
  unfold le, lt. rewrite (compare_antisym v w). destruct (compare v w); auto.
Qed.

Lemma le_trans u v w : le u v = true -> le v w = true -> le u w = true.
Proof.
  unfold le, lt. rewrite (compare_antisym u v), (compare_antisym v w), (compare_antisym u w).
  destruct (compare u v) eqn:Euv; [| |done]; destruct (compare v w) eqn:Evw; try done; intros _ _.
  - by rewrite (compare_trans _ _ _ _ Euv Evw).
  - apply compare_Eq_key in Euv. rewrite compare_key, Euv, <- compare_key, Evw. done.
  - apply compare_Eq_key in Evw. rewrite compare_key, <- Evw, <- compare_key, Euv. done.
  - by rewrite (compare_trans _ _ _ _ Euv Evw).
Qed.

(** [v <= w] means [v < w] or equal precedence. *)
Lemma le_lt_or_Eq v w : le v w = true <-> lt v w = true \/ compare v w = Eq.
Proof.
  unfold le, lt. rewrite (compare_antisym v w).
  destruct (compare v w); simpl; split; auto; intros [?|?]; done.
Qed.

End SemverOrder.

(** ** The stable sort *)

Section StableSortProperties.
Context {K A : Type} (lower : K -> K -> bool).
Hypothesis lower_asym : forall a b, lower a b = true -> lower b a = false.
Hypothesis not_lower_trans :
  forall a b c, lower b a = false -> lower c b = false -> lower c a = false.

(** [x] is not after [y]: the key of [y] is not lower. *)
Let ascending (x y : K * A) : Prop := lower (fst y) (fst x) = false.

Lemma insert_keyed_Permutation (x : K * A) l :
  Permutation (insert_keyed lower x l) (x :: l).
Proof.
  induction l as [|y l IH]; simpl; [done|].
  destruct (lower (fst y) (fst x)); [|done].
  rewrite IH. apply perm_swap.
Qed.

Lemma stable_sort_Permutation (l : list (K * A)) :
  Permutation (stable_sort lower l) l.
Proof.
  induction l as [|x l IH]; simpl; [done|].
  by rewrite insert_keyed_Permutation, IH.
Qed.

Lemma insert_keyed_sorted (x : K * A) l :
  StronglySorted ascending l -> StronglySorted ascending (insert_keyed lower x l).
Proof.
  induction 1 as [|y l Hsorted IH Hall]; simpl; [repeat constructor|].
  destruct (lower (fst y) (fst x)) eqn:Hyx.
  - constructor; [done|].
    rewrite insert_keyed_Permutation.
    constructor; [|done]. by apply lower_asym.
  - constructor; [by constructor|]. constructor; [done|].
    eapply Forall_impl; [exact Hall|]. intros z Hz. unfold ascending in *.
    by apply not_lower_trans with (fst y).
Qed.

Lemma stable_sort_sorted (l : list (K * A)) :
  StronglySorted ascending (stable_sort lower l).
Proof.
  induction l as [|x l IH]; simpl; [constructor|]. by apply insert_keyed_sorted.
Qed.
End StableSortProperties.

(** ** mapM on results *)

Lemma mapM_result_Ret {A B} (f : A -> result B) l k :
  Forall2 (fun x y => f x = Ret y) l k -> mapM f l = Ret k.
Proof.
  induction 1 as [|x y l k Hx _ IH]; simpl; [done|].
  rewrite Hx. simpl. rewrite IH. done.
Qed.



(** ** Reading a package directory *)

Lemma walk_app components components' cur :
  walk (components ++ components') cur =
  match walk components cur with
  | Ret n => walk components' n
  | Raise e => Raise e
  end.
Proof.
  revert cur. induction components as [|name rest IH]; intros cur; simpl; [done|].
  destruct cur as [c|entries|]; [done| |done].
  destruct (entries !! name); [apply IH|done].
Qed.

(** An entry of a directory is found at the directory's path extended by
    the entry's name. *)
Lemma lookup_path_entry args name root entries :
  args <> [] -> Str.contains "/" name = false ->
  lookup_path root (os_path_join args) = Ret (Dir entries) ->
  lookup_path root (os_path_join (args ++ [name])) =
  match entries !! name with
  | Some n => Ret n
  | None => Raise (OSError ENOENT)
  end.
Proof.
  intros Hne Hname Hdir. unfold lookup_path in *.
  rewrite split_join_snoc, walk_app, Hdir by done. simpl.
  by destruct (entries !! name).
Qed.

Lemma is_entry_name_no_slash name :
  is_entry_name name = true -> Str.contains "/" name = false.
Proof.
  unfold is_entry_name. rewrite !andb_true_iff, !negb_true_iff. tauto.
Qed.

Lemma _path_snoc args dir name :
  _path args = Ret dir -> is_entry_name name = true ->
  _path (args ++ [name]) = Ret (os_path_join (args ++ [name])).
Proof.
  intros Hdir Hname. apply _path_Ret. apply Forall_app. split.
  - apply validate_args_Ret. unfold _path in Hdir.
    destruct (validate_args_cases args) as [H|H]; [done|]. by rewrite H in Hdir.
  - apply Forall_singleton. by apply validate_path_component_entry_name.
Qed.

Lemma _path_Ret_inv args dir : _path args = Ret dir -> dir = os_path_join args.
Proof.
  intros H. destruct (_path_cases args) as [H'|H']; rewrite H' in H; [by injection H|done].
Qed.

Section PackageDirectory.
Context (registry package dir : string) (root : node) (entries : gmap string node).
Hypothesis dir_valid : _path ["packages"; registry; package] = Ret dir.
Hypothesis dir_listed : lookup_path root dir = Ret (Dir entries).

Lemma os_listdir_package :
  os_listdir dir root = (Ret (map fst (map_to_list entries)), [Listdir dir]).
Proof. unfold os_listdir. by rewrite dir_listed. Qed.

Lemma add_version_of_other rv filename :
  Str.endswith filename ".json" = false ->
  add_version_of registry package rv filename root = (Ret rv, []).
Proof. intros H. unfold add_version_of. by rewrite H. Qed.

Lemma add_version_of_stored rv filename doc v :
  is_entry_name filename = true ->
  Str.endswith filename ".json" = true ->
  entries !! filename = Some (File (Json doc)) ->
  getitem doc "version" = Ret (JStr v) ->
  exists log, add_version_of registry package rv filename root = (Ret ({[Text v]} ∪ rv), log).
Proof.
  intros Hname Hjson Hfile Hversion. unfold add_version_of. rewrite Hjson.
  change ["packages"; registry; package; filename]
    with (["packages"; registry; package] ++ [filename])%list.
  rewrite (_path_snoc _ _ _ dir_valid Hname), bind_lift_Ret, bind_run.
  unfold open_json_load.
  rewrite (lookup_path_entry _ _ root entries); [|done|by apply is_entry_name_no_slash|].
  - rewrite Hfile. simpl. rewrite Hversion. simpl. eauto.
  - by rewrite <- (_path_Ret_inv _ _ dir_valid).
Qed.

(** The set only grows. *)
Lemma add_version_of_mono rv filename rv' log :
  add_version_of registry package rv filename root = (Ret rv', log) -> rv ⊆ rv'.
Proof.
  unfold add_version_of. destruct (Str.endswith filename ".json").
  - destruct (_path ["packages"; registry; package; filename]) as [p|e];
      [|by rewrite bind_lift_Raise].
    rewrite bind_lift_Ret, bind_run.
    destruct (open_json_load p root) as [[doc|e] log0]; [|done].
    rewrite bind_run. unfold lift.
    destruct (getitem doc "version") as [value|e]; [|done].
    destruct value; simpl; intros [= <- _]; set_solver.
  - intros [= <- _]. done.
Qed.

Lemma foldM_add_version_of_mono names rv rv' log :
  foldM (add_version_of registry package) rv names root = (Ret rv', log) -> rv ⊆ rv'.
Proof.
  revert rv log. induction names as [|filename names IH]; intros rv log; simpl.
  - by intros [= <- _].
  - rewrite bind_run.
    destruct (add_version_of registry package rv filename root) as [[rv0|e] log0] eqn:E; [|done].
    destruct (foldM _ rv0 names root) as [[rv1|e] log1] eqn:E'; simpl; [|done].
    intros [= <- _]. apply add_version_of_mono in E. apply IH in E'. set_solver.
Qed.


(** When every [*.json] entry is a document with a string for version,
    the loop ends with exactly the stored versions. *)
Lemma foldM_add_version_of_all names rv :
  (forall filename, filename ∈ names -> Str.endswith filename ".json" = true ->
     is_entry_name filename = true /\
     exists doc v, entries !! filename = Some (File (Json doc)) /\
                   getitem doc "version" = Ret (JStr v)) ->
  exists rv' log,
    foldM (add_version_of registry package) rv names root = (Ret rv', log) /\
    forall x, x ∈ rv' <-> x ∈ rv \/ exists v, x = Text v /\ stored_in entries names v.
Proof.
  revert rv. induction names as [|name names IH]; intros rv Hgood; simpl.
  - exists rv, []. split; [done|]. intros x. split; [by left|].
    intros [?|(v & _ & (f & d & Hin & _))]; [done|by inversion Hin].
  - destruct (Str.endswith name ".json") eqn:Hjson.
    + destruct (Hgood name (list_elem_of_here _ _) Hjson) as (Hname & doc & v & Hfile & Hversion).
      destruct (add_version_of_stored rv name doc v) as [log0 E]; try done.
      destruct (IH ({[Text v]} ∪ rv)) as (rv' & log & Efold & Hrv').
      { intros f Hf. apply Hgood. by apply list_elem_of_further. }
      exists rv', (log0 ++ log)%list. rewrite bind_run, E, Efold. split; [done|].
      intros x. rewrite Hrv'. split.
      * intros [[->%elem_of_singleton|?]%elem_of_union|(v' & -> & f & d & Hin & H)].
        -- right. exists v. split; [done|]. exists name, doc.
           split; [apply list_elem_of_here|done].
        -- by left.
        -- right. exists v'. split; [done|]. exists f, d.
           split; [by apply list_elem_of_further|done].
      * intros [?|(v' & -> & f & d & Hin & Hj & Hf & Hv)]; [left; set_solver|].
        apply elem_of_cons in Hin as [->|Hin].
        -- left. rewrite Hfile in Hf. injection Hf as <-.
           rewrite Hversion in Hv. injection Hv as <-. set_solver.
        -- right. exists v'. split; [done|]. by exists f, d.
    + destruct (IH rv) as (rv' & log & Efold & Hrv').
      { intros f Hf. apply Hgood. by apply list_elem_of_further. }
      exists rv', log. rewrite bind_run, (add_version_of_other _ _ Hjson), Efold.
      split; [done|]. intros x. rewrite Hrv'. split.
      * intros [?|(v' & -> & f & d & Hin & H)]; [by left|].
        right. exists v'. split; [done|]. exists f, d.
        split; [by apply list_elem_of_further|done].
      * intros [?|(v' & -> & f & d & Hin & Hj & H)]; [by left|].
        apply elem_of_cons in Hin as [->|Hin]; [congruence|].
        right. exists v'. split; [done|]. by exists f, d.
Qed.

Lemma collect_versions_run rv :
  run (collect_versions registry package) root = Ret rv <->
  exists log, foldM (add_version_of registry package) ∅ (map fst (map_to_list entries)) root
              = (Ret rv, log).
Proof.
  unfold run, collect_versions. rewrite dir_valid, bind_lift_Ret, bind_run.
  rewrite os_listdir_package.
  destruct (foldM _ _ _ root) as [r log]. simpl. split.
  - intros ->. by exists log.
  - by intros [log' [= ->]].
Qed.

Lemma listed_names filename :
  filename ∈ map fst (map_to_list entries) <-> is_Some (entries !! filename).
Proof.
  rewrite list_elem_of_fmap. split.
  - intros ([f n] & -> & Hin). apply elem_of_map_to_list in Hin. by exists n.
  - intros [n Hn]. exists (filename, n). split; [done|]. by apply elem_of_map_to_list.
Qed.
End PackageDirectory.

(** ** Sorting the versions *)

Lemma version_key_Ret x k s :
  version_key x = Ret (k, s) <-> x = Text s /\ Semver.parse s = Some k.
Proof.
  destruct x as [s'|]; simpl; [|split; [discriminate|by intros [? _]]].
  destruct (Semver.parse s') as [k'|] eqn:E.
  - split; [by intros [= <- <-]|]. intros [[= ->] H]. rewrite E in H. by injection H as ->.
  - split; [discriminate|]. intros [[= ->] H]. congruence.
Qed.

Lemma StronglySorted_map {A B} (P : A -> Prop) (R : A -> A -> Prop) (R' : B -> B -> Prop)
    (f : A -> B) l :
  (forall x y, P x -> P y -> R x y -> R' (f x) (f y)) ->
  Forall P l -> StronglySorted R l -> StronglySorted R' (map f l).
Proof.
  intros HR HP Hsorted. induction Hsorted as [|x l _ IH Hall]; simpl; [constructor|].
  apply Forall_cons in HP as [Hx HP]. constructor; [by apply IH|].
  apply Forall_fmap. rewrite Forall_forall in Hall, HP. apply Forall_forall.
  intros y Hy. apply HR; auto.
Qed.

Lemma StronglySorted_strict {A} (R S : A -> A -> Prop) l :
  NoDup l -> (forall a b, a ∈ l -> b ∈ l -> S a b -> a = b) ->
  StronglySorted (fun a b => R a b \/ S a b) l -> StronglySorted R l.
Proof.
  intros Hnodup HS Hsorted. induction Hsorted as [|x l _ IH Hall]; [constructor|].
  apply NoDup_cons in Hnodup as [Hx Hnodup]. constructor.
  - apply IH; [done|]. intros a b Ha Hb. apply HS; by apply list_elem_of_further.
  - rewrite Forall_forall in Hall. apply Forall_forall. intros y Hy.
    destruct (Hall y Hy) as [?|Hxy]; [done|].
    apply HS in Hxy; [by subst|apply list_elem_of_here|by apply list_elem_of_further].
Qed.

(** Sorting a set of valid version strings. *)
Lemma sorted_by_version_valid (rv : gset member) :
  (forall x, x ∈ rv -> exists v, x = Text v /\ is_Some (Semver.parse v)) ->
  exists versions,
    sorted_by_version rv = Ret versions /\
    NoDup versions /\
    (forall v, v ∈ versions <-> Text v ∈ rv) /\
    StronglySorted (fun a b => version_lt a b = true \/ same_precedence a b) versions.
Proof.
  intros Hvalid.
  assert (exists keyed, Forall2 (fun x kv => version_key x = Ret kv) (elements rv) keyed)
    as [keyed Hkeyed].
  { assert (Forall (fun x => x ∈ rv) (elements rv)) as Hall.
    { apply Forall_forall. intros x. by rewrite elem_of_elements. }
    induction Hall as [|x l Hx _ [keyed IH]]; [by exists []|].
    destruct (Hvalid x Hx) as (v & -> & k & Hk).
    exists ((k, v) :: keyed). constructor; [|done]. simpl. by rewrite Hk. }
  assert (elements rv = map (fun kv => Text (snd kv)) keyed) as Helements.
  { clear Hvalid. induction Hkeyed as [|x [k s] l keyed Hx _ IH]; [done|].
    apply version_key_Ret in Hx as [-> _]. simpl. by rewrite IH. }
  assert (Forall (fun kv => Semver.parse (snd kv) = Some (fst kv)) keyed) as Hparsed.
  { clear Hvalid Helements. induction Hkeyed as [|x [k s] l keyed Hx _ IH]; [constructor|].
    apply version_key_Ret in Hx as [_ Hk]. by constructor. }
  pose proof (stable_sort_Permutation Semver.lt keyed) as Hperm.
  exists (map snd (stable_sort Semver.lt keyed)).
  split; [|split; [|split]].
  - unfold sorted_by_version. by rewrite (mapM_result_Ret _ _ _ Hkeyed).
  - rewrite Hperm. apply (NoDup_fmap_1 Text).
    rewrite <- list_fmap_compose. unfold compose.
    change (NoDup (map (fun kv : Semver.VersionInfo * string => Text kv.2) keyed)).
    rewrite <- Helements. apply NoDup_elements.
  - intros v. rewrite Hperm, <- elem_of_elements, Helements, !list_elem_of_fmap. split.
    + intros (kv & -> & Hin). by exists kv.
    + intros (kv & [= ->] & Hin). by exists kv.
  - apply (StronglySorted_map
             (fun kv => Semver.parse (snd kv) = Some (fst kv))
             (fun x y => Semver.lt (fst y) (fst x) = false)).
    + intros [k s] [k' s'] Hk Hk' Hle. simpl in *.
      assert (Semver.le k k' = true) as Hle' by (unfold Semver.le; by rewrite Hle).
      apply SemverOrder.le_lt_or_Eq in Hle' as [Hlt|Heq].
      * left. unfold version_lt. by rewrite Hk, Hk'.
      * right. exists k, k'. by apply SemverOrder.compare_Eq in Heq.
    + by rewrite Hperm.
    + apply stable_sort_sorted.
      * apply SemverOrder.lt_asym.
      * intros a b c Hab Hbc.
        pose proof (SemverOrder.le_trans a b c) as Htrans. unfold Semver.le in Htrans.
        rewrite Hab, Hbc in Htrans. specialize (Htrans eq_refl eq_refl).
        by apply negb_true_iff in Htrans.
Qed.



(** ** The versions of a package *)

(** C4 (counterexample): every [*.json] file carries a version field, yet
    two versions that differ in build metadata only come out in an order
    that is not strictly ascending (neither precedes the other, so no
    order of the two is); a version field that is not a semantic version
    makes the call raise; and so does the semantic version [1.0.0-0a], whose
    pre-release identifier [VersionInfo.parse] does not accept. *)
Lemma versions_not_strictly_ascending :
  (run (get_package_versions "npm:left-pad")
     (left_pad_tree [("a.json", package_record "npm:left-pad" "1.0.0+linux");
                     ("b.json", package_record "npm:left-pad" "1.0.0+darwin")])
   = Ret (Some ["1.0.0+linux"; "1.0.0+darwin"]) /\
   version_lt "1.0.0+linux" "1.0.0+darwin" = false /\
   version_lt "1.0.0+darwin" "1.0.0+linux" = false) /\
  run (get_package_versions "npm:left-pad")
    (left_pad_tree [("1.0.0.json", package_record "npm:left-pad" "1.0.0");
                    ("next.json", package_record "npm:left-pad" "next")])
  = Raise ValueError /\
  (SemverSpec.valid "1.0.0-0a" = true /\
   run (get_package_versions "npm:left-pad")
     (left_pad_tree [("1.0.0-0a.json", package_record "npm:left-pad" "1.0.0-0a")])
   = Raise ValueError).
Proof. repeat split; vm_compute; reflexivity. Qed.

(** C4 (amended): when every [*.json] file of the package directory is a
    document whose version field is a string that [VersionInfo.parse]
    accepts, [get_package_versions] returns those version strings, each
    once, in ascending precedence: every version precedes each later one or
    has the same precedence as it (they differ in build metadata or in a
    final line feed only).  The order is strictly ascending when no two
    stored versions have the same precedence. *)
Theorem versions_distinct_and_ascending
    (canonical registry package dir : string) (root : node) (entries : gmap string node) :
  Str.split_once ":" canonical = Some (registry, package) ->
  _path ["packages"; registry; package] = Ret dir ->
  lookup_path root dir = Ret (Dir entries) ->
  (forall filename n,
      entries !! filename = Some n -> Str.endswith filename ".json" = true ->
      is_entry_name filename = true /\
      exists doc v, n = File (Json doc) /\ getitem doc "version" = Ret (JStr v) /\
                    is_Some (Semver.parse v)) ->
  exists versions,
    run (get_package_versions canonical) root = Ret (Some versions) /\
    NoDup versions /\
    (forall v, v ∈ versions <-> stored_version entries v) /\
    StronglySorted (fun a b => version_lt a b = true \/ same_precedence a b) versions /\
    ((forall a b, stored_version entries a -> stored_version entries b ->
                  same_precedence a b -> a = b) ->
     StronglySorted (fun a b => version_lt a b = true) versions).
Proof.
  intros Hsplit Hdir Hlisted Hfiles.
  set (names := map fst (map_to_list entries)).
  assert (forall v, stored_in entries names v <-> stored_version entries v) as Hstored.
  { intros v. split.
    - intros (f & d & _ & Hjson & Hf & Hv). by exists f, d.
    - intros (f & d & Hf & Hjson & Hv). exists f, d. split; [|done].
      apply listed_names. by rewrite Hf. }
  destruct (foldM_add_version_of_all registry package dir root entries Hdir Hlisted names ∅)
    as (rv & log & Hfold & Hrv).
  { intros f [n Hn]%listed_names Hjson.
    destruct (Hfiles f n Hn Hjson) as (Hname & doc & v & -> & Hv & _). eauto. }
  assert (forall x, x ∈ rv <-> exists v, x = Text v /\ stored_version entries v) as Hrv'.
  { intros x. rewrite Hrv. split.
    - intros [?|(v & -> & Hv)]; [set_solver|]. exists v. by rewrite <- Hstored.
    - intros (v & -> & Hv). right. exists v. by rewrite Hstored. }
  destruct (sorted_by_version_valid rv) as (versions & Hsorted & Hnodup & Hmem & Hasc).
  { intros x (v & -> & f & d & Hf & Hjson & Hv)%Hrv'. exists v. split; [done|].
    destruct (Hfiles f _ Hf Hjson) as (_ & d' & v' & [= <-] & Hv' & Hparse).
    rewrite Hv in Hv'. by injection Hv' as <-. }
  assert (forall v, v ∈ versions <-> stored_version entries v) as Hmem'.
  { intros v. rewrite Hmem, Hrv'. split; [by intros (v' & [= <-] & H)|]. intros H. by exists v. }
  exists versions. split; [|split; [done|split; [done|split; [done|]]]].
  - unfold run. rewrite (get_package_versions_split _ _ _ _ Hsplit), bind_run.
    assert (run (collect_versions registry package) root = Ret rv) as Hcollect.
    { apply (collect_versions_run registry package dir root entries Hdir Hlisted). eauto. }
    unfold run in Hcollect. destruct (collect_versions registry package root) as [r log'].
    simpl in Hcollect. subst r. simpl. rewrite bind_run. unfold lift. by rewrite Hsorted.
  - intros Hdistinct.
    apply (StronglySorted_strict (fun a b => version_lt a b = true) same_precedence
             _ Hnodup); [|done].
    intros a b Ha Hb. apply Hdistinct; by apply Hmem'.
Qed.

Lemma versions_distinct_and_ascending_witness :
  (exists versions,
      run (get_package_versions "npm:left-pad") (left_pad_tree left_pad_files)
        = Ret (Some versions) /\
      NoDup versions /\
      (forall v, v ∈ versions <-> stored_version (list_to_map left_pad_files) v) /\
      StronglySorted (fun a b => version_lt a b = true \/ same_precedence a b) versions /\
      ((forall a b, stored_version (list_to_map left_pad_files) a ->
                    stored_version (list_to_map left_pad_files) b ->
                    same_precedence a b -> a = b) ->
       StronglySorted (fun a b => version_lt a b = true) versions)) /\
  run (get_package_versions "npm:left-pad") (left_pad_tree left_pad_files)
    = Ret (Some ["1.0.0"; "1.1.0"; "1.2.0"]).
Proof.
  split; [|vm_compute; reflexivity].
  apply (versions_distinct_and_ascending "npm:left-pad" "npm" "left-pad" "packages/npm/left-pad");
    [reflexivity|reflexivity|vm_compute; reflexivity|].
  intros filename n Hn _. apply elem_of_map_to_list in Hn.
  assert (map_to_list (list_to_map (M := gmap string node) left_pad_files)
          = [("1.1.0.json", package_record "npm:left-pad" "1.1.0");
             ("1.2.0.json", package_record "npm:left-pad" "1.2.0");
             ("1.0.0.json", package_record "npm:left-pad" "1.0.0")]) as Hlist
    by (vm_compute; reflexivity).
  rewrite Hlist in Hn.
  repeat (apply elem_of_cons in Hn as [[= -> ->]|Hn]);
    [split; [reflexivity|eexists _, _; repeat split; vm_compute; eauto]..|by inversion Hn].
Defined.

(** The file [latest.json] repeats a version that has a file of its own;
    the version is listed once. *)
Example latest_is_not_listed_twice :
  run (get_package_versions "npm:left-pad")
    (left_pad_tree (left_pad_files ++ [("latest.json", package_record "npm:left-pad" "1.2.0")]))
  = Ret (Some ["1.0.0"; "1.1.0"; "1.2.0"]).
Proof. vm_compute. reflexivity. Qed.







(** ** The walk over the packages *)

Lemma lookup_path_snoc args name root :
  args <> [] -> Str.contains "/" name = false ->
  lookup_path root (os_path_join (args ++ [name])) =
  match lookup_path root (os_path_join args) with
  | Ret n => walk [name] n
  | Raise e => Raise e
  end.
Proof.
  intros Hne Hname. unfold lookup_path. by rewrite split_join_snoc, walk_app.
Qed.

Lemma elem_of_names entries name : name ∈ names entries <-> is_Some (entries !! name).
Proof. apply listed_names. Qed.




Section RegistryDirectory.
Context (package_registry : string) (root : node) (items : gmap string node).
Hypothesis registry_name : is_entry_name package_registry = true.
Hypothesis registry_listed :
  lookup_path root (os_path_join ["packages"; package_registry]) = Ret (Dir items).
Hypothesis item_names : forall item, is_Some (items !! item) -> is_entry_name item = true.

Lemma registry_path :
  _path ["packages"; package_registry] = Ret (os_path_join ["packages"; package_registry]).
Proof. by apply (_path_snoc ["packages"] "packages"). Qed.

Lemma item_path item :
  is_entry_name item = true ->
  _path ["packages"; package_registry; item]
    = Ret (os_path_join ["packages"; package_registry; item]).
Proof. intros H. by apply (_path_snoc ["packages"; package_registry] _ _ registry_path). Qed.

Lemma lookup_item item n :
  items !! item = Some n ->
  lookup_path root (os_path_join ["packages"; package_registry; item]) = Ret n.
Proof.
  intros Hitem.
  change ["packages"; package_registry; item]
    with (["packages"; package_registry] ++ [item])%list.
  rewrite (lookup_path_entry ["packages"; package_registry] item root items); try done.
  - by rewrite Hitem.
  - apply is_entry_name_no_slash, item_names. by rewrite Hitem.
Qed.


End RegistryDirectory.


Lemma length_append s t : String.length (s ++ t) = String.length s + String.length t.
Proof. induction s as [|a s IH]; simpl; [done|]. by rewrite IH. Qed.














(** ** The SDK listing *)

(** One turn of the loop of [get_sdks] does what [get_sdk] does for the
    link, and stores the package when there is one. *)
Lemma add_sdk_get_sdk rv link root :
  add_sdk rv link root =
  (match run (get_sdk link "latest") root with
   | Ret (Some pkg) => Ret (<[link := pkg]> rv)
   | Ret None => Ret rv
   | Raise e => Raise e
   end, accesses (get_sdk link "latest") root).
Proof.
  unfold run, accesses, add_sdk, get_sdk, try_except_OSError.
  destruct (_path ["sdks"; link; "latest.json"]) as [path|e].
  - rewrite !bind_lift_Ret, !bind_run.
    destruct (open_json_load path root) as [[doc|e] log]; simpl.
    + rewrite !bind_run. unfold lift at 1 3.
      destruct (getitem doc "canonical") as [c|e]; simpl.
      * rewrite bind_run.
        destruct (get_package_of_json c "latest" root) as [[[pkg|]|e] log']; simpl;
          rewrite ?app_nil_r; [done|done|by destruct (is_OSError e)].
      * by destruct (is_OSError e).
    + by destruct (is_OSError e).
  - rewrite !bind_lift_Raise. by destruct (is_OSError e).
Qed.

Lemma foldM_add_sdk links rv root :
  (forall link, link ∈ links -> exists o, run (get_sdk link "latest") root = Ret o) ->
  exists sdks log,
    foldM add_sdk rv links root = (Ret sdks, log) /\
    forall link pkg,
      sdks !! link = Some pkg <->
      (link ∈ links /\ run (get_sdk link "latest") root = Ret (Some pkg)) \/
      (~ (link ∈ links /\ exists p, run (get_sdk link "latest") root = Ret (Some p)) /\
       rv !! link = Some pkg).
Proof.
  revert rv. induction links as [|l links IH]; intros rv Hreturns; simpl.
  - exists rv, []. split; [done|]. intros link pkg. split.
    + intros H. right. split; [|done]. intros [Hin _]. by inversion Hin.
    + intros [[Hin _]|[_ H]]; [by inversion Hin|done].
  - destruct (Hreturns l (list_elem_of_here _ _)) as [o Ho].
    set (rv' := match o with Some pkg => <[l := pkg]> rv | None => rv end).
    destruct (IH rv') as (sdks & log & Hfold & Hsdks).
    { intros link Hlink. by apply Hreturns, list_elem_of_further. }
    exists sdks, (accesses (get_sdk l "latest") root ++ log)%list.
    split.
    { rewrite bind_run, add_sdk_get_sdk, Ho.
      destruct o as [pkg|]; subst rv'; simpl; by rewrite Hfold. }
    intros link pkg. rewrite Hsdks. split.
    + intros [[Hin Hrun]|[Hnot Hrv']].
      * left. split; [by apply list_elem_of_further|done].
      * destruct (decide (link = l)) as [->|Hne].
        -- destruct o as [p|]; subst rv'.
           ++ rewrite lookup_insert_eq in Hrv'. injection Hrv' as <-.
              left. split; [apply list_elem_of_here|done].
           ++ right. split; [|done].
              intros [_ [p Hp]]. rewrite Ho in Hp. done.
        -- right. split.
           ++ intros [[?|Hin]%elem_of_cons Hp]; [done|]. by apply Hnot.
           ++ destruct o as [p|]; subst rv'; [by rewrite lookup_insert_ne in Hrv'|done].
    + intros [[[->|Hin]%elem_of_cons Hrun]|[Hnot Hrv]].
      * destruct (decide (l ∈ links)) as [Hin|Hnotin]; [by left|].
        right. split; [by intros [? _]|].
        rewrite Ho in Hrun. injection Hrun as ->. subst rv'. apply lookup_insert_eq.
      * by left.
      * right. split.
        -- intros [Hin Hp]. apply Hnot. split; [by apply list_elem_of_further|done].
        -- destruct (decide (link = l)) as [->|Hne].
           ++ destruct o as [p|]; subst rv'; [|done].
              exfalso. apply Hnot. split; [apply list_elem_of_here|by exists p].
           ++ destruct o as [p|]; subst rv'; [by rewrite lookup_insert_ne|done].
Qed.

Lemma foldM_add_sdk_raises links rv root link e :
  link ∈ links -> run (get_sdk link "latest") root = Raise e ->
  exists e', run (foldM add_sdk rv links) root = Raise e'.
Proof.
  intros Hin Hraise. revert rv.
  induction links as [|l links IH]; intros rv; [by inversion Hin|].
  unfold run. simpl. rewrite bind_run, add_sdk_get_sdk.
  destruct (run (get_sdk l "latest") root) as [o|e'] eqn:Hl; [|by exists e'].
  apply elem_of_cons in Hin as [->|Hin]; [congruence|].
  destruct o as [pkg|]; simpl.
  - destruct (IH Hin (<[l := pkg]> rv)) as [e' He']. exists e'. exact He'.
  - destruct (IH Hin rv) as [e' He']. exists e'. exact He'.
Qed.

Lemma get_sdks_listed root links :
  lookup_path root "sdks" = Ret (Dir links) ->
  run get_sdks root = run (foldM add_sdk ∅ (names links)) root.
Proof.
  intros Hsdks. unfold run, get_sdks.
  change (_path ["sdks"]) with (Ret (A := string) "sdks").
  rewrite bind_lift_Ret, bind_run. unfold os_listdir. rewrite Hsdks. by simpl.
Qed.

Lemma sdk_link_path link :
  is_entry_name link = true ->
  _path ["sdks"; link; "latest.json"] = Ret (os_path_join ["sdks"; link; "latest.json"]).
Proof.
  intros Hlink. apply _path_Ret. repeat constructor.
  by apply validate_path_component_entry_name.
Qed.

(** [get_sdk] in terms of the link file. *)
Lemma get_sdk_link link version root :
  is_entry_name link = true ->
  get_sdk link version root =
  match load_or_None root (os_path_join ["sdks"; link; "latest.json"]) with
  | Ret (Some doc) =>
      match getitem doc "canonical" with
      | Ret canonical =>
          match get_package_of_json canonical version root with
          | (Raise e, log) =>
              if is_OSError e
              then (Ret None, Open (os_path_join ["sdks"; link; "latest.json"]) :: log)
              else (Raise e, Open (os_path_join ["sdks"; link; "latest.json"]) :: log)
          | (r, log) => (r, Open (os_path_join ["sdks"; link; "latest.json"]) :: log)
          end
      | Raise e => (Raise e, [Open (os_path_join ["sdks"; link; "latest.json"])])
      end
  | Ret None => (Ret None, [Open (os_path_join ["sdks"; link; "latest.json"])])
  | Raise e => (Raise e, [Open (os_path_join ["sdks"; link; "latest.json"])])
  end.
Proof.
  intros Hlink. unfold get_sdk.
  unfold try_except_OSError at 1. rewrite (sdk_link_path _ Hlink), bind_lift_Ret.
  pose proof (try_open_json_load (os_path_join ["sdks"; link; "latest.json"])
                (fun doc => canonical ← lift (getitem doc "canonical");
                            get_package_of_json canonical version) root) as H.
  unfold try_except_OSError in H at 1. rewrite H.
  destruct (load_or_None root _) as [[doc|]|e]; try done.
  rewrite bind_run. unfold lift.
  destruct (getitem doc "canonical") as [c|e] eqn:Hc; simpl.
  - by destruct (get_package_of_json c version root) as [[o|e] log].
  - unfold getitem in Hc. destruct doc; try (by injection Hc as <-).
    destruct (assoc "canonical" fields); [done|by injection Hc as <-].
Qed.

(** C7 (counterexample): one link file that is not JSON fails the whole
    listing, although the other links are fine. *)
Lemma undecodable_link_fails_listing :
  lookup_path broken_sdk_tree "sdks/broken/latest.json" = Ret (File Garbage) /\
  run get_sdks broken_sdk_tree = Raise JSONDecodeError.
Proof. split; vm_compute; reflexivity. Qed.

(** C7 (amended): [get_sdks] treats every SDK link directory as [get_sdk]
    does: it reads the link file [latest.json] for a canonical identifier and
    resolves the latest package record.  When no link raises, the listing
    maps exactly the links that resolve to their package; a link whose file
    cannot be opened is skipped.  A link file that opens but is not JSON
    raises, and a link that raises fails the whole listing. *)
Theorem sdk_listing (root : node) (links : gmap string node) :
  lookup_path root "sdks" = Ret (Dir links) ->
  ((forall link, is_Some (links !! link) ->
                 exists o, run (get_sdk link "latest") root = Ret o) ->
   exists sdks,
     run get_sdks root = Ret sdks /\
     forall link pkg,
       sdks !! link = Some pkg <->
       is_Some (links !! link) /\ run (get_sdk link "latest") root = Ret (Some pkg)) /\
  (forall link,
      is_entry_name link = true ->
      (forall e,
          run (open_json_load (os_path_join ["sdks"; link; "latest.json"])) root
            = Raise (OSError e) ->
          run (get_sdk link "latest") root = Ret None) /\
      (forall doc canonical,
          lookup_path root (os_path_join ["sdks"; link; "latest.json"]) = Ret (File (Json doc)) ->
          getitem doc "canonical" = Ret (JStr canonical) ->
          run (get_sdk link "latest") root = run (get_package canonical "latest") root) /\
      (lookup_path root (os_path_join ["sdks"; link; "latest.json"]) = Ret (File Garbage) ->
       run (get_sdk link "latest") root = Raise JSONDecodeError)) /\
  (forall link e,
      is_Some (links !! link) -> run (get_sdk link "latest") root = Raise e ->
      exists e', run get_sdks root = Raise e').
Proof.
  intros Hsdks. split; [|split].
  - intros Hreturns.
    destruct (foldM_add_sdk (names links) ∅ root) as (sdks & log & Hfold & Hlookup).
    { intros link Hlink%elem_of_names. by apply Hreturns. }
    exists sdks. split.
    + rewrite (get_sdks_listed _ _ Hsdks). unfold run. by rewrite Hfold.
    + intros link pkg. rewrite Hlookup, elem_of_names. split.
      * intros [?|[_ H]]; [done|]. by rewrite lookup_empty in H.
      * intros H. by left.
  - intros link Hlink. split; [|split].
    + intros e Hopen. unfold run in *. rewrite (get_sdk_link _ _ _ Hlink).
      unfold open_json_load in Hopen. simpl in Hopen. unfold load_or_None.
      destruct (lookup_path root (os_path_join ["sdks"; link; "latest.json"]))
        as [[[doc| |]|entries|]|e']; try done.
    + intros doc c Hfile Hc. unfold run. rewrite (get_sdk_link _ _ _ Hlink).
      unfold load_or_None. rewrite Hfile, Hc. simpl.
      destruct (get_package c "latest" root) as [[o|e] log] eqn:Hpkg; [done|].
      assert (is_OSError e = false) as ->; [|done].
      apply (get_package_no_OSError c "latest" root). unfold run. by rewrite Hpkg.
    + intros Hfile. unfold run. rewrite (get_sdk_link _ _ _ Hlink).
      unfold load_or_None. by rewrite Hfile.
  - intros link e Hlink Hraise. rewrite (get_sdks_listed _ _ Hsdks).
    apply foldM_add_sdk_raises with link e; [by apply elem_of_names|done].
Qed.

Lemma sdk_listing_witness :
  (exists sdks,
      run get_sdks sdk_tree = Ret sdks /\
      sdks !! "react"
        = Some {| _data := JObj [("canonical", JStr "npm:react"); ("version", JStr "16.0.0")] |} /\
      sdks !! "orphan" = None) /\
  exists e', run get_sdks broken_sdk_tree = Raise e'.
Proof.
  split.
  - destruct (sdk_listing sdk_tree (list_to_map [("react", react_link); ("orphan", Dir ∅)]))
      as (Hall & _ & _); [vm_compute; reflexivity|].
    destruct Hall as (sdks & Hrun & Hsdks).
    { intros link [n Hn]. apply elem_of_list_to_map_2 in Hn.
      repeat (apply elem_of_cons in Hn as [[= -> _]|Hn]);
        [eexists; vm_compute; reflexivity..|by inversion Hn]. }
    exists sdks. split; [done|]. split.
    + apply Hsdks. split; [by eexists|vm_compute; reflexivity].
    + destruct (sdks !! "orphan") as [pkg|] eqn:E; [|done].
      apply Hsdks in E as [_ E]. vm_compute in E. discriminate.
  - destruct (sdk_listing broken_sdk_tree
                (list_to_map [("react", react_link); ("orphan", Dir ∅);
                              ("broken", Dir {["latest.json" := File Garbage]})]))
      as (_ & _ & Hraise); [vm_compute; reflexivity|].
    apply (Hraise "broken" JSONDecodeError); [by eexists|vm_compute; reflexivity].
Defined.

(** ** Marketing slugs *)

Lemma bind_result {A B} (m : M A) (k : A -> M B) root r log :
  m root = (r, log) ->
  (m ≫= k) root =
  match r with
  | Ret a => (fst (k a root), (log ++ snd (k a root))%list)
  | Raise e => (Raise e, log)
  end.
Proof. intros H. by rewrite bind_run, H. Qed.

Lemma bind_mret_fmap {A B} (m : M (option A)) (f : A -> B) root :
  (m ≫= fun o => mret (f <$> o)) root =
  match m root with
  | (Ret o, log) => (Ret (f <$> o), log)
  | (Raise e, log) => (Raise e, log)
  end.
Proof.
  rewrite bind_run. destruct (m root) as [[o|e] log]; [|done]. simpl. by rewrite app_nil_r.
Qed.

Lemma json_is_str_JStr s t : json_is_str s (JStr t) = String.eqb t s.
Proof. reflexivity. Qed.

Lemma integration_package_referenced fields root :
  optional_name (assoc "sdk" fields) = true ->
  optional_name (assoc "package" fields) = true ->
  integration_package (JObj fields) root =
  resolve_reference
    match field_str (JObj fields) "sdk" with
    | Some s => RefSdk s
    | None =>
        match field_str (JObj fields) "package" with
        | Some c => RefPackage c
        | None => RefNone
        end
    end root.
Proof.
  unfold integration_package, dict_get, getitem, field_str.
  intros Hs Hc.
  destruct (assoc "sdk" fields) as [[| | |s| |]|]; simpl in Hs; try done;
    rewrite bind_lift_Ret; cbn [truthy]; rewrite ?Hs; cbv iota;
    try (by rewrite bind_lift_Ret);
    (destruct (assoc "package" fields) as [[| | |c| |]|]; simpl in Hc; try done;
     rewrite bind_lift_Ret; cbn [truthy]; rewrite ?Hc; cbv iota;
     try done; by rewrite bind_lift_Ret).
Qed.

(** On a well-formed definition the branches of the code resolve the
    reference the specification describes and wrap the package found. *)
Lemma resolve_target_referenced data root :
  well_formed_definition data = true ->
  resolve_target data root =
  match resolve_reference (referenced data) root with
  | (Ret o, log) => (Ret (wrap_target data <$> o), log)
  | (Raise e, log) => (Raise e, log)
  end.
Proof.
  destruct data as [| | | | |fields]; try done. simpl.
  unfold resolve_target, referenced, wrap_target, field_str, getitem.
  destruct (assoc "type" fields) as [[| | |ty| |]|] eqn:Htype; try done.
  rewrite !bind_lift_Ret, json_is_str_JStr.
  destruct (String.eqb ty "sdk") eqn:Hsdk; simpl.
  { destruct (assoc "target" fields) as [[| | |t| |]|]; try done. intros _.
    rewrite bind_lift_Ret. simpl get_sdk_of_json.
    rewrite (bind_mret_fmap (get_sdk t "latest") TargetPackage).
    apply String.eqb_eq in Hsdk as ->. simpl.
    destruct (get_sdk t "latest" root) as [[o|e] log]; [|done].
    by destruct (assoc "integration" fields). }
  rewrite !bind_lift_Ret, json_is_str_JStr.
  destruct (String.eqb ty "package") eqn:Hpackage; simpl.
  { destruct (assoc "target" fields) as [[| | |t| |]|]; try done. intros _.
    rewrite bind_lift_Ret. simpl get_package_of_json.
    rewrite (bind_mret_fmap (get_package t "latest") TargetPackage).
    apply String.eqb_eq in Hpackage as ->. simpl.
    destruct (get_package t "latest" root) as [[o|e] log]; [|done].
    by destruct (assoc "integration" fields). }
  rewrite !bind_lift_Ret, json_is_str_JStr.
  destruct (String.eqb ty "integration") eqn:Hintegration; simpl.
  2:{ intros _. by destruct (assoc "integration" fields). }
  destruct (assoc "integration" fields) as [label|] eqn:Hlabel; [|done]. simpl.
  intros [Hs Hc]%andb_true_iff.
  rewrite bind_run, (integration_package_referenced fields root Hs Hc).
  unfold field_str.
  destruct (resolve_reference _ root) as [[[pkg|]|e] log]; simpl; try done;
    by rewrite app_nil_r.
Qed.

Lemma resolve_marketing_slug_loaded root slugs slug :
  lookup_path root "misc/marketing-slugs.json" = Ret (File (Json (JObj slugs))) ->
  run (resolve_marketing_slug slug) root =
  match assoc slug slugs with
  | None | Some JNull => Ret None
  | Some data =>
      match run (resolve_target data) root with
      | Ret target => Ret (Some {| definition := data; target := target |})
      | Raise e => Raise e
      end
  end.
Proof.
  intros Hslugs. unfold run, resolve_marketing_slug, get_marketing_slugs.
  change (_path ["misc"; "marketing-slugs.json"])
    with (Ret (A := string) "misc/marketing-slugs.json").
  rewrite bind_run, bind_lift_Ret. unfold open_json_load. rewrite Hslugs. simpl.
  destruct (assoc slug slugs) as [data|]; rewrite bind_lift_Ret; [|done].
  destruct data; try done; rewrite bind_run;
    by destruct (resolve_target _ root) as [[t|e] log].
Qed.

(** C6 (counterexample): the slug [bad] is in the mapping, with a definition
    of the right shape, and resolving it raises: no definition is returned. *)
Lemma present_slug_raises :
  dict_get slugs_document "bad"
    = Ret (JObj [("type", JStr "package"); ("target", JStr "npm:")]) /\
  well_formed_definition (JObj [("type", JStr "package"); ("target", JStr "npm:")]) = true /\
  run (resolve_marketing_slug "bad") slug_tree = Raise InvalidPathComponent.
Proof. repeat split; vm_compute; reflexivity. Qed.

(** C6 (amended): for a slug that is not in the mapping,
    [resolve_marketing_slug] returns [None].  For a slug with a well-formed
    definition it resolves the SDK or package the definition refers to: when
    that lookup returns, the result holds the raw definition, and its target
    is [None] exactly when the lookup found nothing (or the definition refers
    to nothing); when the lookup raises, [resolve_marketing_slug] raises the
    same exception and returns no definition. *)
Theorem slug_resolves_reference (root : node) (slugs : list (string * json)) (slug : string) :
  lookup_path root "misc/marketing-slugs.json" = Ret (File (Json (JObj slugs))) ->
  (assoc slug slugs = None -> run (resolve_marketing_slug slug) root = Ret None) /\
  (forall data,
      assoc slug slugs = Some data -> well_formed_definition data = true ->
      (forall o,
          run (resolve_reference (referenced data)) root = Ret o ->
          exists resolution,
            run (resolve_marketing_slug slug) root = Ret (Some resolution) /\
            definition resolution = data /\
            target resolution = wrap_target data <$> o /\
            (target resolution = None <-> o = None)) /\
      (forall e,
          run (resolve_reference (referenced data)) root = Raise e ->
          run (resolve_marketing_slug slug) root = Raise e)).
Proof.
  intros Hslugs. rewrite (resolve_marketing_slug_loaded _ _ _ Hslugs). split.
  - by intros ->.
  - intros data -> Hwf. unfold run.
    rewrite (resolve_target_referenced _ _ Hwf).
    destruct data; try done. split.
    + intros o Ho. destruct (resolve_reference _ root) as [[o'|e] log]; [|done].
      simpl in Ho. injection Ho as ->. simpl.
      eexists. split; [done|]. simpl. repeat split; by destruct o.
    + intros e He. destruct (resolve_reference _ root) as [[o'|e'] log]; [done|].
      simpl in He. by injection He as ->.
Qed.

Lemma slug_resolves_reference_witness :
  (exists resolution,
      run (resolve_marketing_slug "react") slug_tree = Ret (Some resolution) /\
      definition resolution = JObj [("type", JStr "sdk"); ("target", JStr "react")] /\
      target resolution
        = Some (TargetPackage
                  {| _data := JObj [("canonical", JStr "npm:react"); ("version", JStr "16.0.0")] |})) /\
  (exists resolution,
      run (resolve_marketing_slug "gone") slug_tree = Ret (Some resolution) /\
      target resolution = None) /\
  run (resolve_marketing_slug "absent") slug_tree = Ret None /\
  run (resolve_marketing_slug "bad") slug_tree = Raise InvalidPathComponent.
Proof.
  assert (lookup_path slug_tree "misc/marketing-slugs.json" = Ret (File (Json slugs_document)))
    as Hslugs by (vm_compute; reflexivity).
  split; [|split; [|split]].
  - destruct (slug_resolves_reference slug_tree _ "react" Hslugs) as [_ Hpresent].
    destruct (Hpresent _ eq_refl eq_refl) as [Hreturns _].
    destruct (Hreturns (Some {| _data := JObj [("canonical", JStr "npm:react");
                                               ("version", JStr "16.0.0")] |}))
      as (resolution & Hrun & Hdef & Htarget & _); [vm_compute; reflexivity|].
    exists resolution. repeat split; [exact Hrun|exact Hdef|by rewrite Htarget].
  - destruct (slug_resolves_reference slug_tree _ "gone" Hslugs) as [_ Hpresent].
    destruct (Hpresent _ eq_refl eq_refl) as [Hreturns _].
    destruct (Hreturns None) as (resolution & Hrun & _ & _ & Hnone); [vm_compute; reflexivity|].
    exists resolution. split; [exact Hrun|by apply Hnone].
  - by apply (slug_resolves_reference slug_tree _ "absent" Hslugs).
  - destruct (slug_resolves_reference slug_tree _ "bad" Hslugs) as [_ Hpresent].
    destruct (Hpresent _ eq_refl eq_refl) as [_ Hraises].
    apply Hraises. vm_compute. reflexivity.
Defined.

(** * Further properties of the registry and of the views *)

(** ** Segments and slashes *)

Lemma append_assoc (a b c : string) : (a ++ b) ++ c = a ++ (b ++ c).
Proof.
  induction a as [|x a IH]; [reflexivity|].
  change (String x ((a ++ b) ++ c) = String x (a ++ (b ++ c))). by rewrite IH.
Qed.

Lemma contains_append sep a b :
  Str.contains sep (a ++ b) = Str.contains sep a || Str.contains sep b.
Proof.
  induction a as [|x a IH]; simpl; [done|]. by rewrite IH, orb_assoc.
Qed.

Lemma join_merge (xs ys : list string) (a b : string) :
  Str.join "/" (xs ++ a :: b :: ys) = Str.join "/" (xs ++ (a ++ "/" ++ b) :: ys).
Proof.
  unfold Str.join. induction xs as [|x xs IH].
  - destruct ys as [|y ys]; simpl; [done|]. by rewrite !append_assoc.
  - change ((x :: xs) ++ a :: b :: ys)%list with (x :: (xs ++ a :: b :: ys))%list.
    change ((x :: xs) ++ (a ++ "/" ++ b)%string :: ys)%list
      with (x :: (xs ++ (a ++ "/" ++ b)%string :: ys))%list.
    destruct xs as [|x' xs]; simpl in *; by rewrite IH.
Qed.

Lemma validate_path_component_merge (a b : string) :
  validate_path_component (a ++ "/" ++ b) = Ret tt <->
  validate_path_component a = Ret tt /\ validate_path_component b = Ret tt.
Proof.
  rewrite !validate_path_component_Ret.
  change (a ++ "/" ++ b) with (a ++ String "/" b).
  by rewrite split_app, Forall_app.
Qed.

Lemma validate_args_merge (xs ys : list string) (a b : string) :
  validate_args (xs ++ a :: b :: ys) = validate_args (xs ++ (a ++ "/" ++ b) :: ys).
Proof.
  assert (validate_args (xs ++ a :: b :: ys) = Ret tt <->
          validate_args (xs ++ (a ++ "/" ++ b) :: ys) = Ret tt) as Hiff.
  { rewrite !validate_args_Ret, !Forall_app, !Forall_cons, validate_path_component_merge.
    tauto. }
  destruct (validate_args_cases (xs ++ a :: b :: ys)) as [H1|H1],
           (validate_args_cases (xs ++ (a ++ "/" ++ b) :: ys)) as [H2|H2];
    rewrite H1, H2; try done.
  - apply Hiff in H1. congruence.
  - apply Hiff in H2. congruence.
Qed.

Lemma _path_merge (xs ys : list string) (a b : string) :
  _path (xs ++ a :: b :: ys) = _path (xs ++ (a ++ "/" ++ b) :: ys).
Proof.
  unfold _path, os_path_join. by rewrite validate_args_merge, join_merge.
Qed.

(** X1: two adjacent segments and the one segment made of them with a slash
    are the same to [_path]: the same path, or [InvalidPathComponent] in both
    cases. *)
Theorem _path_merges_segments (xs ys : list string) (a b : string) :
  _path (xs ++ a :: b :: ys) = _path (xs ++ (a ++ "/" ++ b) :: ys).
Proof.
  unfold _path. rewrite (validate_args_merge xs ys a b).
  destruct (validate_args_cases (xs ++ (a ++ "/" ++ b)%string :: ys)) as [-> | ->];
    [|reflexivity].
  simpl. f_equal. apply join_merge.
Qed.

(** X2: a version with a slash reaches below the package directory: the
    package [p] at version [q/v] is the package [p/q] at version [v]. *)
Theorem get_package_version_reaches_into_namespace
    (registry p q v : string) (root : node) :
  Str.contains ":" registry = false ->
  get_package (registry ++ ":" ++ p) (q ++ "/" ++ v) root =
  get_package (registry ++ ":" ++ p ++ "/" ++ q) v root.
Proof.
  intros Hcolon.
  assert (forall rest, Str.split_once ":" (registry ++ ":" ++ rest) = Some (registry, rest))
    as Hsplit by (intros rest; by apply split_once_Some).
  rewrite (get_package_split _ _ _ _ _ (Hsplit p)).
  rewrite (get_package_split _ _ _ _ _ (Hsplit (p ++ "/" ++ q))).
  assert (json_filename (q ++ "/" ++ v) = q ++ "/" ++ json_filename v) as ->.
  { unfold json_filename. by rewrite !append_assoc. }
  pose proof (_path_merge ["packages"; registry; p] [] q (json_filename v)) as H1.
  pose proof (_path_merge ["packages"; registry] [json_filename v] p q) as H2.
  cbn [app] in H1, H2. by rewrite <- H1, H2.
Qed.

Lemma get_package_version_reaches_into_namespace_witness :
  get_package "python:sentry-sdk" "flask/1.0.0" sentry_sdk_tree =
  get_package "python:sentry-sdk/flask" "1.0.0" sentry_sdk_tree /\
  run (get_package "python:sentry-sdk" "flask/1.0.0") sentry_sdk_tree =
  Ret (Some {| _data := JObj [("canonical", JStr "python:sentry-sdk/flask");
                              ("version", JStr "1.0.0")] |}).
Proof.
  split; [|vm_compute; reflexivity].
  apply (get_package_version_reaches_into_namespace "python" "sentry-sdk" "flask" "1.0.0").
  reflexivity.
Defined.

Lemma json_filename_valid version :
  Str.contains "/" version = false ->
  validate_path_component (json_filename version) = Ret tt.
Proof.
  intros Hslash. apply validate_path_component_Ret. unfold json_filename.
  rewrite split_no_sep by (by rewrite contains_append, Hslash).
  apply Forall_singleton.
  assert (forall s, String.length s < 5 -> version ++ ".json" <> s) as Hlen.
  { intros s Hs Heq. apply (f_equal String.length) in Heq.
    rewrite length_append in Heq. simpl in Heq. lia. }
  repeat split; apply Hlen; simpl; lia.
Qed.

(** X3: a version without a slash is never rejected, not even the empty
    version, [.] or [..]: the segment that is validated is the file name
    [<version>.json].  With a valid registry and package part, [get_package]
    then opens exactly that file and does not raise [InvalidPathComponent]. *)
Theorem slash_free_version_is_accepted
    (canonical registry package version : string) (root : node) :
  Str.split_once ":" canonical = Some (registry, package) ->
  validate_path_component registry = Ret tt ->
  validate_path_component package = Ret tt ->
  Str.contains "/" version = false ->
  accesses (get_package canonical version) root
    = [Open (os_path_join ["packages"; registry; package; json_filename version])] /\
  run (get_package canonical version) root <> Raise InvalidPathComponent.
Proof.
  intros Hsplit Hregistry Hpackage Hslash. unfold accesses, run.
  rewrite (get_package_split _ _ _ _ _ Hsplit).
  rewrite _path_Ret by (repeat constructor; auto using json_filename_valid).
  simpl. split; [done|]. unfold load_or_None.
  destruct (lookup_path root _) as [[[doc| |]|entries|]|e]; done.
Qed.

Lemma slash_free_version_is_accepted_witness :
  accesses (get_package "npm:left-pad" "..") (Dir ∅)
    = [Open "packages/npm/left-pad/...json"] /\
  run (get_package "npm:left-pad" "..") (Dir ∅) <> Raise InvalidPathComponent.
Proof.
  apply (slash_free_version_is_accepted "npm:left-pad" "npm" "left-pad" ".." (Dir ∅));
    reflexivity.
Defined.

(** ** Apps *)

(** The whole behaviour of [get_app] on valid segments. *)
Lemma get_app_path app_id version path root :
  _path ["apps"; app_id; json_filename version] = Ret path ->
  get_app app_id version root =
  (match load_or_None root path with
   | Ret (Some JNull) | Ret None => Ret None
   | Ret (Some doc) => Ret (Some doc)
   | Raise e => Raise e
   end, [Open path]).
Proof.
  intros Hpath. unfold get_app. unfold try_except_OSError at 1.
  rewrite Hpath, bind_lift_Ret.
  pose proof (try_open_json_load path
                (fun doc => mret (match doc with JNull => None | _ => Some doc end)) root) as H.
  unfold try_except_OSError in H at 1. rewrite H.
  destruct (load_or_None root path) as [[doc|]|e]; try done. by destruct doc.
Qed.

(** [get_app] never lets a filesystem error out. *)
Lemma get_app_no_OSError app_id version root e :
  run (get_app app_id version) root = Raise e -> is_OSError e = false.
Proof.
  unfold run.
  destruct (_path_cases ["apps"; app_id; json_filename version]) as [Hpath|Hpath].
  - rewrite (get_app_path _ _ _ _ Hpath). simpl. unfold load_or_None.
    destruct (lookup_path root _) as [[[doc| |]|entries|]|e']; simpl; try done.
    + by destruct doc.
    + by intros [= <-].
    + by intros [= <-].
  - unfold get_app, try_except_OSError. rewrite Hpath, bind_lift_Raise. simpl.
    by intros [= <-].
Qed.

Lemma get_app_cases (app_id version path : string) (root : node) :
  _path ["apps"; app_id; json_filename version] = Ret path ->
  accesses (get_app app_id version) root = [Open path] /\
  (forall doc, run (get_app app_id version) root = Ret (Some doc) <->
               lookup_path root path = Ret (File (Json doc)) /\ doc <> JNull) /\
  (run (get_app app_id version) root = Ret None <->
   lookup_path root path = Ret (File (Json JNull)) \/
   forall c, lookup_path root path <> Ret (File c)) /\
  (forall e, run (get_app app_id version) root = Raise e <->
             (e = JSONDecodeError /\ lookup_path root path = Ret (File Garbage)) \/
             (e = UnicodeDecodeError /\ lookup_path root path = Ret (File Binary))).
Proof.
  intros Hpath. unfold accesses, run. rewrite (get_app_path _ _ _ _ Hpath). simpl.
  unfold load_or_None.
  split; [done|].
  destruct (lookup_path root path) as [[[doc| |]|entries|]|e']; [destruct doc| | | | |];
    simpl; split_and!; try intros ?; try naive_solver.
Qed.

(** X4: on valid segments without a NUL byte [get_app] opens the one file
    [apps/<app_id>/<version>.json]; it returns the document of that file
    unless the document is [null]; it returns [None] for a [null] document
    and whenever there is no file to open at that path; and it raises
    exactly when the content of the file cannot be loaded:
    [JSONDecodeError] for text that is not JSON, [UnicodeDecodeError] for
    bytes that are not text.  (On a path with a NUL byte [open] raises
    [ValueError] before it looks at the filesystem; the trees here have no
    such paths, hence the hypothesis.) *)
Theorem get_app_outcomes (app_id version path : string) (root : node) :
  _path ["apps"; app_id; json_filename version] = Ret path ->
  Str.contains "000" path = false ->
  accesses (get_app app_id version) root = [Open path] /\
  (forall doc, run (get_app app_id version) root = Ret (Some doc) <->
               lookup_path root path = Ret (File (Json doc)) /\ doc <> JNull) /\
  (run (get_app app_id version) root = Ret None <->
   lookup_path root path = Ret (File (Json JNull)) \/
   forall c, lookup_path root path <> Ret (File c)) /\
  (forall e, run (get_app app_id version) root = Raise e <->
             (e = JSONDecodeError /\ lookup_path root path = Ret (File Garbage)) \/
             (e = UnicodeDecodeError /\ lookup_path root path = Ret (File Binary))).
Proof.
  intros Hpath _. unfold accesses, run. rewrite (get_app_path _ _ _ _ Hpath). simpl.
  unfold load_or_None.
  split; [done|].
  destruct (lookup_path root path) as [[[doc| |]|entries|]|e']; [destruct doc| | | | |];
    simpl; split_and!; try intros ?; try naive_solver.
Qed.

Lemma get_app_outcomes_witness :
  run (get_app "empty" "latest") app_tree = Ret None /\
  run (get_app "sentry-cli" "latest") app_tree = Ret (Some app_record).
Proof.
  split.
  - destruct (get_app_outcomes "empty" "latest" "apps/empty/latest.json" app_tree)
      as (_ & _ & Hnone & _); [reflexivity|reflexivity|].
    apply Hnone. left. vm_compute. reflexivity.
  - destruct (get_app_outcomes "sentry-cli" "latest" "apps/sentry-cli/latest.json" app_tree)
      as (_ & Hdoc & _); [reflexivity|reflexivity|].
    apply Hdoc. split; [vm_compute; reflexivity|discriminate].
Defined.

(** A loop that stores under each name what a lookup of the name finds. *)
Section ListingLoop.
Context {V : Type} (get : string -> M (option V)).
Context (step : gmap string V -> string -> M (gmap string V)).
Hypothesis step_get : forall rv link root,
  step rv link root =
  (match run (get link) root with
   | Ret (Some v) => Ret (<[link := v]> rv)
   | Ret None => Ret rv
   | Raise e => Raise e
   end, accesses (get link) root).

Lemma listing_loop_returns links rv root :
  (forall link, link ∈ links -> exists o, run (get link) root = Ret o) ->
  exists listing,
    run (foldM step rv links) root = Ret listing /\
    forall link v,
      listing !! link = Some v <->
      (link ∈ links /\ run (get link) root = Ret (Some v)) \/
      (~ (link ∈ links /\ exists p, run (get link) root = Ret (Some p)) /\
       rv !! link = Some v).
Proof.
  revert rv. induction links as [|l links IH]; intros rv Hreturns; simpl.
  - exists rv. split; [done|]. intros link v. split.
    + intros H. right. split; [|done]. intros [Hin _]. by inversion Hin.
    + intros [[Hin _]|[_ H]]; [by inversion Hin|done].
  - destruct (Hreturns l (list_elem_of_here _ _)) as [o Ho].
    set (rv' := match o with Some v => <[l := v]> rv | None => rv end).
    destruct (IH rv') as (listing & Hfold & Hlisting).
    { intros link Hlink. by apply Hreturns, list_elem_of_further. }
    exists listing. split.
    { unfold run in *. rewrite bind_run, step_get. unfold run. rewrite Ho.
      destruct o as [v|]; subst rv'; simpl; exact Hfold. }
    intros link v. rewrite Hlisting. split.
    + intros [[Hin Hrun]|[Hnot Hrv']].
      * left. split; [by apply list_elem_of_further|done].
      * destruct (decide (link = l)) as [->|Hne].
        -- destruct o as [p|]; subst rv'.
           ++ rewrite lookup_insert_eq in Hrv'. injection Hrv' as <-.
              left. split; [apply list_elem_of_here|done].
           ++ right. split; [|done].
              intros [_ [p Hp]]. rewrite Ho in Hp. done.
        -- right. split.
           ++ intros [[?|Hin]%elem_of_cons Hp]; [done|]. by apply Hnot.
           ++ destruct o as [p|]; subst rv'; [by rewrite lookup_insert_ne in Hrv'|done].
    + intros [[[->|Hin]%elem_of_cons Hrun]|[Hnot Hrv]].
      * destruct (decide (l ∈ links)) as [Hin|Hnotin]; [by left|].
        right. split; [by intros [? _]|].
        rewrite Ho in Hrun. injection Hrun as ->. subst rv'. apply lookup_insert_eq.
      * by left.
      * right. split.
        -- intros [Hin Hp]. apply Hnot. split; [by apply list_elem_of_further|done].
        -- destruct (decide (link = l)) as [->|Hne].
           ++ destruct o as [p|]; subst rv'; [|done].
              exfalso. apply Hnot. split; [apply list_elem_of_here|by exists p].
           ++ destruct o as [p|]; subst rv'; [by rewrite lookup_insert_ne|done].
Qed.

(** When a lookup fails the loop raises, with the exception of one of the
    failing lookups. *)
Lemma listing_loop_raises (P : exn -> Prop) links rv root link e :
  link ∈ links -> run (get link) root = Raise e ->
  (forall l e', l ∈ links -> run (get l) root = Raise e' -> P e') ->
  exists e', P e' /\ run (foldM step rv links) root = Raise e'.
Proof.
  intros Hin Hraise Honly. revert rv.
  induction links as [|l links IH]; intros rv; [by inversion Hin|].
  unfold run. simpl. rewrite bind_run, step_get.
  destruct (run (get l) root) as [o|e'] eqn:Hl.
  - apply elem_of_cons in Hin as [->|Hin]; [congruence|].
    assert (forall rv', exists e', P e' /\ run (foldM step rv' links) root = Raise e') as Hrest.
    { apply IH; [done|]. intros l' e' Hl'. apply Honly. by apply list_elem_of_further. }
    destruct o as [v|]; simpl; apply Hrest.
  - simpl. exists e'. split; [|done]. apply (Honly l); [apply list_elem_of_here|done].
Qed.
End ListingLoop.

Lemma add_app_get_app rv link root :
  add_app rv link root =
  (match run (get_app link "latest") root with
   | Ret (Some app) => Ret (<[link := app]> rv)
   | Ret None => Ret rv
   | Raise e => Raise e
   end, accesses (get_app link "latest") root).
Proof.
  unfold add_app, try_except_OSError, run, accesses. rewrite bind_run.
  pose proof (get_app_no_OSError link "latest" root) as Hno. unfold run in Hno.
  destruct (get_app link "latest" root) as [[[app|]|e] log]; simpl in *;
    rewrite ?app_nil_r; try done.
  by rewrite (Hno e eq_refl).
Qed.

Lemma get_apps_listed root links :
  lookup_path root "apps" = Ret (Dir links) ->
  run get_apps root = run (foldM add_app ∅ (names links)) root.
Proof.
  intros Happs. unfold run, get_apps.
  change (_path ["apps"]) with (Ret (A := string) "apps").
  rewrite bind_lift_Ret, bind_run. unfold os_listdir. rewrite Happs. by simpl.
Qed.

Lemma app_link_path link :
  is_entry_name link = true ->
  _path ["apps"; link; json_filename "latest"]
    = Ret (os_path_join ["apps"; link; "latest.json"]).
Proof.
  intros Hlink. apply _path_Ret. repeat constructor.
  by apply validate_path_component_entry_name.
Qed.

(** X5: [get_apps] maps every app directory whose [latest.json] holds a
    document other than [null] to that document, and skips the directories
    without such a file.  A [latest.json] whose content cannot be loaded
    (text that is not JSON, or bytes that are not text) is not skipped: it
    fails the whole listing with the decoding error of such a file, so the
    [except] clause of the loop never runs ([get_app] has caught the
    filesystem errors itself). *)
Theorem app_listing (root : node) (links : gmap string node) :
  lookup_path root "apps" = Ret (Dir links) ->
  (forall link, is_Some (links !! link) -> is_entry_name link = true) ->
  ((forall link, is_Some (links !! link) ->
       lookup_path root (os_path_join ["apps"; link; "latest.json"]) <> Ret (File Garbage) /\
       lookup_path root (os_path_join ["apps"; link; "latest.json"]) <> Ret (File Binary)) ->
   exists apps,
     run get_apps root = Ret apps /\
     forall link doc,
       apps !! link = Some doc <->
       is_Some (links !! link) /\
       lookup_path root (os_path_join ["apps"; link; "latest.json"]) = Ret (File (Json doc)) /\
       doc <> JNull) /\
  (forall link, is_Some (links !! link) ->
     lookup_path root (os_path_join ["apps"; link; "latest.json"]) = Ret (File Garbage) \/
     lookup_path root (os_path_join ["apps"; link; "latest.json"]) = Ret (File Binary) ->
     run get_apps root = Raise JSONDecodeError \/
     run get_apps root = Raise UnicodeDecodeError).
Proof.
  intros Happs Hnames. rewrite (get_apps_listed _ _ Happs).
  assert (forall link, is_Some (links !! link) ->
            _path ["apps"; link; json_filename "latest"]
              = Ret (os_path_join ["apps"; link; "latest.json"])) as Hpath
    by (intros link Hlink; by apply app_link_path, Hnames).
  split.
  - intros Hjson.
    destruct (listing_loop_returns (fun link => get_app link "latest") add_app
                add_app_get_app (names links) ∅ root) as (apps & Hrun & Happs').
    { intros link Hlink%elem_of_names.
      destruct (run (get_app link "latest") root) as [o|e] eqn:E; [by exists o|].
      destruct (Hjson link Hlink) as [Hgarbage Hbinary].
      apply (get_app_cases _ _ _ _ (Hpath link Hlink)) in E as [[_ E]|[_ E]]; done. }
    exists apps. split; [done|]. intros link doc. rewrite Happs', elem_of_names.
    split.
    + intros [[Hlink Hdoc]|[_ Hempty]]; [|by rewrite lookup_empty in Hempty].
      split; [done|]. by apply (get_app_cases _ _ _ _ (Hpath link Hlink)).
    + intros (Hlink & Hdoc). left. split; [done|].
      by apply (get_app_cases _ _ _ _ (Hpath link Hlink)).
  - intros link Hlink Hundecodable.
    destruct (listing_loop_raises (fun link => get_app link "latest") add_app
                add_app_get_app (fun e => e = JSONDecodeError \/ e = UnicodeDecodeError)
                (names links) ∅ root link
                (match lookup_path root (os_path_join ["apps"; link; "latest.json"]) with
                 | Ret (File Binary) => UnicodeDecodeError
                 | _ => JSONDecodeError
                 end)) as (e & [-> | ->] & Hrun); [| | |by left|by right].
    + by apply elem_of_names.
    + apply (get_app_cases _ _ _ _ (Hpath link Hlink)).
      destruct Hundecodable as [-> | ->]; [by left|by right].
    + intros l e' Hl%elem_of_names He'.
      apply (get_app_cases _ _ _ _ (Hpath l Hl)) in He' as [[-> _]|[-> _]]; [by left|by right].
Qed.

Lemma app_listing_witness :
  (exists apps, run get_apps app_tree = Ret apps /\
                apps !! "sentry-cli" = Some app_record /\
                apps !! "empty" = None /\ apps !! "bare" = None) /\
  (run get_apps broken_app_tree = Raise JSONDecodeError \/
   run get_apps broken_app_tree = Raise UnicodeDecodeError).
Proof.
  assert (forall l : list (string * node),
            Forall (fun kv => is_entry_name (fst kv) = true) l ->
            forall link, is_Some (list_to_map (M := gmap string node) l !! link) ->
                         is_entry_name link = true) as Hnames.
  { intros l Hl link [n Hn]. apply elem_of_list_to_map_2 in Hn.
    rewrite Forall_forall in Hl. exact (Hl _ Hn). }
  split.
  - destruct (app_listing app_tree (list_to_map app_links)) as [Hreturns _];
      [reflexivity|apply Hnames; by repeat constructor|].
    destruct Hreturns as (apps & Hrun & Happs).
    { intros link [n Hn]. apply elem_of_list_to_map_2 in Hn. unfold app_links in Hn.
      repeat (apply elem_of_cons in Hn as [[= -> ->]|Hn];
              [split; vm_compute; discriminate|]).
      by inversion Hn. }
    exists apps. split; [exact Hrun|]. split; [|split].
    + apply (proj2 (Happs "sentry-cli" app_record)).
      split; [eexists; vm_compute; reflexivity|].
      split; [vm_compute; reflexivity|discriminate].
    + apply eq_None_not_Some. intros [doc Hdoc].
      apply (proj1 (Happs "empty" doc)) in Hdoc as (_ & Hfile & Hnull).
      vm_compute in Hfile. injection Hfile as <-. exact (Hnull eq_refl).
    + apply eq_None_not_Some. intros [doc Hdoc].
      apply (proj1 (Happs "bare" doc)) in Hdoc as (_ & Hfile & _).
      vm_compute in Hfile. discriminate Hfile.
  - destruct (app_listing broken_app_tree
                (list_to_map (("broken", Dir {["latest.json" := File Garbage]}) :: app_links)))
      as [_ Hraises]; [reflexivity|apply Hnames; by repeat constructor|].
    apply (Hraises "broken"); [eexists; vm_compute; reflexivity|].
    left. vm_compute. reflexivity.
Defined.

(** ** SDK links at any version *)

Lemma get_sdk_unlinked sdk_id version root :
  is_entry_name sdk_id = true ->
  (forall c, lookup_path root (os_path_join ["sdks"; sdk_id; "latest.json"]) <> Ret (File c)) ->
  get_sdk sdk_id version root = (Ret None, [Open (os_path_join ["sdks"; sdk_id; "latest.json"])]).
Proof.
  intros Hname Hnofile. rewrite (get_sdk_link _ _ _ Hname). unfold load_or_None.
  destruct (lookup_path root _) as [[c|entries|]|e] eqn:E; try done.
  by destruct (Hnofile c).
Qed.

Lemma get_sdk_linked sdk_id version root doc canonical :
  is_entry_name sdk_id = true ->
  lookup_path root (os_path_join ["sdks"; sdk_id; "latest.json"]) = Ret (File (Json doc)) ->
  getitem doc "canonical" = Ret (JStr canonical) ->
  run (get_sdk sdk_id version) root = run (get_package canonical version) root /\
  accesses (get_sdk sdk_id version) root =
    Open (os_path_join ["sdks"; sdk_id; "latest.json"])
      :: accesses (get_package canonical version) root.
Proof.
  intros Hname Hfile Hcanonical. unfold run, accesses.
  rewrite (get_sdk_link _ _ _ Hname). unfold load_or_None.
  rewrite Hfile, Hcanonical. simpl get_package_of_json.
  pose proof (get_package_no_OSError canonical version root) as Hno. unfold run in Hno.
  destruct (get_package canonical version root) as [[o|e] log]; [done|].
  simpl in *. by rewrite (Hno e eq_refl).
Qed.

(** X6: [get_sdk] reads the link file before it looks at the version.  When
    there is no file to open at [sdks/<sdk_id>/latest.json] the answer is
    [None] for every version, also for one that [get_package] would reject.
    When the link file names a canonical identifier, [get_sdk] is
    [get_package] of that identifier at the same version, after the one
    access to the link file. *)
Theorem get_sdk_follows_link (sdk_id version : string) (root : node) :
  is_entry_name sdk_id = true ->
  ((forall c, lookup_path root (os_path_join ["sdks"; sdk_id; "latest.json"]) <> Ret (File c)) ->
   get_sdk sdk_id version root = (Ret None, [Open (os_path_join ["sdks"; sdk_id; "latest.json"])])) /\
  (forall doc canonical,
     lookup_path root (os_path_join ["sdks"; sdk_id; "latest.json"]) = Ret (File (Json doc)) ->
     getitem doc "canonical" = Ret (JStr canonical) ->
     run (get_sdk sdk_id version) root = run (get_package canonical version) root /\
     accesses (get_sdk sdk_id version) root =
       Open (os_path_join ["sdks"; sdk_id; "latest.json"])
         :: accesses (get_package canonical version) root).
Proof.
  intros Hname. split.
  - by apply get_sdk_unlinked.
  - intros doc canonical. by apply get_sdk_linked.
Qed.

Lemma get_sdk_follows_link_witness :
  get_sdk "orphan" ".." sdk_tree = (Ret None, [Open "sdks/orphan/latest.json"]) /\
  run (get_sdk "react" "latest") sdk_tree = run (get_package "npm:react" "latest") sdk_tree /\
  accesses (get_sdk "react" "latest") sdk_tree =
    Open "sdks/react/latest.json" :: accesses (get_package "npm:react" "latest") sdk_tree.
Proof.
  split.
  - destruct (get_sdk_follows_link "orphan" ".." sdk_tree) as [Hnone _]; [reflexivity|].
    apply Hnone. intros c. vm_compute. discriminate.
  - destruct (get_sdk_follows_link "react" "latest" sdk_tree) as [_ Hlink]; [reflexivity|].
    apply (Hlink (JObj [("canonical", JStr "npm:react")])); vm_compute; reflexivity.
Defined.

(** ** The directories and the file at the top *)

Lemma listdir_fails {A} (path : string) (k : list string -> M A) root e :
  run (os_listdir path) root = Raise e ->
  run (os_listdir path ≫= k) root = Raise e.
Proof.
  unfold run. rewrite bind_run. unfold os_listdir. simpl. intros H. by rewrite H.
Qed.

(** X7: the listings do not guard the directory they start from.  When
    [sdks], [apps] or [packages] cannot be listed (it is missing, is a file
    or is refused), [get_sdks], [get_apps], the package walk and
    [get_packages] raise the error of the listing; none of them returns an
    empty result. *)
Theorem listing_roots_unguarded (root : node) (e : exn) :
  (run (os_listdir "sdks") root = Raise e -> run get_sdks root = Raise e) /\
  (run (os_listdir "apps") root = Raise e -> run get_apps root = Raise e) /\
  (run (os_listdir "packages") root = Raise e ->
   run iter_packages root = Raise e /\ run get_packages root = Raise e).
Proof.
  split_and!; intros H; [| |split].
  - unfold get_sdks. change (_path ["sdks"]) with (Ret (A := string) "sdks").
    unfold run. rewrite bind_lift_Ret. by apply listdir_fails.
  - unfold get_apps. change (_path ["apps"]) with (Ret (A := string) "apps").
    unfold run. rewrite bind_lift_Ret. by apply listdir_fails.
  - unfold iter_packages. change (_path ["packages"]) with (Ret (A := string) "packages").
    unfold run. rewrite bind_lift_Ret. by apply listdir_fails.
  - unfold get_packages, for_iter_packages.
    change (_path ["packages"]) with (Ret (A := string) "packages").
    unfold run. rewrite bind_lift_Ret. by apply listdir_fails.
Qed.

Lemma listing_roots_unguarded_witness :
  run get_sdks (Dir ∅) = Raise (OSError ENOENT) /\
  run get_apps (Dir {["apps" := File Garbage]}) = Raise (OSError ENOTDIR) /\
  run iter_packages (Dir {["packages" := Denied]}) = Raise (OSError EACCES) /\
  run get_packages (Dir {["packages" := Denied]}) = Raise (OSError EACCES).
Proof.
  split; [|split].
  - by apply (listing_roots_unguarded (Dir ∅) (OSError ENOENT)).
  - by apply (listing_roots_unguarded (Dir {["apps" := File Garbage]}) (OSError ENOTDIR)).
  - by apply (listing_roots_unguarded (Dir {["packages" := Denied]}) (OSError EACCES)).
Defined.

(** X8: without a readable slug file nothing about slugs is answered.  The
    error of opening [misc/marketing-slugs.json] (a filesystem error) or of
    loading it ([JSONDecodeError] for text that is not JSON,
    [UnicodeDecodeError] for bytes that are not text) is the outcome of
    resolving any slug, of the view that resolves a slug and of the view
    that lists the slugs: a slug is never reported as not found then.  A
    slug file whose document is not an object fails in the same way, on the
    missing method. *)
Theorem slug_file_failure (slug : string) (root : node) :
  (forall e, run get_marketing_slugs root = Raise e ->
     (e = JSONDecodeError \/ e = UnicodeDecodeError \/ is_OSError e = true) /\
     run (resolve_marketing_slug slug) root = Raise e /\
     run (Routes.resolve_marketing_slugs slug) root = Raise e /\
     run Routes.get_marketing_slugs root = Raise e) /\
  (forall doc, run get_marketing_slugs root = Ret doc ->
     (forall fields, doc <> JObj fields) ->
     run (resolve_marketing_slug slug) root = Raise AttributeError /\
     run (Routes.resolve_marketing_slugs slug) root = Raise AttributeError /\
     run Routes.get_marketing_slugs root = Raise AttributeError).
Proof.
  unfold Routes.resolve_marketing_slugs, Routes.get_marketing_slugs, resolve_marketing_slug, run.
  split.
  - intros e He. rewrite !bind_run. split.
    + unfold get_marketing_slugs in He.
      change (_path ["misc"; "marketing-slugs.json"])
        with (Ret (A := string) "misc/marketing-slugs.json") in He.
      rewrite bind_lift_Ret in He. unfold open_json_load in He. simpl in He.
      destruct (lookup_path root _) as [[[doc| |]|entries|]|e'] eqn:E;
        [discriminate He| | | | |]; injection He as <-;
        [by left|by right; left|by right; right|by right; right
        |right; right; exact (walk_Raise _ _ _ E)].
    + destruct (get_marketing_slugs root) as [[doc|e'] log]; simpl in *; [done|].
      by injection He as ->.
  - intros doc Hdoc Hobj. rewrite !bind_run.
    destruct (get_marketing_slugs root) as [[doc'|e'] log]; simpl in *; [|done].
    injection Hdoc as ->.
    destruct doc as [| | | | |fields]; try done. by destruct (Hobj fields).
Qed.

Lemma slug_file_failure_witness :
  run (Routes.resolve_marketing_slugs "react") sdk_tree = Raise (OSError ENOENT) /\
  run (Routes.resolve_marketing_slugs "react")
      (Dir {["misc" := Dir {["marketing-slugs.json" := File (Json (JArr []))]}]})
    = Raise AttributeError.
Proof.
  split.
  - destruct (slug_file_failure "react" sdk_tree) as [Hraise _].
    apply (Hraise (OSError ENOENT)). vm_compute. reflexivity.
  - destruct (slug_file_failure "react"
                (Dir {["misc" := Dir {["marketing-slugs.json" := File (Json (JArr []))]}]}))
      as [_ Hshape].
    apply (Hshape (JArr [])); [vm_compute; reflexivity|discriminate].
Defined.

(** ** The package listing *)

Lemma run_bind {A B} (m : M A) (k : A -> M B) root :
  run (m ≫= k) root =
  match run m root with
  | Ret a => run (k a) root
  | Raise e => Raise e
  end.
Proof. unfold run. rewrite bind_run. by destruct (m root) as [[a|e] log]. Qed.

(** A loop over the identifiers a generator yields, run in step with the
    generator, gives what the loop gives on the list of the identifiers. *)
Section Consumer.
Context {B : Type} (body : B -> string -> M B) (root : node).

Lemma run_foldM_app acc xs ys :
  run (foldM body acc (xs ++ ys)) root =
  match run (foldM body acc xs) root with
  | Ret acc' => run (foldM body acc' ys) root
  | Raise e => Raise e
  end.
Proof.
  revert acc. induction xs as [|x xs IH]; intros acc; simpl; [done|].
  rewrite !run_bind. destruct (run (body acc x) root) as [acc'|e]; [apply IH|done].
Qed.

Lemma run_foldM_map (f : string -> string) acc xs :
  run (foldM (fun acc x => body acc (f x)) acc xs) root = run (foldM body acc (map f xs)) root.
Proof.
  revert acc. induction xs as [|x xs IH]; intros acc; simpl; [done|].
  rewrite !run_bind. destruct (run (body acc (f x)) root) as [acc'|e]; [apply IH|done].
Qed.

Lemma run_foldM_bind {A} (step : B -> A -> M B) (g : A -> list string) xs :
  (forall x acc, x ∈ xs -> run (step acc x) root = run (foldM body acc (g x)) root) ->
  forall acc, run (foldM step acc xs) root = run (foldM body acc (xs ≫= g)) root.
Proof.
  induction xs as [|x xs IH]; intros Hstep acc; [done|].
  change ((x :: xs) ≫= g) with (g x ++ (xs ≫= g))%list.
  simpl. rewrite run_bind, run_foldM_app, (Hstep x acc) by apply list_elem_of_here.
  destruct (run (foldM body acc (g x)) root) as [acc'|e]; [|done].
  apply IH. intros y acc'' Hy. apply Hstep. by apply list_elem_of_further.
Qed.

Section ConsumerRegistry.
Context (package_registry : string) (items : gmap string node).
Hypothesis registry_name : is_entry_name package_registry = true.
Hypothesis registry_listed :
  lookup_path root (os_path_join ["packages"; package_registry]) = Ret (Dir items).
Hypothesis item_names : forall item, is_Some (items !! item) -> is_entry_name item = true.

Lemma for_item_run acc item n :
  items !! item = Some n ->
  run (for_item body package_registry acc item) root
    = run (foldM body acc (item_ids package_registry item n)) root.
Proof.
  intros Hitem. assert (is_entry_name item = true) as Hname
    by (apply item_names; by rewrite Hitem).
  pose proof (lookup_item _ _ _ registry_listed item_names _ _ Hitem) as Hlookup.
  unfold run, for_item.
  change ["packages"; package_registry; item; "__NAMESPACE__"]
    with (["packages"; package_registry; item] ++ ["__NAMESPACE__"])%list.
  rewrite (_path_snoc _ _ "__NAMESPACE__" (item_path _ registry_name item Hname) eq_refl),
    bind_lift_Ret, bind_run.
  unfold os_path_exists. rewrite lookup_path_snoc, Hlookup by done.
  unfold item_ids.
  assert (fst (body acc (package_id package_registry item) root)
          = fst (foldM body acc [package_id package_registry item] root)) as Hone.
  { simpl. rewrite bind_run.
    by destruct (body acc (package_id package_registry item) root) as [[a|e] log]. }
  destruct n as [c|children|]; simpl; [exact Hone| |exact Hone].
  destruct (children !! "__NAMESPACE__") as [marker|] eqn:Hmarker; simpl; [|exact Hone].
  rewrite (item_path _ registry_name item Hname), bind_lift_Ret, bind_run.
  unfold os_listdir. rewrite Hlookup. simpl.
  exact (run_foldM_map (subpackage_id package_registry item) acc (names children)).
Qed.

Lemma for_registry_run acc :
  run (for_registry body acc package_registry) root
    = run (foldM body acc (registry_ids package_registry (Dir items))) root.
Proof.
  unfold for_registry. rewrite (registry_path _ registry_name).
  unfold run at 1. rewrite bind_lift_Ret, bind_run.
  unfold os_listdir. rewrite registry_listed. simpl.
  apply (run_foldM_bind (for_item body package_registry)
           (fun item => match items !! item with
                        | Some n' => item_ids package_registry item n'
                        | None => []
                        end)).
  intros item acc' [n Hn]%elem_of_names. rewrite Hn. by apply for_item_run.
Qed.
End ConsumerRegistry.

Lemma for_iter_packages_run acc registries :
  lookup_path root "packages" = Ret (Dir registries) ->
  well_formed_packages registries ->
  run (for_iter_packages body acc) root = run (foldM body acc (packages_ids registries)) root.
Proof.
  intros Hpackages Hwf. unfold for_iter_packages.
  change (_path ["packages"]) with (Ret (A := string) "packages").
  unfold run at 1. rewrite bind_lift_Ret, bind_run. unfold os_listdir.
  rewrite Hpackages. simpl.
  apply (run_foldM_bind (for_registry body)
           (fun r => match registries !! r with
                     | Some n => registry_ids r n
                     | None => []
                     end)).
  intros r acc' [n Hn]%elem_of_names. rewrite Hn.
  destruct (Hwf r n Hn) as (Hname & _ & items & -> & Hitems).
  apply for_registry_run; try done.
  change ["packages"; r] with (["packages"] ++ [r])%list.
  rewrite (lookup_path_entry ["packages"] r root registries); try done.
  - by rewrite Hn.
  - by apply is_entry_name_no_slash.
Qed.
End Consumer.

Lemma add_package_run rv package_name root :
  run (add_package rv package_name) root =
  match run (get_package package_name "latest") root with
  | Ret (Some pkg) =>
      match record_key pkg with
      | Ret k => Ret (<[k := pkg]> rv)
      | Raise e => Raise e
      end
  | Ret None => Ret rv
  | Raise e => Raise e
  end.
Proof.
  unfold add_package. rewrite run_bind.
  destruct (run (get_package package_name "latest") root) as [[pkg|]|e]; try done.
  unfold record_key, run. rewrite bind_run. unfold lift.
  destruct (canonical pkg) as [c|e]; simpl; [|done].
  rewrite bind_run. by destruct (as_key c).
Qed.

Lemma foldM_add_package ids rv root :
  (forall id, id ∈ ids ->
     exists o, run (get_package id "latest") root = Ret o /\
               forall pkg, o = Some pkg -> exists k, record_key pkg = Ret k) ->
  exists packages,
    run (foldM add_package rv ids) root = Ret packages /\
    (forall k pkg, packages !! k = Some pkg ->
       rv !! k = Some pkg \/
       record_key pkg = Ret k /\
       exists id, id ∈ ids /\ run (get_package id "latest") root = Ret (Some pkg)) /\
    (forall k, is_Some (rv !! k) -> is_Some (packages !! k)) /\
    (forall id pkg k, id ∈ ids -> run (get_package id "latest") root = Ret (Some pkg) ->
       record_key pkg = Ret k -> is_Some (packages !! k)).
Proof.
  revert rv. induction ids as [|id ids IH]; intros rv Hids; simpl.
  - exists rv. split_and!; [done|by left|done|]. intros id pkg k Hin. by inversion Hin.
  - destruct (Hids id (list_elem_of_here _ _)) as (o & Ho & Hkey).
    set (rv' := match o with
                | Some pkg => match record_key pkg with
                              | Ret k => <[k := pkg]> rv
                              | Raise _ => rv
                              end
                | None => rv
                end).
    destruct (IH rv') as (packages & Hrun & Hsound & Hkeep & Hcomplete).
    { intros id' Hin. by apply Hids, list_elem_of_further. }
    exists packages. split_and!.
    + rewrite run_bind, add_package_run, Ho. subst rv'.
      destruct o as [pkg|]; [|done].
      destruct (Hkey pkg eq_refl) as [k Hk]. rewrite Hk in Hrun |- *. exact Hrun.
    + intros k pkg Hlookup. destruct (Hsound k pkg Hlookup) as [Hrv'|(Hk & id' & Hin & Hid')].
      * subst rv'. destruct o as [pkg'|]; [|by left].
        destruct (Hkey pkg' eq_refl) as [k' Hk']. rewrite Hk' in Hrv'.
        destruct (decide (k' = k)) as [->|Hne].
        -- rewrite lookup_insert_eq in Hrv'. injection Hrv' as <-.
           right. split; [done|]. exists id. split; [apply list_elem_of_here|done].
        -- rewrite lookup_insert_ne in Hrv' by done. by left.
      * right. split; [done|]. exists id'. split; [by apply list_elem_of_further|done].
    + intros k Hk. apply Hkeep. subst rv'. destruct o as [pkg'|]; [|done].
      destruct (record_key pkg') as [k'|e]; [|done].
      destruct (decide (k' = k)) as [->|Hne];
        [rewrite lookup_insert_eq; by eexists|by rewrite lookup_insert_ne].
    + intros id' pkg k [->|Hin]%elem_of_cons Hid' Hk.
      * apply Hkeep. subst rv'. rewrite Ho in Hid'. injection Hid' as ->.
        rewrite Hk, lookup_insert_eq. by eexists.
      * by apply (Hcomplete id' pkg k).
Qed.

(** X9: on a packages tree the walk accepts, [get_packages] calls
    [get_package] on the identifiers of the walk.  When every latest record
    can be decoded and has a [canonical] field that can be a key, it returns
    a dictionary in which every record is stored under its own [canonical]
    value (not under the identifier of its directory) and is the latest
    record of an identifier of the walk, and in which the [canonical] value
    of every latest record is a key. *)
Theorem package_listing (root : node) (registries : gmap string node) :
  lookup_path root "packages" = Ret (Dir registries) ->
  well_formed_packages registries ->
  (forall id, id ∈ packages_ids registries ->
     exists o, run (get_package id "latest") root = Ret o /\
               forall pkg, o = Some pkg -> exists k, record_key pkg = Ret k) ->
  exists packages,
    run get_packages root = Ret packages /\
    (forall k pkg, packages !! k = Some pkg ->
       record_key pkg = Ret k /\
       exists id, id ∈ packages_ids registries /\
                  run (get_package id "latest") root = Ret (Some pkg)) /\
    (forall id pkg k, id ∈ packages_ids registries ->
       run (get_package id "latest") root = Ret (Some pkg) ->
       record_key pkg = Ret k -> is_Some (packages !! k)).
Proof.
  intros Hpackages Hwf Hids.
  destruct (foldM_add_package (packages_ids registries) ∅ root Hids)
    as (packages & Hrun & Hsound & _ & Hcomplete).
  exists packages. split_and!; [|intros k pkg Hlookup|exact Hcomplete].
  - unfold get_packages. by rewrite (for_iter_packages_run _ _ _ _ Hpackages Hwf).
  - destruct (Hsound k pkg Hlookup) as [Hempty|H]; [by rewrite lookup_empty in Hempty|done].
Qed.

Lemma package_listing_witness :
  exists packages,
    run get_packages aliased_packages_tree = Ret packages /\
    is_Some (packages !! KStr "npm:react") /\
    packages !! KStr "npm:react-old" = None.
Proof.
  destruct (package_listing aliased_packages_tree
              {["npm" := Dir (list_to_map
                 [("react", Dir {["latest.json" := package_record "npm:react" "16.0.0"]});
                  ("react-old", Dir {["latest.json" := package_record "npm:react" "15.0.0"]});
                  ("bare", Dir ∅)])]})
    as (packages & Hrun & Hsound & Hcomplete).
  - reflexivity.
  - intros r n [<- <-]%lookup_singleton_Some.
    split; [reflexivity|]. split; [reflexivity|]. eexists. split; [reflexivity|].
    intros item [n Hn]. apply elem_of_list_to_map_2 in Hn.
    repeat (apply elem_of_cons in Hn as [[= -> ->]|Hn]; [reflexivity|]).
    inversion Hn.
  - intros id Hid. vm_compute in Hid.
    repeat (apply elem_of_cons in Hid as [->|Hid];
            [eexists; split; [vm_compute; reflexivity|];
             intros pkg Hpkg; try discriminate Hpkg; injection Hpkg as <-;
             eexists; vm_compute; reflexivity|]).
    inversion Hid.
  - exists packages. split; [exact Hrun|]. clear Hrun. split.
    + apply (Hcomplete "npm:react"
               {| _data := JObj [("canonical", JStr "npm:react"); ("version", JStr "16.0.0")] |}).
      * vm_compute. repeat first [apply list_elem_of_here | apply list_elem_of_further].
      * vm_compute. reflexivity.
      * reflexivity.
    + apply eq_None_not_Some. intros [pkg Hpkg].
      destruct (Hsound _ _ Hpkg) as (Hk & id & Hid & Hget). vm_compute in Hid.
      repeat (apply elem_of_cons in Hid as [->|Hid];
              [vm_compute in Hget; try discriminate Hget; injection Hget as <-;
               vm_compute in Hk; discriminate Hk|]).
      inversion Hid.
Defined.

(** ** The marker of a namespace *)

(** X10: the walk yields the marker file of a namespace as if it were a
    child package (claim C5), but the identifier resolves to nothing: the
    file stands where the package directory would be, so no record can be
    opened below it and [get_package] returns [None] at every version
    without a slash. *)
Theorem marker_is_not_a_package (package_registry item version : string) (root : node)
    (c : content) :
  is_entry_name package_registry = true ->
  Str.contains ":" package_registry = false ->
  is_entry_name item = true ->
  Str.contains "/" version = false ->
  lookup_path root (os_path_join ["packages"; package_registry; item; "__NAMESPACE__"])
    = Ret (File c) ->
  get_package (subpackage_id package_registry item "__NAMESPACE__") version root =
  (Ret None,
   [Open (os_path_join ["packages"; package_registry; item; "__NAMESPACE__";
                        json_filename version])]).
Proof.
  intros Hregistry Hcolon Hitem Hslash Hmarker.
  assert (Str.split_once ":" (subpackage_id package_registry item "__NAMESPACE__")
          = Some (package_registry, item ++ "/" ++ "__NAMESPACE__")) as Hsplit
    by (by apply split_once_Some).
  rewrite (get_package_split _ _ _ _ _ Hsplit).
  pose proof (_path_merge ["packages"; package_registry] [json_filename version]
                item "__NAMESPACE__") as Hmerge.
  cbn [app] in Hmerge. rewrite <- Hmerge.
  rewrite _path_Ret.
  2:{ repeat constructor; auto using validate_path_component_entry_name, json_filename_valid. }
  unfold load_or_None.
  change ["packages"; package_registry; item; "__NAMESPACE__"; json_filename version]
    with (["packages"; package_registry; item; "__NAMESPACE__"] ++ [json_filename version])%list.
  rewrite lookup_path_snoc, Hmarker; [done|done|].
  unfold json_filename. by rewrite contains_append, Hslash.
Qed.

Lemma marker_is_not_a_package_witness :
  "python:sentry-sdk/__NAMESPACE__" ∈ packages_ids
     {["python" := Dir {["sentry-sdk" := Dir (list_to_map
        [("__NAMESPACE__", File Garbage);
         ("flask", Dir {["1.0.0.json" := package_record "python:sentry-sdk/flask" "1.0.0"]})])]}]} /\
  get_package "python:sentry-sdk/__NAMESPACE__" "latest" sentry_sdk_tree =
  (Ret None, [Open "packages/python/sentry-sdk/__NAMESPACE__/latest.json"]).
Proof.
  split.
  - vm_compute. repeat first [apply list_elem_of_here | apply list_elem_of_further].
  - apply (marker_is_not_a_package "python" "sentry-sdk" "latest" sentry_sdk_tree Garbage);
      reflexivity.
Defined.

(** ** The views on the versions of a package *)

Lemma _path_prefix args rest path :
  _path (args ++ rest) = Ret path -> _path args = Ret (os_path_join args).
Proof.
  intros H. apply _path_Ret. unfold _path in H.
  destruct (validate_args_cases (args ++ rest)) as [Hok|Hraise];
    [|by rewrite Hraise in H].
  apply validate_args_Ret, Forall_app in Hok. tauto.
Qed.

(** X11: the view of a package's versions answers "not found" when there is
    no package directory: when the path of the directory does not resolve,
    or leads to a file.  The method [get_package_versions] alone raises the
    error of the listing there; the view asks for the latest record first,
    and where there is no directory there is no [latest.json] to open.  (The
    identifier is taken without a NUL byte, on which [open] raises
    [ValueError] whatever the tree holds, hence the hypothesis.) *)
Theorem versions_view_not_found (package registry name : string) (root : node) :
  Str.split_once ":" package = Some (registry, name) ->
  validate_path_component registry = Ret tt ->
  validate_path_component name = Ret tt ->
  Str.contains "000" package = false ->
  (forall e,
     lookup_path root (os_path_join ["packages"; registry; name]) = Raise e ->
     Routes.get_package_versions package root =
       (Ret Routes.NotFound, [Open (os_path_join ["packages"; registry; name; "latest.json"])]) /\
     run (get_package_versions package) root = Raise e) /\
  (forall c,
     lookup_path root (os_path_join ["packages"; registry; name]) = Ret (File c) ->
     Routes.get_package_versions package root =
       (Ret Routes.NotFound, [Open (os_path_join ["packages"; registry; name; "latest.json"])]) /\
     run (get_package_versions package) root = Raise (OSError ENOTDIR)).
Proof.
  intros Hsplit Hregistry Hname _.
  assert (_path ["packages"; registry; name] = Ret (os_path_join ["packages"; registry; name]))
    as Hdir by (apply _path_Ret; repeat constructor; auto).
  assert (forall e,
            match lookup_path root (os_path_join ["packages"; registry; name]) with
            | Ret n => walk ["latest.json"] n
            | Raise e' => Raise e'
            end = Raise (OSError e) ->
            Routes.get_package_versions package root =
              (Ret Routes.NotFound,
               [Open (os_path_join ["packages"; registry; name; "latest.json"])])) as Hview.
  { intros e Hlatest. unfold Routes.get_package_versions.
    rewrite bind_run, (get_package_split _ _ _ _ _ Hsplit).
    rewrite _path_Ret by (repeat constructor; auto).
    unfold load_or_None. change (json_filename "latest") with "latest.json".
    change ["packages"; registry; name; "latest.json"]
      with (["packages"; registry; name] ++ ["latest.json"])%list.
    rewrite lookup_path_snoc by done. by rewrite Hlatest. }
  assert (forall e,
            run (os_listdir (os_path_join ["packages"; registry; name])) root = Raise e ->
            run (get_package_versions package) root = Raise e) as Hmethod.
  { intros e Hlist. unfold run. rewrite (get_package_versions_split _ _ _ _ Hsplit), bind_run.
    by rewrite (collect_versions_listdir_fails _ _ _ _ e Hdir Hlist). }
  split.
  - intros e Hlookup.
    assert (exists code, e = OSError code) as [code ->].
    { unfold lookup_path in Hlookup. apply walk_Raise in Hlookup.
      destruct e; try discriminate Hlookup. by eexists. }
    split.
    + apply (Hview code). by rewrite Hlookup.
    + apply Hmethod. unfold run, os_listdir. cbn [fst]. by rewrite Hlookup.
  - intros c Hlookup. split.
    + apply (Hview ENOTDIR). by rewrite Hlookup.
    + apply Hmethod. unfold run, os_listdir. cbn [fst]. by rewrite Hlookup.
Qed.

Lemma versions_view_not_found_witness :
  Routes.get_package_versions "npm:left-pad" (Dir ∅) =
    (Ret Routes.NotFound, [Open "packages/npm/left-pad/latest.json"]) /\
  run (get_package_versions "npm:left-pad") (Dir ∅) = Raise (OSError ENOENT).
Proof.
  destruct (versions_view_not_found "npm:left-pad" "npm" "left-pad" (Dir ∅))
    as [Hmissing _]; [reflexivity ..|].
  apply (Hmissing (OSError ENOENT)). reflexivity.
Defined.

Lemma mapM_result_Ret_inv {A B} (f : A -> result B) l k :
  mapM f l = Ret k -> Forall2 (fun x y => f x = Ret y) l k.
Proof.
  revert k. induction l as [|x l IH]; intros k; simpl.
  - intros [= <-]. constructor.
  - destruct (f x) as [y|e] eqn:Hx; simpl; [|done].
    destruct (mapM f l) as [k'|e] eqn:Hl; simpl; [|done].
    intros [= <-]. constructor; [done|]. by apply IH.
Qed.

(** When the sort returns, every member of the set is a string and is in
    the sorted list. *)
Lemma sorted_by_version_Ret rv versions x :
  sorted_by_version rv = Ret versions -> x ∈ rv ->
  exists s, x = Text s /\ s ∈ versions.
Proof.
  unfold sorted_by_version. intros Hsorted Hx.
  destruct (mapM version_key (elements rv)) as [keyed|e] eqn:Hkeyed; [|done].
  simpl in Hsorted. injection Hsorted as <-.
  apply mapM_result_Ret_inv in Hkeyed.
  apply elem_of_elements in Hx.
  apply list_elem_of_lookup in Hx as [i Hi].
  destruct (Forall2_lookup_l _ _ _ i x Hkeyed Hi) as ([k s] & Hy & Hkey).
  apply version_key_Ret in Hkey as [-> Hparse].
  exists s. split; [done|]. apply list_elem_of_fmap. exists (k, s). split; [done|].
  rewrite stable_sort_Permutation. apply list_elem_of_lookup. by exists i.
Qed.

Lemma set_add_member value rv rv' : set_add value rv = Ret rv' -> member_of value ∈ rv'.
Proof. destruct value; simpl; intros [= <-]; set_solver. Qed.

Section PackageDirectoryMembers.
Context (registry package dir : string) (root : node) (entries : gmap string node).
Hypothesis dir_valid : _path ["packages"; registry; package] = Ret dir.
Hypothesis dir_listed : lookup_path root dir = Ret (Dir entries).

Lemma add_version_of_file rv filename doc :
  is_entry_name filename = true ->
  Str.endswith filename ".json" = true ->
  entries !! filename = Some (File (Json doc)) ->
  run (add_version_of registry package rv filename) root =
  match getitem doc "version" with
  | Ret value => set_add value rv
  | Raise e => Raise e
  end.
Proof.
  intros Hname Hjson Hfile. unfold run, add_version_of. rewrite Hjson.
  change ["packages"; registry; package; filename]
    with (["packages"; registry; package] ++ [filename])%list.
  rewrite (_path_snoc _ _ _ dir_valid Hname), bind_lift_Ret, bind_run.
  unfold open_json_load.
  rewrite (lookup_path_entry _ _ root entries); [|done|by apply is_entry_name_no_slash|].
  - rewrite Hfile. simpl. rewrite bind_run. unfold lift.
    destruct (getitem doc "version") as [value|e]; simpl; [|done].
    by destruct (set_add value rv).
  - by rewrite <- (_path_Ret_inv _ _ dir_valid).
Qed.

(** When the loop ends, the [version] value of every record it has read is
    in the set. *)
Lemma foldM_add_version_of_member names rv rv' log filename doc :
  filename ∈ names ->
  is_entry_name filename = true ->
  Str.endswith filename ".json" = true ->
  entries !! filename = Some (File (Json doc)) ->
  foldM (add_version_of registry package) rv names root = (Ret rv', log) ->
  exists value, getitem doc "version" = Ret value /\ member_of value ∈ rv'.
Proof.
  intros Hin Hname Hjson Hfile.
  revert rv log. induction names as [|name names IH]; intros rv log; [by inversion Hin|].
  simpl. rewrite bind_run.
  destruct (add_version_of registry package rv name root) as [[rv0|e] log0] eqn:E; [|done].
  destruct (foldM _ rv0 names root) as [[rv1|e] log1] eqn:E'; simpl; [|done].
  intros [= <- _]. apply elem_of_cons in Hin as [<-|Hin].
  - pose proof (add_version_of_file rv filename doc Hname Hjson Hfile) as Hrun.
    unfold run in Hrun. rewrite E in Hrun. simpl in Hrun.
    destruct (getitem doc "version") as [value|e]; [|done].
    exists value. split; [done|]. symmetry in Hrun. apply set_add_member in Hrun.
    apply (foldM_add_version_of_mono _ _ _ _ _ dir_valid dir_listed) in E'. set_solver.
  - by eapply IH.
Qed.
End PackageDirectoryMembers.

(** X12: whenever the view of a package's versions answers with a result,
    the result holds the latest record and the sorted list of versions, the
    record's [version] is a string, and that string is one of the listed
    versions: [latest.json] is itself one of the files the listing reads. *)
Theorem versions_view_lists_latest (package : string) (root : node) (view : view_result) :
  run (Routes.get_package_versions package) root = Ret (Routes.Response view) ->
  exists latest versions v,
    view = ApiResponse (Routes.versions_data latest (Some versions)) /\
    run (get_package package "latest") root = Ret (Some latest) /\
    run (get_package_versions package) root = Ret (Some versions) /\
    version latest = Ret (JStr v) /\ v ∈ versions.
Proof.
  intros Hview. unfold Routes.get_package_versions in Hview. rewrite run_bind in Hview.
  destruct (run (get_package package "latest") root) as [[latest|]|e] eqn:Hlatest;
    [|discriminate Hview|discriminate Hview].
  rewrite run_bind in Hview.
  destruct (run (get_package_versions package) root) as [versions|e] eqn:Hversions;
    [|discriminate Hview].
  injection Hview as <-.
  destruct (Str.split_once ":" package) as [[registry name]|] eqn:Hsplit.
  2:{ apply split_once_None in Hsplit. unfold run in Hlatest.
      rewrite (get_package_no_colon _ _ _ Hsplit) in Hlatest. discriminate Hlatest. }
  unfold run in Hlatest, Hversions.
  rewrite (get_package_split _ _ _ _ _ Hsplit) in Hlatest.
  rewrite (get_package_versions_split _ _ _ _ Hsplit), bind_run in Hversions.
  change (json_filename "latest") with "latest.json" in Hlatest.
  change ["packages"; registry; name; "latest.json"]
    with (["packages"; registry; name] ++ ["latest.json"])%list in Hlatest.
  destruct (_path (["packages"; registry; name] ++ ["latest.json"])) as [path|e] eqn:Hpath;
    [|discriminate Hlatest].
  pose proof (_path_prefix _ _ _ Hpath) as Hdir.
  apply _path_Ret_inv in Hpath as ->. cbn [fst] in Hlatest. unfold load_or_None in Hlatest.
  rewrite lookup_path_snoc in Hlatest by done.
  destruct (lookup_path root (os_path_join ["packages"; registry; name]))
    as [[c|entries|]|e] eqn:Hlisted; try discriminate Hlatest.
  simpl in Hlatest.
  destruct (entries !! "latest.json") as [[[doc| |]|children|]|] eqn:Hfile;
    try discriminate Hlatest.
  injection Hlatest as <-.
  destruct (collect_versions registry name root) as [[rv|e] log] eqn:Hcollect;
    [|discriminate Hversions].
  simpl in Hversions. rewrite bind_run in Hversions. unfold lift in Hversions.
  destruct (sorted_by_version rv) as [sorted|e] eqn:Hsorted; [|discriminate Hversions].
  simpl in Hversions. injection Hversions as <-.
  assert (run (collect_versions registry name) root = Ret rv) as Hrun
    by (unfold run; by rewrite Hcollect).
  apply (collect_versions_run _ _ _ _ _ Hdir Hlisted) in Hrun as [log' Hfold].
  destruct (foldM_add_version_of_member _ _ _ _ _ Hdir Hlisted _ _ _ _ "latest.json" doc
              (proj2 (listed_names entries "latest.json") (ex_intro _ _ Hfile))
              eq_refl eq_refl Hfile Hfold) as (value & Hvalue & Hmember).
  destruct (sorted_by_version_Ret _ _ _ Hsorted Hmember) as (v & Hv & Hin).
  destruct value; try discriminate Hv. injection Hv as ->.
  exists {| _data := doc |}, sorted, v. by repeat split.
Qed.

Lemma versions_view_lists_latest_witness :
  exists latest versions v,
    run (get_package "npm:react" "latest") slug_tree = Ret (Some latest) /\
    run (get_package_versions "npm:react") slug_tree = Ret (Some versions) /\
    version latest = Ret (JStr v) /\ v ∈ versions.
Proof.
  destruct (versions_view_lists_latest "npm:react" slug_tree
              (ApiResponse
                 (Routes.versions_data
                    {| _data := JObj [("canonical", JStr "npm:react"); ("version", JStr "16.0.0")] |}
                    (Some ["16.0.0"]))))
    as (latest & versions & v & _ & H); [vm_compute; reflexivity|].
  by exists latest, versions, v.
Defined.

(** X13: the view of an SDK's versions takes the latest record from the
    package the link names, but lists the versions of the package the record
    names in its own [canonical] field.  When the two agree the view is the
    view of the package's versions.  (When the record's [canonical] has no
    colon the view answers with no list of versions at all.) *)
Theorem sdk_versions_view (sdk_id linked named : string) (doc : json) (latest : PackageInfo)
    (root : node) :
  is_entry_name sdk_id = true ->
  lookup_path root (os_path_join ["sdks"; sdk_id; "latest.json"]) = Ret (File (Json doc)) ->
  getitem doc "canonical" = Ret (JStr linked) ->
  run (get_package linked "latest") root = Ret (Some latest) ->
  canonical latest = Ret (JStr named) ->
  run (Routes.get_sdk_versions sdk_id) root =
    match run (get_package_versions named) root with
    | Ret versions => Ret (Routes.Response (ApiResponse (Routes.versions_data latest versions)))
    | Raise e => Raise e
    end /\
  (named = linked ->
   run (Routes.get_sdk_versions sdk_id) root = run (Routes.get_package_versions linked) root).
Proof.
  intros Hname Hfile Hlinked Hlatest Hnamed.
  destruct (get_sdk_linked sdk_id "latest" root doc linked Hname Hfile Hlinked) as [Hsdk _].
  assert (run (Routes.get_sdk_versions sdk_id) root =
          match run (get_package_versions named) root with
          | Ret versions =>
              Ret (Routes.Response (ApiResponse (Routes.versions_data latest versions)))
          | Raise e => Raise e
          end) as Hview.
  { unfold Routes.get_sdk_versions. rewrite run_bind, Hsdk, Hlatest, run_bind.
    unfold run at 1. unfold lift. cbn [fst]. rewrite Hnamed.
    rewrite run_bind. simpl get_package_versions_of_json.
    by destruct (run (get_package_versions named) root). }
  split; [exact Hview|]. intros ->. rewrite Hview.
  unfold Routes.get_package_versions. rewrite run_bind, Hlatest, run_bind.
  by destruct (run (get_package_versions linked) root).
Qed.

Lemma sdk_versions_view_witness :
  run (Routes.get_sdk_versions "react") renamed_sdk_tree =
    Ret (Routes.Response
           (ApiResponse (Routes.versions_data {| _data := renamed_record |} None))) /\
  run (Routes.get_sdk_versions "react") sdk_tree
    = run (Routes.get_package_versions "npm:react") sdk_tree.
Proof.
  split.
  - destruct (sdk_versions_view "react" "npm:react" "react"
                (JObj [("canonical", JStr "npm:react")]) {| _data := renamed_record |}
                renamed_sdk_tree) as [Hview _]; [vm_compute; reflexivity ..|].
    exact Hview.
  - destruct (sdk_versions_view "react" "npm:react" "npm:react"
                (JObj [("canonical", JStr "npm:react")])
                {| _data := JObj [("canonical", JStr "npm:react"); ("version", JStr "16.0.0")] |}
                sdk_tree) as [_ Hsame]; [vm_compute; reflexivity ..|].
    by apply Hsame.
Defined.

(** ** What the views answer *)

(** X14: a version view serves the document of the file: for a package
    version the response body is the JSON document stored in
    [<version>.json]; for an app version too, except that a file holding
    [null] is answered as "not found". *)
Theorem version_views_serve_the_file (root : node) (path : string) (doc : json) :
  lookup_path root path = Ret (File (Json doc)) ->
  (forall package registry name version,
     Str.split_once ":" package = Some (registry, name) ->
     _path ["packages"; registry; name; json_filename version] = Ret path ->
     exists view,
       run (Routes.get_package_version package version) root = Ret (Routes.Response view) /\
       make_response view = Ret (JsonResponse doc)) /\
  (forall app_id version,
     _path ["apps"; app_id; json_filename version] = Ret path ->
     (doc = JNull ->
      run (Routes.get_app_version app_id version) root = Ret Routes.NotFound) /\
     (doc <> JNull ->
      exists view,
        run (Routes.get_app_version app_id version) root = Ret (Routes.Response view) /\
        make_response view = Ret (JsonResponse doc))).
Proof.
  intros Hfile. split.
  - intros package registry name version Hsplit Hpath.
    unfold Routes.get_package_version. rewrite run_bind. unfold run at 1.
    rewrite (get_package_split _ _ _ _ _ Hsplit), Hpath. cbn [fst].
    unfold load_or_None. rewrite Hfile. eexists. split; reflexivity.
  - intros app_id version Hpath.
    assert (run (get_app app_id version) root =
            Ret (match doc with JNull => None | _ => Some doc end)) as Happ.
    { unfold run. rewrite (get_app_path _ _ _ _ Hpath). cbn [fst].
      unfold load_or_None. rewrite Hfile. by destruct doc. }
    unfold Routes.get_app_version. rewrite !run_bind, Happ. split.
    + by intros ->.
    + intros Hdoc. destruct doc; try done; eexists; split; reflexivity.
Qed.

Lemma version_views_serve_the_file_witness :
  (exists view,
     run (Routes.get_package_version "npm:react" "latest") sdk_tree
       = Ret (Routes.Response view) /\
     make_response view
       = Ret (JsonResponse (JObj [("canonical", JStr "npm:react"); ("version", JStr "16.0.0")]))) /\
  run (Routes.get_app_version "empty" "latest") app_tree = Ret Routes.NotFound.
Proof.
  split.
  - destruct (version_views_serve_the_file sdk_tree "packages/npm/react/latest.json"
                (JObj [("canonical", JStr "npm:react"); ("version", JStr "16.0.0")]))
      as [Hpackage _]; [vm_compute; reflexivity|].
    apply (Hpackage "npm:react" "npm" "react" "latest"); reflexivity.
  - destruct (version_views_serve_the_file app_tree "apps/empty/latest.json" JNull)
      as [_ Happ]; [vm_compute; reflexivity|].
    destruct (Happ "empty" "latest") as [Hnull _]; [reflexivity|].
    by apply Hnull.
Defined.

Lemma encode_PDict_map {V} (f : V -> pyobj) (g : V -> json) (l : list (string * V)) :
  (forall v, encode (f v) = Ret (g v)) ->
  encode (PDict (map (fun kv => (fst kv, f (snd kv))) l))
    = Ret (JObj (map (fun kv => (fst kv, g (snd kv))) l)).
Proof.
  intros Hf. cbn [encode].
  match goal with
  | |- mbind _ (?fields _) = _ =>
      assert (fields (map (fun kv => (fst kv, f (snd kv))) l)
              = Ret (map (fun kv => (fst kv, g (snd kv))) l)) as ->; [|done]
  end.
  induction l as [|[k v] l IH]; [done|].
  cbn [map fst snd]. rewrite Hf. cbn [mbind result_bind]. rewrite IH. done.
Qed.

Lemma encode_PKeyed_map {V} (f : V -> pyobj) (g : V -> json) (l : list (dict_key * V)) :
  (forall v, encode (f v) = Ret (g v)) ->
  encode (PKeyed (map (fun kv => (fst kv, f (snd kv))) l))
    = if sortable (map fst l)
      then Ret (JObj (map (fun kv => (key_name (fst kv), g (snd kv))) l))
      else Raise TypeError.
Proof.
  intros Hf. cbn [encode]. rewrite map_map. cbn [fst].
  destruct (sortable (map (fun kv => fst kv) l)); [|done].
  match goal with
  | |- mbind _ (?fields _) = _ =>
      assert (fields (map (fun kv => (fst kv, f (snd kv))) l)
              = Ret (map (fun kv => (key_name (fst kv), g (snd kv))) l)) as ->; [|done]
  end.
  induction l as [|[k v] l IH]; [done|].
  cbn [map fst snd]. rewrite Hf. cbn [mbind result_bind]. rewrite IH. done.
Qed.

(** X15: whatever a view other than the package summary returns can be
    serialised: the results hold loaded documents, strings and [PackageInfo]
    objects only, under keys that are strings, and the encoder's [default]
    turns each [PackageInfo] into its document, so the encoder never falls
    through to [JSONEncoder.default].  The package summary hands over the
    dictionary of [get_packages], whose keys are the [canonical] values of
    the records: a response is made of it exactly when its keys can be
    sorted (at most one key, or strings only, or numbers only); otherwise
    [make_response] raises [TypeError]. *)
Theorem views_are_serialisable (root : node) (o : Routes.outcome) :
  (forall package version,
     run (Routes.get_package_version package version) root = Ret o -> responds o) /\
  (forall package, run (Routes.get_package_versions package) root = Ret o -> responds o) /\
  (run Routes.get_marketing_slugs root = Ret o -> responds o) /\
  (forall slug, run (Routes.resolve_marketing_slugs slug) root = Ret o -> responds o) /\
  (run Routes.get_sdk_summary root = Ret o -> responds o) /\
  (forall sdk_id version,
     run (Routes.get_sdk_version sdk_id version) root = Ret o -> responds o) /\
  (forall sdk_id, run (Routes.get_sdk_versions sdk_id) root = Ret o -> responds o) /\
  (run Routes.get_app_summary root = Ret o -> responds o) /\
  (forall app_id version,
     run (Routes.get_app_version app_id version) root = Ret o -> responds o) /\
  (run Routes.get_package_summary root = Ret o ->
   exists packages view,
     run get_packages root = Ret packages /\
     o = Routes.Response view /\
     view = ApiResponse (PKeyed (map (fun kv => (fst kv, PPackageInfo (snd kv)))
                                     (map_to_list packages))) /\
     (responds o <-> sortable (map fst (map_to_list packages)) = true) /\
     (sortable (map fst (map_to_list packages)) = false ->
      make_response view = Raise TypeError) /\
     (Forall (fun k => exists s, k = KStr s) (map fst (map_to_list packages)) ->
      make_response view
        = Ret (JsonResponse
                 (JObj (map (fun kv => (key_name (fst kv), to_json (snd kv)))
                            (map_to_list packages)))))).
Proof.
  split_and!.
  - intros package version. unfold Routes.get_package_version. rewrite run_bind.
    destruct (run (get_package package version) root) as [[pkg|]|e]; intros [= <-];
      [by eexists|done].
  - intros package. unfold Routes.get_package_versions. rewrite run_bind.
    destruct (run (get_package package "latest") root) as [[pkg|]|e];
      [|by intros [= <-]|done].
    rewrite run_bind.
    destruct (run (get_package_versions package) root) as [versions|e]; intros [= <-].
    by eexists.
  - unfold Routes.get_marketing_slugs. rewrite run_bind.
    destruct (run get_marketing_slugs root) as [[| | | | |fields]|e]; intros [= <-].
    by eexists.
  - intros slug. unfold Routes.resolve_marketing_slugs. rewrite run_bind.
    destruct (run (resolve_marketing_slug slug) root) as [[[data [[pkg|pkg label]|]]|]|e];
      intros [= <-]; [by eexists ..|done].
  - unfold Routes.get_sdk_summary. rewrite run_bind.
    destruct (run get_sdks root) as [sdks|e]; intros [= <-].
    eexists. unfold make_response.
    by rewrite (encode_PDict_map PPackageInfo to_json).
  - intros sdk_id version. unfold Routes.get_sdk_version. rewrite run_bind.
    destruct (run (get_sdk sdk_id version) root) as [[pkg|]|e]; intros [= <-];
      [by eexists|done].
  - intros sdk_id. unfold Routes.get_sdk_versions. rewrite run_bind.
    destruct (run (get_sdk sdk_id "latest") root) as [[pkg|]|e];
      [|by intros [= <-]|done].
    rewrite run_bind. unfold run at 1. unfold lift. cbn [fst].
    destruct (canonical pkg) as [c|e]; [|done]. rewrite run_bind.
    destruct (run (get_package_versions_of_json c) root) as [versions|e]; intros [= <-].
    by eexists.
  - unfold Routes.get_app_summary. rewrite run_bind.
    destruct (run get_apps root) as [apps|e]; intros [= <-].
    eexists. unfold make_response.
    by rewrite (encode_PDict_map PJson (fun j => j)).
  - intros app_id version. unfold Routes.get_app_version. rewrite run_bind.
    destruct (run (get_app app_id version) root) as [[app|]|e]; intros [= <-];
      [by eexists|done].
  - unfold Routes.get_package_summary. rewrite run_bind.
    destruct (run get_packages root) as [packages|e]; intros [= <-].
    exists packages. eexists. split; [done|]. split; [done|]. split; [done|].
    unfold responds, make_response.
    rewrite (encode_PKeyed_map PPackageInfo to_json) by done.
    destruct (sortable (map fst (map_to_list packages))) eqn:Hsortable.
    + split_and!; [split; [done|by eexists]|done|done].
    + split_and!; [split; [by intros [response Hresponse]|done]|done|].
      intros Hstrings. exfalso.
      assert (sortable (map fst (map_to_list packages)) = true) as Htrue; [|congruence].
      clear Hsortable. unfold sortable.
      destruct (map fst (map_to_list packages)) as [|k [|k' keys]]; [done..|].
      apply orb_true_iff. left. apply forallb_forall. intros k0 Hk0.
      rewrite Forall_forall in Hstrings.
      destruct (Hstrings k0) as [s ->]; [by apply list_elem_of_In|done].
Qed.

Lemma views_are_serialisable_witness :
  responds (Routes.Response
              (ApiResponse
                 (PPackageInfo
                    {| _data := JObj [("canonical", JStr "npm:react");
                                      ("version", JStr "16.0.0")] |}))) /\
  (exists view,
     run Routes.get_package_summary mixed_keys_tree = Ret (Routes.Response view) /\
     make_response view = Raise TypeError).
Proof.
  split.
  - destruct (views_are_serialisable sdk_tree
                (Routes.Response
                   (ApiResponse
                      (PPackageInfo
                         {| _data := JObj [("canonical", JStr "npm:react");
                                           ("version", JStr "16.0.0")] |}))))
      as [Hpackage _].
    apply (Hpackage "npm:react" "latest"). vm_compute. reflexivity.
  - destruct (run Routes.get_package_summary mixed_keys_tree) as [o|e] eqn:Hrun;
      [|vm_compute in Hrun; discriminate Hrun].
    destruct (views_are_serialisable mixed_keys_tree o)
      as (_ & _ & _ & _ & _ & _ & _ & _ & _ & Hsummary).
    destruct (Hsummary Hrun) as (packages & view & Hpackages & -> & _ & _ & Hmixed & _).
    exists view. split; [reflexivity|]. apply Hmixed.
    vm_compute in Hpackages. injection Hpackages as <-. vm_compute. reflexivity.
Defined.

(** ** The list of slugs *)

Lemma str_lt_asym a b : str_lt a b = true -> str_lt b a = false.
Proof.
  unfold str_lt. rewrite (SemverOrder.compare_str_antisym a b).
  by destruct (Semver.compare_str a b).
Qed.

Lemma str_lt_trans_not a b c :
  str_lt b a = false -> str_lt c b = false -> str_lt c a = false.
Proof.
  unfold str_lt.
  destruct (Semver.compare_str b a) eqn:Hba; [|done|]; intros _;
    (destruct (Semver.compare_str c b) eqn:Hcb; [|done|]; intros _).
  - apply SemverOrder.compare_str_eq in Hba as ->, Hcb as ->.
    by rewrite (proj2 (SemverOrder.compare_str_eq a a) eq_refl).
  - apply SemverOrder.compare_str_eq in Hba as ->. by rewrite Hcb.
  - apply SemverOrder.compare_str_eq in Hcb as ->. by rewrite Hba.
  - by rewrite (SemverOrder.compare_str_trans c b a Gt Hcb Hba).
Qed.

Lemma str_lt_total a b : str_lt b a = false -> a <> b -> str_lt a b = true.
Proof.
  unfold str_lt. rewrite (SemverOrder.compare_str_antisym a b).
  destruct (Semver.compare_str a b) eqn:Hab; try done.
  apply SemverOrder.compare_str_eq in Hab. done.
Qed.

Lemma sorted_str_Permutation xs : sorted_str xs ≡ₚ xs.
Proof.
  unfold sorted_str. rewrite stable_sort_Permutation, map_map. simpl. by rewrite map_id.
Qed.

Lemma sorted_str_sorted xs :
  StronglySorted (fun a b => str_lt b a = false) (sorted_str xs).
Proof.
  unfold sorted_str.
  apply (StronglySorted_map (fun x : string * string => fst x = snd x)
           (fun x y => str_lt (fst y) (fst x) = false)).
  - by intros [a a'] [b b'] [= ->] [= ->].
  - apply Forall_forall. intros x Hx. rewrite stable_sort_Permutation in Hx.
    by apply list_elem_of_fmap in Hx as (s & -> & _).
  - apply stable_sort_sorted; [apply str_lt_asym|apply str_lt_trans_not].
Qed.

(** X16: the view of the slugs answers with the keys of the slug document,
    each as often as the document has it, in ascending order of the
    strings; the order is strict when the keys are distinct. *)
Theorem slug_listing_sorted (root : node) (fields : list (string * json)) :
  run get_marketing_slugs root = Ret (JObj fields) ->
  exists slugs,
    run Routes.get_marketing_slugs root =
      Ret (Routes.Response (ApiResponse (PDict [("slugs", PJson (JArr (map JStr slugs)))]))) /\
    slugs ≡ₚ map fst fields /\
    StronglySorted (fun a b => str_lt b a = false) slugs /\
    (NoDup (map fst fields) -> StronglySorted (fun a b => str_lt a b = true) slugs).
Proof.
  intros Hslugs. exists (sorted_str (map fst fields)). split_and!.
  - unfold Routes.get_marketing_slugs. by rewrite run_bind, Hslugs.
  - apply sorted_str_Permutation.
  - apply sorted_str_sorted.
  - intros Hnodup.
    assert (NoDup (sorted_str (map fst fields))) as Hnodup'
      by (by rewrite sorted_str_Permutation).
    pose proof (sorted_str_sorted (map fst fields)) as Hsorted.
    induction Hsorted as [|a l Hl IH Ha]; [constructor|].
    apply NoDup_cons in Hnodup' as [Hnotin Hnodup']. constructor; [by apply IH|].
    apply Forall_forall. intros b Hb. rewrite Forall_forall in Ha.
    apply str_lt_total; [by apply Ha|]. intros ->. done.
Qed.

Lemma slug_listing_sorted_witness :
  exists slugs,
    run Routes.get_marketing_slugs slug_tree =
      Ret (Routes.Response (ApiResponse (PDict [("slugs", PJson (JArr (map JStr slugs)))]))) /\
    slugs ≡ₚ ["react"; "gone"; "bad"] /\
    StronglySorted (fun a b => str_lt a b = true) slugs.
Proof.
  destruct (slug_listing_sorted slug_tree
              [("react", JObj [("type", JStr "sdk"); ("target", JStr "react")]);
               ("gone", JObj [("type", JStr "sdk"); ("target", JStr "missing-sdk")]);
               ("bad", JObj [("type", JStr "package"); ("target", JStr "npm:")])])
    as (slugs & Hrun & Hperm & _ & Hstrict); [vm_compute; reflexivity|].
  exists slugs. split; [exact Hrun|]. split; [exact Hperm|].
  apply Hstrict. apply (bool_decide_unpack (NoDup (map fst _))). vm_compute. exact I.
Defined.

(** ** The cache switch *)

Lemma lstrip_spaces l s : Str.all is_space l = true -> lstrip (l ++ s) = lstrip s.
Proof.
  induction l as [|a l IH]; [done|]. intros [Ha Hl]%andb_true_iff.
  change (String a l ++ s) with (String a (l ++ s)). cbn [lstrip]. rewrite Ha. by apply IH.
Qed.

Lemma lstrip_blank r : Str.all is_space r = true -> lstrip r = EmptyString.
Proof.
  induction r as [|a r IH]; [done|]. intros [Ha Hr]%andb_true_iff.
  cbn [lstrip]. rewrite Ha. by apply IH.
Qed.

Lemma rstrip_spaces r : Str.all is_space r = true -> rstrip r = EmptyString.
Proof.
  destruct r as [|a r]; [done|]. intros Hr. cbn [rstrip]. by rewrite (lstrip_blank _ Hr).
Qed.

(** An ASCII character that is not white space begins no white space. *)
Lemma lstrip_ascii a s :
  is_space a = false -> (N_of_ascii a < 128)%N -> lstrip (String a s) = String a s.
Proof.
  intros Ha Hascii. cbn [lstrip]. rewrite Ha.
  assert ((N_of_ascii a =? 194)%N = false) as H194 by (apply N.eqb_neq; lia).
  assert ((N_of_ascii a =? 225)%N = false) as H225 by (apply N.eqb_neq; lia).
  assert ((N_of_ascii a =? 226)%N = false) as H226 by (apply N.eqb_neq; lia).
  assert ((N_of_ascii a =? 227)%N = false) as H227 by (apply N.eqb_neq; lia).
  destruct s as [|b [|c s]]; [done| |]; unfold is_space2, is_space3;
    by rewrite ?H194, ?H225, ?H226, ?H227.
Qed.

(** An ASCII character that is not white space, with ASCII white space
    around it, is what is left after [strip]. *)
Lemma strip_padded l a r :
  Str.all is_space l = true -> Str.all is_space r = true ->
  is_space a = false -> (N_of_ascii a < 128)%N ->
  strip (l ++ String a EmptyString ++ r) = String a EmptyString.
Proof.
  intros Hl Hr Ha Hascii. unfold strip. rewrite (lstrip_spaces _ _ Hl).
  change (String a EmptyString ++ r) with (String a r).
  rewrite (lstrip_ascii _ _ Ha Hascii). cbn [rstrip].
  rewrite (lstrip_ascii _ _ Ha Hascii). by rewrite (rstrip_spaces _ Hr).
Qed.

Lemma strip_spaces ws : Str.all is_space ws = true -> strip ws = EmptyString.
Proof. intros Hws. unfold strip. by rewrite (lstrip_blank _ Hws). Qed.

(** X17: [REGISTRY_ENABLE_CACHE] decides alone when it holds [1] or [0],
    with or without white space around it: [1] turns the cache on and [0]
    turns it off, whatever [FLASK_ENV] says.  When the variable is unset,
    empty or white space only, the cache is on exactly when [FLASK_ENV] is
    the string [production] (which is compared as it is, unstripped). *)
Theorem cache_switch (environ : gmap string string) :
  (forall l r,
     Str.all is_space l = true -> Str.all is_space r = true ->
     (environ !! "REGISTRY_ENABLE_CACHE" = Some (l ++ "1" ++ r) ->
      is_caching_enabled environ = true) /\
     (environ !! "REGISTRY_ENABLE_CACHE" = Some (l ++ "0" ++ r) ->
      is_caching_enabled environ = false)) /\
  (environ !! "REGISTRY_ENABLE_CACHE" = None \/
   (exists ws, environ !! "REGISTRY_ENABLE_CACHE" = Some ws /\ Str.all is_space ws = true) ->
   is_caching_enabled environ = bool_decide (environ !! "FLASK_ENV" = Some "production")).
Proof.
  split.
  - intros l r Hl Hr. unfold is_caching_enabled, getenv.
    split; intros ->.
    + by rewrite (strip_padded l "1"%char r Hl Hr eq_refl eq_refl).
    + by rewrite (strip_padded l "0"%char r Hl Hr eq_refl eq_refl).
  - intros Hunset.
    assert (strip match getenv environ "REGISTRY_ENABLE_CACHE" (Some EmptyString) with
                  | Some value => value
                  | None => EmptyString
                  end = EmptyString) as Hstrip.
    { unfold getenv. destruct Hunset as [-> | (ws & -> & Hws)]; [done|by apply strip_spaces]. }
    unfold is_caching_enabled. rewrite Hstrip. simpl. unfold getenv.
    destruct (environ !! "FLASK_ENV") as [value|] eqn:Hflask.
    + destruct (String.eqb_spec value "production") as [->|Hne].
      * by rewrite bool_decide_eq_true_2.
      * rewrite bool_decide_eq_false_2; [done|]. by intros [= ->].
    + by rewrite bool_decide_eq_false_2.
Qed.

Lemma cache_switch_witness :
  is_caching_enabled {["REGISTRY_ENABLE_CACHE" := " 0 "; "FLASK_ENV" := "production"]} = false /\
  is_caching_enabled {["REGISTRY_ENABLE_CACHE" := " "; "FLASK_ENV" := "production"]} = true.
Proof.
  split.
  - destruct (cache_switch {["REGISTRY_ENABLE_CACHE" := " 0 "; "FLASK_ENV" := "production"]})
      as [Hset _].
    destruct (Hset " " " " eq_refl eq_refl) as [_ Hoff]. apply Hoff. reflexivity.
  - destruct (cache_switch {["REGISTRY_ENABLE_CACHE" := " "; "FLASK_ENV" := "production"]})
      as [_ Hunset].
    rewrite Hunset; [reflexivity|]. right. exists " ". split; reflexivity.
Defined.

Lemma register_empty f : register f ∅ = {[None := [f]]}.
Proof. unfold register. rewrite lookup_empty. simpl. by rewrite insert_empty. Qed.

Lemma register_singleton f fs :
  register f {[None := fs]} = {[None := (fs ++ [f])%list]}.
Proof. unfold register. by rewrite lookup_singleton_eq, insert_singleton_eq. Qed.

Lemma replicate_snoc {A} n (x : A) : (replicate n x ++ [x])%list = replicate (S n) x.
Proof. induction n as [|n IH]; simpl; [done|]. by rewrite IH. Qed.

Lemma enable_cache_repeatedly app n :
  before_request_funcs app = ∅ -> after_request_funcs app = ∅ ->
  before_request_funcs (Nat.iter (S n) (fun app => set_cache_enabled app true) app)
    = {[None := replicate (S n) return_cached]} /\
  after_request_funcs (Nat.iter (S n) (fun app => set_cache_enabled app true) app)
    = {[None := replicate (S n) cache_response]} /\
  CACHE_ENABLED (Nat.iter (S n) (fun app => set_cache_enabled app true) app) = Some true.
Proof.
  intros Hbefore Hafter. induction n as [|n IH].
  - simpl. by rewrite Hbefore, Hafter, !register_empty.
  - destruct IH as (Hb & Ha & _).
    change (Nat.iter (S (S n)) (fun app => set_cache_enabled app true) app)
      with (set_cache_enabled (Nat.iter (S n) (fun app => set_cache_enabled app true) app) true).
    set (prev := Nat.iter (S n) (fun app => set_cache_enabled app true) app) in *.
    cbn [set_cache_enabled before_request_funcs after_request_funcs CACHE_ENABLED
         before_request after_request].
    by rewrite Hb, Ha, !register_singleton, !replicate_snoc.
Qed.

(** X18: turning the cache off removes every request hook of the
    application, not only the two of the cache; turning it on adds the two
    hooks once more each time, so after [n] calls in a row the cache
    look-up and the cache store are registered [n] times. *)
Theorem cache_toggles (app : flask_app) (n : nat) :
  let disabled := set_cache_enabled app false in
  let enabled := Nat.iter n (fun app => set_cache_enabled app true) disabled in
  before_request_funcs disabled = ∅ /\
  after_request_funcs disabled = ∅ /\
  CACHE_ENABLED disabled = Some false /\
  (0 < n ->
   before_request_funcs enabled = {[None := replicate n return_cached]} /\
   after_request_funcs enabled = {[None := replicate n cache_response]} /\
   CACHE_ENABLED enabled = Some true).
Proof.
  simpl. split_and!; try done.
  intros Hn. destruct n as [|n]; [lia|].
  by apply (enable_cache_repeatedly (set_cache_enabled app false) n).
Qed.

Lemma cache_toggles_witness :
  let app := {| CACHE_ENABLED := None;
                before_request_funcs := {[None := [other_hook "auth"]]};
                after_request_funcs := ∅ |} in
  before_request_funcs
    (set_cache_enabled (set_cache_enabled (set_cache_enabled app false) true) true)
  = {[None := [return_cached; return_cached]]}.
Proof.
  intros app. destruct (cache_toggles app 2) as (_ & _ & _ & Henabled).
  destruct Henabled as (Hbefore & _); [lia|]. exact Hbefore.
Defined.

(** ** What the listing of versions reads *)

Lemma add_version_of_log registry package rv filename path root :
  Str.endswith filename ".json" = true ->
  _path ["packages"; registry; package; filename] = Ret path ->
  accesses (add_version_of registry package rv filename) root = [Open path].
Proof.
  intros Hjson Hpath. unfold accesses, add_version_of.
  rewrite Hjson, Hpath, bind_lift_Ret, bind_run. unfold open_json_load.
  destruct (lookup_path root path) as [[[doc| |]|entries|]|e]; simpl; try done.
  rewrite bind_run. unfold lift. by destruct (getitem doc "version").
Qed.

Lemma foldM_add_version_of_accesses registry package names rv root :
  accesses (foldM (add_version_of registry package) rv names) root
    `prefix_of` map (fun f => Open (os_path_join ["packages"; registry; package; f]))
                    (List.filter (fun f => Str.endswith f ".json") names) /\
  (forall rv', run (foldM (add_version_of registry package) rv names) root = Ret rv' ->
     accesses (foldM (add_version_of registry package) rv names) root
       = map (fun f => Open (os_path_join ["packages"; registry; package; f]))
             (List.filter (fun f => Str.endswith f ".json") names)).
Proof.
  revert rv. induction names as [|f names IH]; intros rv; [done|].
  unfold accesses, run in *. simpl foldM. rewrite bind_run.
  cbn [List.filter]. destruct (Str.endswith f ".json") eqn:Hjson.
  - destruct (_path_cases ["packages"; registry; package; f]) as [Hpath|Hpath].
    + pose proof (add_version_of_log registry package rv f _ root Hjson Hpath) as Hlog.
      unfold accesses in Hlog.
      destruct (add_version_of registry package rv f root) as [[rv0|e] log]; simpl in Hlog;
        subst log; cbn [map fst snd].
      * destruct (IH rv0) as [Hprefix Hall]. split.
        -- by apply prefix_cons.
        -- intros rv' Hrv'. by rewrite (Hall rv' Hrv').
      * split; [|done]. apply prefix_cons, prefix_nil.
    + unfold add_version_of. rewrite Hjson, Hpath, bind_lift_Raise. cbn [fst snd].
      split; [apply prefix_nil|done].
  - rewrite (add_version_of_other _ _ _ _ _ Hjson). cbn [fst snd app].
    apply IH.
Qed.

(** X19: after listing the package directory, [get_package_versions] opens
    the entries whose name ends in [.json], in the order of the listing, and
    nothing else: other files and the directory's subdirectories are never
    touched.  It stops at the first entry that fails; when it returns it has
    opened every one of them. *)
Theorem versions_read_only_json_files (canonical registry package : string) (root : node)
    (entries : gmap string node) :
  Str.split_once ":" canonical = Some (registry, package) ->
  lookup_path root (os_path_join ["packages"; registry; package]) = Ret (Dir entries) ->
  accesses (get_package_versions canonical) root
    `prefix_of` Listdir (os_path_join ["packages"; registry; package])
                :: map (fun f => Open (os_path_join ["packages"; registry; package; f]))
                       (List.filter (fun f => Str.endswith f ".json") (names entries)) /\
  (forall versions, run (get_package_versions canonical) root = Ret versions ->
     accesses (get_package_versions canonical) root
       = Listdir (os_path_join ["packages"; registry; package])
         :: map (fun f => Open (os_path_join ["packages"; registry; package; f]))
                (List.filter (fun f => Str.endswith f ".json") (names entries))).
Proof.
  intros Hsplit Hlisted. unfold accesses, run.
  rewrite (get_package_versions_split _ _ _ _ Hsplit), bind_run.
  unfold collect_versions.
  destruct (_path_cases ["packages"; registry; package]) as [Hdir|Hdir]; rewrite Hdir.
  2:{ rewrite bind_lift_Raise. split; [apply prefix_nil|done]. }
  rewrite bind_lift_Ret, bind_run. unfold os_listdir. rewrite Hlisted. cbn [fst snd].
  destruct (foldM_add_version_of_accesses registry package (names entries) ∅ root)
    as [Hprefix Hall].
  unfold accesses, run, names in *.
  destruct (foldM (add_version_of registry package) ∅ (map fst (map_to_list entries)) root)
    as [[rv|e] log]; cbn [fst snd app] in *.
  2:{ split; [by apply prefix_cons|done]. }
  rewrite bind_run. unfold lift.
  destruct (sorted_by_version rv) as [versions|e]; cbn [fst snd app]; rewrite app_nil_r;
    (split; [by apply prefix_cons|]); [|done].
  intros _ _. by rewrite (Hall rv eq_refl).
Qed.

Lemma versions_read_only_json_files_witness :
  accesses (get_package_versions "python:sentry-sdk/flask") sentry_sdk_tree
  = [Listdir "packages/python/sentry-sdk/flask";
     Open "packages/python/sentry-sdk/flask/1.0.0.json"].
Proof.
  destruct (versions_read_only_json_files "python:sentry-sdk/flask" "python" "sentry-sdk/flask"
              sentry_sdk_tree
              {["1.0.0.json" := package_record "python:sentry-sdk/flask" "1.0.0"]})
    as [_ Hall]; [reflexivity|vm_compute; reflexivity|].
  rewrite (Hall (Some ["1.0.0"])); vm_compute; reflexivity.
Defined.

(** ** Entries that are not directories *)

Lemma foldM_raises {A B} (step : B -> A -> M B) xs x root :
  x ∈ xs -> (forall acc, exists e, run (step acc x) root = Raise e) ->
  forall acc, exists e, run (foldM step acc xs) root = Raise e.
Proof.
  intros Hin Hx. induction xs as [|y xs IH]; intros acc; [by inversion Hin|].
  simpl. rewrite run_bind. apply elem_of_cons in Hin as [<-|Hin].
  - destruct (Hx acc) as [e ->]. by exists e.
  - destruct (run (step acc y) root) as [acc'|e]; [by apply IH|by exists e].
Qed.

Lemma for_yield_raises {A B} (body : A -> M (list B)) xs x root :
  x ∈ xs -> (exists e, run (body x) root = Raise e) ->
  exists e, run (for_yield xs body) root = Raise e.
Proof.
  intros Hin Hx. induction xs as [|y xs IH]; [by inversion Hin|].
  simpl. rewrite run_bind. apply elem_of_cons in Hin as [<-|Hin].
  - destruct Hx as [e ->]. by exists e.
  - destruct (run (body y) root) as [ys|e]; [|by exists e].
    rewrite run_bind. destruct (IH Hin) as [e ->]. by exists e.
Qed.

(** X20: the walk needs every entry of [packages] to be a directory.  One
    entry that is not (a stray file, or a directory the process may not
    read) makes the walk raise, and [get_packages] with it: nothing is
    listed, whatever the other registries hold. *)
Theorem walk_needs_directories (root : node) (registries : gmap string node)
    (package_registry : string) (n : node) :
  lookup_path root "packages" = Ret (Dir registries) ->
  registries !! package_registry = Some n ->
  is_entry_name package_registry = true ->
  (forall items, n <> Dir items) ->
  (exists e, run iter_packages root = Raise e) /\
  (exists e, run get_packages root = Raise e).
Proof.
  intros Hpackages Hregistry Hname Hfile.
  assert (run (os_listdir (os_path_join ["packages"; package_registry])) root
          = Raise (OSError match n with Denied => EACCES | _ => ENOTDIR end)) as Hlist.
  { unfold run, os_listdir. cbn [fst].
    change ["packages"; package_registry] with (["packages"] ++ [package_registry])%list.
    rewrite (lookup_path_entry ["packages"] _ root registries), Hregistry;
      [|done|by apply is_entry_name_no_slash|done].
    destruct n as [c|items|]; [done|by destruct (Hfile items)|done]. }
  split.
  - unfold iter_packages. change (_path ["packages"]) with (Ret (A := string) "packages").
    unfold run at 1. rewrite bind_lift_Ret. fold (run (os_listdir "packages" ≫= fun registries => for_yield registries iter_registry) root).
    rewrite run_bind. unfold run at 1, os_listdir at 1. rewrite Hpackages. cbn [fst].
    apply (for_yield_raises iter_registry _ package_registry).
    + apply elem_of_names. by eexists.
    + eexists. unfold iter_registry. rewrite (registry_path _ Hname).
      unfold run at 1. rewrite bind_lift_Ret. by apply listdir_fails.
  - unfold get_packages, for_iter_packages.
    change (_path ["packages"]) with (Ret (A := string) "packages").
    unfold run at 1. rewrite bind_lift_Ret. fold (run (os_listdir "packages" ≫= fun registries => foldM (for_registry add_package) ∅ registries) root).
    rewrite run_bind. unfold run at 1, os_listdir at 1. rewrite Hpackages. cbn [fst].
    apply (foldM_raises (for_registry add_package) _ package_registry).
    + apply elem_of_names. by eexists.
    + intros acc. eexists. unfold for_registry. rewrite (registry_path _ Hname).
      unfold run at 1. rewrite bind_lift_Ret. by apply listdir_fails.
Qed.

Lemma walk_needs_directories_witness :
  (exists e, run iter_packages
               (Dir {["packages" := Dir (list_to_map [("npm", Dir ∅); ("README", File Garbage)])]})
             = Raise e) /\
  (exists e, run get_packages
               (Dir {["packages" := Dir (list_to_map [("npm", Dir ∅); ("README", File Garbage)])]})
             = Raise e).
Proof.
  apply (walk_needs_directories _ (list_to_map [("npm", Dir ∅); ("README", File Garbage)])
           "README" (File Garbage)); try reflexivity.
  intros items. discriminate.
Defined.

(** ** The listings and the views stay inside the registry *)

Lemma safe_get_package_versions_of_json canonical :
  safe (get_package_versions_of_json canonical).
Proof.
  destruct canonical; simpl; try apply safe_raise; try apply safe_get_package_versions;
    repeat safe_step.
Qed.

Lemma safe_get_packages : safe get_packages.
Proof.
  unfold get_packages, for_iter_packages, for_registry, for_item, add_package.
  repeat (first [apply safe_get_package|safe_step]).
Qed.

Lemma safe_get_apps : safe get_apps.
Proof.
  unfold get_apps, add_app. repeat (first [apply safe_get_app|safe_step]).
Qed.

(** X21: what claim C2 shows for the methods of the registry holds for the
    two listings it leaves out and for every view: none of them ever
    accesses the filesystem at a path that has an empty, [.] or [..]
    component, whatever the request and whatever the tree holds. *)
Theorem listings_and_views_stay_inside :
  safe get_packages /\ safe get_apps /\
  (forall package version, safe (Routes.get_package_version package version)) /\
  (forall package, safe (Routes.get_package_versions package)) /\
  safe Routes.get_marketing_slugs /\
  (forall slug, safe (Routes.resolve_marketing_slugs slug)) /\
  safe Routes.get_sdk_summary /\
  (forall sdk_id version, safe (Routes.get_sdk_version sdk_id version)) /\
  (forall sdk_id, safe (Routes.get_sdk_versions sdk_id)) /\
  safe Routes.get_app_summary /\
  (forall app_id version, safe (Routes.get_app_version app_id version)).
Proof.
  split_and!.
  - apply safe_get_packages.
  - apply safe_get_apps.
  - intros package version. unfold Routes.get_package_version.
    repeat (first [apply safe_get_package|safe_step]).
  - intros package. unfold Routes.get_package_versions.
    repeat (first [apply safe_get_package|apply safe_get_package_versions|safe_step]).
  - unfold Routes.get_marketing_slugs.
    repeat (first [apply safe_get_marketing_slugs|safe_step]).
  - intros slug. unfold Routes.resolve_marketing_slugs.
    repeat (first [apply safe_resolve_marketing_slug|safe_step]).
  - unfold Routes.get_sdk_summary. repeat (first [apply safe_get_sdks|safe_step]).
  - intros sdk_id version. unfold Routes.get_sdk_version.
    repeat (first [apply safe_get_sdk|safe_step]).
  - intros sdk_id. unfold Routes.get_sdk_versions.
    repeat (first [apply safe_get_sdk|apply safe_get_package_versions_of_json|safe_step]).
  - unfold Routes.get_app_summary. repeat (first [apply safe_get_apps|safe_step]).
  - intros app_id version. unfold Routes.get_app_version.
    repeat (first [apply safe_get_app|safe_step]).
Qed.
